(** * Gomoku Alpha-Beta engine (gomoku-ai.js): shallow embedding

    The engine is the class [GomokuAI] of [src/gomoku-ai.js].  Boards are
    JavaScript arrays of arrays of numbers (0 empty, 1 black, 2 white),
    mutated in place by the search; line strings are JavaScript strings over
    the characters 0, 1, 2 and x; scores are JavaScript numbers.

    Numbers: every score the engine computes is built from the pattern
    weights by [+], [-], [*], unary minus and comparisons.  They are modelled
    as exact rationals [Q] (with the two infinities added where the source
    uses [Infinity]); NaN and rounding are outside the model.  The search
    functions read their settings from a record of numbers; the settings
    object the constructor builds, with properties that may be missing, is
    modelled separately ([GomokuAI_constructor]) and read into that record by
    [settings_of].

    Effects: the board is one shared array, written by [board[r][c] = v] and
    restored by hand; the engine keeps two counters and a log.  They form the
    state [World] threaded through the functions that write ([M]); functions
    that only read take the board as an argument.  Time stamps and the
    elapsed time of a search are left out.  The per-stone shape counters
    ([detectAllPatterns] and its helpers), which the search does not call,
    are modelled after the search, and so is the game controller
    ([GomokuGame] of main.js) that owns the board and calls the engine. *)

From Stdlib Require Import ZArith QArith Lqa String Ascii List OrdersTac Sorted.
From stdpp Require Import base option list gmap strings.

Local Open Scope string_scope.
Local Open Scope list_scope.
Local Open Scope Z_scope.

(** ** Board model *)

(** [board[r][c]]: [None] stands for JavaScript's [undefined]. *)
Abbreviation Board := (list (list Z)).

Definition cell (b : Board) (r c : Z) : option Z :=
  if (r <? 0) || (c <? 0) then None
  else match b !! Z.to_nat r with
       | Some row => row !! Z.to_nat c
       | None => None
       end.

(** [board[r][c] = v] for a cell of the grid. *)
Definition set_cell (b : Board) (r c v : Z) : Board :=
  if (r <? 0) || (c <? 0) then b
  else alter (fun row => <[Z.to_nat c := v]> row) (Z.to_nat r) b.

(** [val === v] *)
Definition is_val (o : option Z) (v : Z) : bool :=
  match o with Some x => x =? v | None => false end.

(** A [n] by [n] grid. *)
Definition wf_board (n : Z) (b : Board) : Prop :=
  Z.of_nat (length b) = n /\ Forall (fun row => Z.of_nat (length row) = n) b.

Definition is_player (p : Z) : Prop := p = 1 \/ p = 2.

Definition empty_board (n : nat) : Board := replicate n (replicate n 0).

(** ** Line encoder *)

(** [val === player ? "1" : (val === 0 ? "0" : "2")] *)
Definition encode (player : Z) (val : option Z) : ascii :=
  if is_val val player then "1"%char
  else if is_val val 0 then "0"%char
  else "2"%char.

Definition str_of (cs : list ascii) : string := string_of_list_ascii cs.

Definition off_board (size r c : Z) : bool :=
  (r <? 0) || (r >=? size) || (c <? 0) || (c >=? size).

(** [while (off(k)) k++] and [while (off(k)) k--]; the centre [k = 0] is on
    the board, so at most four steps are taken from [-4] or [4]. *)
Fixpoint raise_minK (fuel : nat) (off : Z -> bool) (k : Z) : Z :=
  match fuel with
  | O => k
  | S f => if off k then raise_minK f off (k + 1) else k
  end.

Fixpoint lower_maxK (fuel : nat) (off : Z -> bool) (k : Z) : Z :=
  match fuel with
  | O => k
  | S f => if off k then lower_maxK f off (k - 1) else k
  end.

Definition getLineString (size : Z) (board : Board) (r c dr dc player : Z)
    (forceCenterAsPlayer : bool) : string :=
  let off k := off_board size (r + k * dr) (c + k * dc) in
  let minK := raise_minK 5 off (-4) in
  let maxK := lower_maxK 5 off 4 in
  let str :=
    map (fun k =>
           if (k =? 0) && forceCenterAsPlayer then "1"%char
           else encode player (cell board (r + k * dr) (c + k * dc)))
        (seqZ minK (maxK - minK + 1)) in
  "2" +:+ str_of str +:+ "2".

Definition getRowString (size : Z) (board : Board) (row player : Z) : string :=
  "2" +:+ str_of (map (fun col => encode player (cell board row col)) (seqZ 0 size)) +:+ "2".

Definition getColString (size : Z) (board : Board) (col player : Z) : string :=
  "2" +:+ str_of (map (fun row => encode player (cell board row col)) (seqZ 0 size)) +:+ "2".

(** One diagonal: the rows are scanned in order and the cells whose column
    [colOf row] is on the board are encoded. *)
Definition diagString (size : Z) (board : Board) (player : Z) (colOf : Z -> Z) : string :=
  "2" +:+ str_of (flat_map (fun row =>
                   let col := colOf row in
                   if (col >=? 0) && (col <? size)
                   then [encode player (cell board row col)] else [])
                 (seqZ 0 size)) +:+ "2".

Definition getAllDiagonals (size : Z) (board : Board) (player : Z) : list string :=
  map (fun k => diagString size board player (fun row => row - k))
      (seqZ (- (size - 5)) (2 * (size - 5) + 1))
  ++ map (fun k => diagString size board player (fun row => k - row))
      (seqZ 4 (2 * (size - 1) - 4 - 4 + 1)).

(** ** Pattern classifier *)

Inductive PatternType :=
  liveFive | liveFour | deadFour | liveThree | deadThree | liveTwo | deadTwo.

(** The regular expressions of the engine are alternations of literals. *)
Definition regex := list string.

Definition patterns : list (regex * PatternType) :=
  [ (["11111"], liveFive);
    (["011110"], liveFour);
    (["011112"; "211110"; "10111"; "11011"; "11101"], deadFour);
    (["01110"; "010110"; "011010"], liveThree);
    (["001112"; "211100"; "010112"; "211010"; "011012"; "210110";
      "10011"; "11001"; "10101"], deadThree);
    (["001100"; "01100"; "00110"; "01010"; "010010"], liveTwo) ].

(** The first alternative that matches at the head of [s]. *)
Fixpoint match_here (re : regex) (s : string) : option string :=
  match re with
  | [] => None
  | a :: rest => if String.prefix a s then Some a else match_here rest s
  end.

(** [s.match(re)] for a regex without the g flag: the leftmost position
    where some alternative matches, and there the first such alternative. *)
Fixpoint regex_match (re : regex) (s : string) : option string :=
  match match_here re s with
  | Some m => Some m
  | None => match s with
            | EmptyString => None
            | String _ s' => regex_match re s'
            end
  end.

Fixpoint drop_chars (n : nat) (s : string) : string :=
  match n, s with
  | S n', String _ s' => drop_chars n' s'
  | _, _ => s
  end.

(** [s.replace(pat, rep)] with a string pattern: the first occurrence. *)
Fixpoint str_replace (pat rep s : string) : string :=
  if String.prefix pat s then rep +:+ drop_chars (String.length pat) s
  else match s with
       | EmptyString => EmptyString
       | String ch s' => String ch (str_replace pat rep s')
       end.

(** [s.replace(/1/g, 'x')] *)
Fixpoint neutralize (s : string) : string :=
  match s with
  | EmptyString => EmptyString
  | String ch s' => String (if Ascii.eqb ch "1" then "x"%char else ch) (neutralize s')
  end.

Record PatternWeights := {
  w_liveFive : Q; w_liveFour : Q; w_deadFour : Q; w_liveThree : Q;
  w_deadThree : Q; w_liveTwo : Q; w_deadTwo : Q; opponentThreat : Q }.

(** [patternWeights[type]] *)
Definition weight (w : PatternWeights) (t : PatternType) : Q :=
  match t with
  | liveFive => w_liveFive w | liveFour => w_liveFour w
  | deadFour => w_deadFour w | liveThree => w_liveThree w
  | deadThree => w_deadThree w | liveTwo => w_liveTwo w
  | deadTwo => w_deadTwo w
  end.

(** The [while (true)] loop of [calculateLineScore] for one rule.  Every
    round turns at least one 1 of [tempStr] into x, so [fuel] above the
    length of the string is never used up. *)
Fixpoint consume (fuel : nat) (re : regex) (wt : Q) (tempStr : string) (score : Q) : Q :=
  match fuel with
  | O => score
  | S f =>
      match regex_match re tempStr with
      | None => score
      | Some matchedPart =>
          consume f re wt (str_replace matchedPart (neutralize matchedPart) tempStr)
                  (score + wt)%Q
      end
  end.

Definition calculateLineScore (w : PatternWeights) (lineStr : string) : Q :=
  fold_left (fun score '(re, t) =>
               match regex_match re lineStr with
               | Some _ => consume (S (String.length lineStr)) re (weight w t) lineStr score
               | None => score
               end)
            patterns 0%Q.

Definition default_weights : PatternWeights :=
  {| w_liveFive := 100000; w_liveFour := 5000; w_deadFour := 400;
     w_liveThree := 400; w_deadThree := 20; w_liveTwo := 10; w_deadTwo := 5;
     opponentThreat := - (8 # 10) |}.


(** ** Numbers with the two infinities *)

Inductive num := NegInf | Fin (q : Q) | PosInf.

(** unary minus *)
Definition num_neg (a : num) : num :=
  match a with NegInf => PosInf | Fin q => Fin (- q)%Q | PosInf => NegInf end.

(** [a <= b] *)
Definition num_le (a b : num) : bool :=
  match a, b with
  | NegInf, _ => true
  | _, PosInf => true
  | Fin x, Fin y => Qle_bool x y
  | _, _ => false
  end.

(** [a >= b] and [a > b] *)
Definition num_ge (a b : num) : bool := num_le b a.
Definition num_gt (a b : num) : bool := negb (num_le a b).

(** [Math.max(a, b)] *)
Definition num_max (a b : num) : num := if num_le b a then a else b.

(** ** Settings and engine state *)

Record Settings := {
  searchDepth : Z;
  candidateCount : Z;
  searchRange : Z;
  boardSize : Z;
  patternWeights : PatternWeights }.

Abbreviation Move := (Z * Z)%type.

(** The three kinds of message [findBestMove] logs; time stamps and the
    elapsed time are wall-clock values and are left out. *)
Inductive LogMessage :=
| LogCandidates (n : nat)
| LogScore (row col : Z) (score : num)
| LogSummary (bestMove : option Move) (bestScore : num) (nodes prunings : Z).

(** The mutable objects a search touches: the caller's board (one array,
    shared by every call) and the counters and log of the engine. *)
Record World := {
  the_board : Board;
  searchNodes : Z;
  pruningCount : Z;
  logs : list LogMessage }.

Record SearchResult := {
  move : option Move;
  score : num;
  res_searchNodes : Z;
  res_pruningCount : Z;
  res_logs : list LogMessage }.

(** State passing; [None] is a recursion that ran out of fuel. *)
Definition M (A : Type) : Type := World -> option (A * World).

Definition ret {A} (x : A) : M A := fun w => Some (x, w).

Definition bind {A B} (m : M A) (k : A -> M B) : M B :=
  fun w => match m w with
           | Some (x, w') => k x w'
           | None => None
           end.

Notation "x <- c1 ;; c2" := (bind c1 (fun x => c2))
  (at level 100, c1 at next level, right associativity).
Notation "c1 ;; c2" := (bind c1 (fun _ => c2))
  (at level 100, right associativity).

Definition out_of_fuel {A} : M A := fun _ => None.

Definition read_board : M Board := fun w => Some (the_board w, w).

Definition write_cell (r c v : Z) : M unit := fun w =>
  Some (tt, {| the_board := set_cell (the_board w) r c v;
               searchNodes := searchNodes w;
               pruningCount := pruningCount w;
               logs := logs w |}).

Definition incr_searchNodes : M unit := fun w =>
  Some (tt, {| the_board := the_board w; searchNodes := searchNodes w + 1;
               pruningCount := pruningCount w; logs := logs w |}).

Definition incr_pruningCount : M unit := fun w =>
  Some (tt, {| the_board := the_board w; searchNodes := searchNodes w;
               pruningCount := pruningCount w + 1; logs := logs w |}).

Definition reset_counters : M unit := fun w =>
  Some (tt, {| the_board := the_board w; searchNodes := 0;
               pruningCount := 0; logs := [] |}).

Definition log (msg : LogMessage) : M unit := fun w =>
  Some (tt, {| the_board := the_board w; searchNodes := searchNodes w;
               pruningCount := pruningCount w; logs := logs w ++ [msg] |}).

Definition read_counters : M (Z * Z * list LogMessage) := fun w =>
  Some ((searchNodes w, pruningCount w, logs w), w).

(** ** Sorting and slicing *)

(** [Array.prototype.sort] is a stable sort: [x] goes before the first
    element it does not compare greater than. *)
Fixpoint sort_insert {A} (cmp : A -> A -> Q) (x : A) (l : list A) : list A :=
  match l with
  | [] => [x]
  | y :: l' => if Qle_bool (cmp x y) 0 then x :: l else y :: sort_insert cmp x l'
  end.

Fixpoint js_sort {A} (cmp : A -> A -> Q) (l : list A) : list A :=
  match l with
  | [] => []
  | x :: l' => sort_insert cmp x (js_sort cmp l')
  end.

(** [l.slice(0, n)]: a negative [n] counts from the end. *)
Definition js_slice0 {A} (l : list A) (n : Z) : list A :=
  let len := Z.of_nat (length l) in
  let final := if n <? 0 then Z.max (len + n) 0 else Z.min n len in
  take (Z.to_nat final) l.

(** ** The engine *)

Definition directions : list (Z * Z) := [(0, 1); (1, 0); (1, 1); (1, -1)].

Section Engine.

Variable ai : Settings.

Let size := boardSize ai.
Let weights := patternWeights ai.

(** *** Position evaluator *)

Definition evaluatePatternsForPlayer (board : Board) (player : Z) : Q :=
  let totalScore := 0%Q in
  let totalScore :=
    fold_left (fun acc i => (acc + calculateLineScore weights (getRowString size board i player))%Q)
              (seqZ 0 size) totalScore in
  let totalScore :=
    fold_left (fun acc i => (acc + calculateLineScore weights (getColString size board i player))%Q)
              (seqZ 0 size) totalScore in
  fold_left (fun acc dStr => (acc + calculateLineScore weights dStr)%Q)
            (getAllDiagonals size board player) totalScore.

Definition evaluateBoard (board : Board) (player : Z) : Q :=
  let myScore := evaluatePatternsForPlayer board player in
  let opponentScore := evaluatePatternsForPlayer board (3 - player) in
  (myScore - opponentScore * opponentThreat weights)%Q.

(** [evaluateBoard(board, player)] called on the shared board. *)
Definition evaluateBoard_call (player : Z) : M Q :=
  board <- read_board ;;
  ret (evaluateBoard board player).

Definition quickEvaluatePosition (row col player : Z) : M Q :=
  write_cell row col player ;;
  board <- read_board ;;
  let score := 0%Q in
  let score :=
    fold_left (fun acc '(dx, dy) =>
                 (acc + calculateLineScore weights
                          (getLineString size board row col dx dy player false))%Q)
              directions score in
  let opponent := 3 - player in
  let score :=
    fold_left (fun acc '(dx, dy) =>
                 (acc + calculateLineScore weights
                          (getLineString size board row col dx dy opponent true)
                        * (8 # 10))%Q)
              directions score in
  write_cell row col 0 ;;
  ret score.

(** *** Candidate generator *)

Definition hasNearbyPieces (board : Board) (row col range : Z) : bool :=
  let startRow := Z.max 0 (row - range) in
  let endRow := Z.min (size - 1) (row + range) in
  let startCol := Z.max 0 (col - range) in
  let endCol := Z.min (size - 1) (col + range) in
  existsb (fun r =>
             existsb (fun c => negb (is_val (cell board r c) 0))
                     (seqZ startCol (endCol - startCol + 1)))
          (seqZ startRow (endRow - startRow + 1)).

(** The cells in the order the two nested loops visit them. *)
Definition scan_order : list Move :=
  flat_map (fun row => map (fun col => (row, col)) (seqZ 0 size)) (seqZ 0 size).

(** The body of the scan; [moveScores] is the [Map] keyed by the cell. *)
Fixpoint scan_cells (player : Z) (cells : list Move)
    (moves : list Move) (moveScores : gmap Move Q) : M (list Move * gmap Move Q) :=
  match cells with
  | [] => ret (moves, moveScores)
  | (row, col) :: rest =>
      board <- read_board ;;
      if negb (is_val (cell board row col) 0) then
        scan_cells player rest moves moveScores
      else if negb (hasNearbyPieces board row col (searchRange ai)) then
        scan_cells player rest moves moveScores
      else
        score <- quickEvaluatePosition row col player ;;
        scan_cells player rest (moves ++ [(row, col)]) (<[(row, col) := score]> moveScores)
  end.

(** [moveScores.get(key)]; every move that is looked up has been stored. *)
Definition score_of (moveScores : gmap Move Q) (m : Move) : Q :=
  default 0%Q (moveScores !! m).

Definition generateCandidateMoves (player : Z) : M (list Move) :=
  r <- scan_cells player scan_order [] ∅ ;;
  let '(moves, moveScores) := r in
  let moves :=
    js_sort (fun a b => (score_of moveScores b - score_of moveScores a)%Q) moves in
  ret (js_slice0 moves (candidateCount ai)).

(** *** Terminal detector *)

(** The inner [while] of [hasFiveInARow]; it leaves the board after at most
    [size] steps. *)
Fixpoint run_count (fuel : nat) (board : Board) (player r c dx dy count : Z) : Z :=
  match fuel with
  | O => count
  | S f =>
      if (r >=? 0) && (r <? size) && (c >=? 0) && (c <? size)
         && is_val (cell board r c) player
      then run_count f board player (r + dx) (c + dy) dx dy (count + 1)
      else count
  end.

Definition hasFiveInARow (board : Board) (player : Z) : bool :=
  existsb (fun '(row, col) =>
             if negb (is_val (cell board row col) player) then false
             else existsb (fun '(dx, dy) =>
                             run_count (Z.to_nat size) board player
                                       (row + dx) (col + dy) dx dy 1 >=? 5)
                          directions)
          scan_order.

Definition isBoardFull (board : Board) : bool :=
  negb (existsb (fun '(row, col) => is_val (cell board row col) 0) scan_order).

Definition checkWinner (board : Board) : Z :=
  if hasFiveInARow board 1 then 1
  else if hasFiveInARow board 2 then 2
  else if isBoardFull board then 0
  else -1.

(** *** Alpha-Beta search *)

(** [prune = true] is the source.  [prune = false] is the same search with
    the statement [if (alpha >= beta) { pruningCount++; break; }] taken
    out: the exhaustive negamax the pruned search is compared with. *)
Section Search.

Variable prune : bool.

(** The [for (const move of candidates)] loop of [alphaBetaSearch];
    [rec] is the recursive call at [depth - 1] for the other player. *)
Fixpoint search_loop (rec : num -> num -> M num) (player : Z) (beta : num)
    (candidates : list Move) (maxScore alpha : num) : M num :=
  match candidates with
  | [] => ret maxScore
  | (row, col) :: rest =>
      write_cell row col player ;;
      v <- rec (num_neg beta) (num_neg alpha) ;;
      let score := num_neg v in
      write_cell row col 0 ;;
      let maxScore := num_max maxScore score in
      let alpha := num_max alpha score in
      if prune && num_ge alpha beta then
        incr_pruningCount ;; ret maxScore
      else search_loop rec player beta rest maxScore alpha
  end.

Fixpoint search (fuel : nat) (depth : Z) (alpha beta : num) (player : Z) : M num :=
  match fuel with
  | O => out_of_fuel
  | S fuel' =>
      incr_searchNodes ;;
      board <- read_board ;;
      if depth =? 0 then
        v <- evaluateBoard_call player ;; ret (Fin v)
      else
        let winner := checkWinner board in
        if winner =? player then ret (Fin (inject_Z (10000 + depth)))
        else if winner =? 3 - player then ret (Fin (inject_Z (-10000 - depth)))
        else
          candidates <- generateCandidateMoves player ;;
          match candidates with
          | [] => ret (Fin 0)
          | _ => search_loop (fun a b => search fuel' (depth - 1) a b (3 - player))
                             player beta candidates NegInf alpha
          end
  end.

(** The loop of [findBestMove]; [beta] is the constant [Infinity]. *)
Fixpoint root_loop (rec : num -> num -> M num) (player : Z) (beta : num)
    (candidates : list Move) (bestMove : option Move) (bestScore alpha : num)
    : M (option Move * num) :=
  match candidates with
  | [] => ret (bestMove, bestScore)
  | (row, col) :: rest =>
      write_cell row col player ;;
      v <- rec (num_neg beta) (num_neg alpha) ;;
      let score := num_neg v in
      write_cell row col 0 ;;
      log (LogScore row col score) ;;
      if num_gt score bestScore
      then root_loop rec player beta rest (Some (row, col)) score score
      else root_loop rec player beta rest bestMove bestScore alpha
  end.

(** The recursion places one stone per level, so it is never deeper than
    the number of cells. *)
Definition search_fuel : nat := S (Z.to_nat (size * size)).

Definition findBestMove_with (player : Z) : M (option SearchResult) :=
  reset_counters ;;
  candidates <- generateCandidateMoves player ;;
  log (LogCandidates (length candidates)) ;;
  match candidates with
  | [] => ret None
  | _ =>
      best <- root_loop (fun a b => search search_fuel (searchDepth ai - 1) a b (3 - player))
                        player PosInf candidates None NegInf NegInf ;;
      let '(bestMove, bestScore) := best in
      c <- read_counters ;;
      log (LogSummary bestMove bestScore (fst (fst c)) (snd (fst c))) ;;
      c <- read_counters ;;
      ret (Some {| move := bestMove; score := bestScore;
                   res_searchNodes := fst (fst c);
                   res_pruningCount := snd (fst c);
                   res_logs := snd c |})
  end.

End Search.

Definition alphaBetaSearch := search true.
Definition findBestMove := findBestMove_with true.

(** The exhaustive search of the same depth over the same candidates. *)
Definition negamaxSearch := search false.
Definition findBestMove_exhaustive := findBestMove_with false.

End Engine.

(** ** The search as a function of the board

    The same computations without the mutable state: the value a call
    returns, with the number of [alphaBetaSearch] invocations and of pruning
    events it adds to the counters.  The theorems below show that the
    stateful engine computes exactly these and leaves the board as it was. *)

Section PureEngine.

Variable ai : Settings.

Let size := boardSize ai.
Let weights := patternWeights ai.

(** Sum of the line scores of [player] through [(row, col)]. *)
Definition lines_score (board : Board) (row col player : Z) (force : bool) : Q :=
  fold_left (fun acc '(dx, dy) =>
               (acc + calculateLineScore weights
                        (getLineString size board row col dx dy player force))%Q)
            directions 0%Q.

Definition quick_score (board : Board) (row col player : Z) : Q :=
  let placed := set_cell board row col player in
  fold_left (fun acc '(dx, dy) =>
               (acc + calculateLineScore weights
                        (getLineString size placed row col dx dy (3 - player) true)
                      * (8 # 10))%Q)
            directions (lines_score placed row col player false).

Definition eligible (board : Board) (m : Move) : bool :=
  is_val (cell board (fst m) (snd m)) 0
  && hasNearbyPieces ai board (fst m) (snd m) (searchRange ai).

Definition by_quick_score (board : Board) (player : Z) (a b : Move) : Q :=
  (quick_score board (fst b) (snd b) player - quick_score board (fst a) (snd a) player)%Q.

Definition ranked_moves (board : Board) (player : Z) : list Move :=
  js_sort (by_quick_score board player) (filter (fun m => eligible board m = true) (scan_order ai)).

Definition candidates_of (board : Board) (player : Z) : list Move :=
  js_slice0 (ranked_moves board player) (candidateCount ai).

Section PureSearch.

Variable prune : bool.

Fixpoint psearch_loop (rec : Board -> num -> num -> option (num * Z * Z))
    (board : Board) (player : Z) (beta : num) (candidates : list Move)
    (maxScore alpha : num) : option (num * Z * Z) :=
  match candidates with
  | [] => Some (maxScore, 0, 0)
  | (row, col) :: rest =>
      match rec (set_cell board row col player) (num_neg beta) (num_neg alpha) with
      | None => None
      | Some (v, n, k) =>
          let score := num_neg v in
          let maxScore := num_max maxScore score in
          let alpha := num_max alpha score in
          if prune && num_ge alpha beta then Some (maxScore, n, k + 1)
          else match psearch_loop rec board player beta rest maxScore alpha with
               | Some (v', n', k') => Some (v', n + n', k + k')
               | None => None
               end
      end
  end.

Fixpoint psearch (fuel : nat) (depth : Z) (alpha beta : num) (player : Z)
    (board : Board) : option (num * Z * Z) :=
  match fuel with
  | O => None
  | S fuel' =>
      if depth =? 0 then Some (Fin (evaluateBoard ai board player), 1, 0)
      else
        let winner := checkWinner ai board in
        if winner =? player then Some (Fin (inject_Z (10000 + depth)), 1, 0)
        else if winner =? 3 - player then Some (Fin (inject_Z (-10000 - depth)), 1, 0)
        else
          match candidates_of board player with
          | [] => Some (Fin 0, 1, 0)
          | candidates =>
              match psearch_loop
                      (fun b a' b' => psearch fuel' (depth - 1) a' b' (3 - player) b)
                      board player beta candidates NegInf alpha with
              | Some (v, n, k) => Some (v, 1 + n, k)
              | None => None
              end
          end
  end.

(** Best move, best score, invocations, prunings and the scores logged. *)
Fixpoint proot_loop (rec : Board -> num -> num -> option (num * Z * Z))
    (board : Board) (player : Z) (beta : num) (candidates : list Move)
    (bestMove : option Move) (bestScore alpha : num)
    : option (option Move * num * Z * Z * list LogMessage) :=
  match candidates with
  | [] => Some (bestMove, bestScore, 0, 0, [])
  | (row, col) :: rest =>
      match rec (set_cell board row col player) (num_neg beta) (num_neg alpha) with
      | None => None
      | Some (v, n, k) =>
          let score := num_neg v in
          match (if num_gt score bestScore
                 then proot_loop rec board player beta rest (Some (row, col)) score score
                 else proot_loop rec board player beta rest bestMove bestScore alpha) with
          | Some (bm, bs, n', k', l) =>
              Some (bm, bs, n + n', k + k', LogScore row col score :: l)
          | None => None
          end
      end
  end.

Definition pfindBestMove (board : Board) (player : Z) : option (option SearchResult) :=
  match candidates_of board player with
  | [] => Some None
  | candidates =>
      match proot_loop
              (fun b a' b' => psearch (search_fuel ai) (searchDepth ai - 1) a' b' (3 - player) b)
              board player PosInf candidates None NegInf NegInf with
      | Some (bm, bs, n, k, l) =>
          Some (Some {| move := bm; score := bs; res_searchNodes := n;
                        res_pruningCount := k;
                        res_logs := LogCandidates (length candidates) :: l
                                    ++ [LogSummary bm bs n k] |})
      | None => None
      end
  end.

End PureSearch.

End PureEngine.

(** What a call leaves behind: the same board, the counters advanced. *)
Definition bump (w : World) (n k : Z) : World :=
  {| the_board := the_board w; searchNodes := searchNodes w + n;
     pruningCount := pruningCount w + k; logs := logs w |}.

(** ** Construction

    The settings object handed to [new GomokuAI(settings)] and the object
    [this.settings] built from it.  A property holds [undefined], a number
    or (for [patternWeights]) a table of numbers. *)

Inductive jsval :=
| VUndefined
| VNumber (q : Q)
| VObject (o : gmap string Q).

(** Truthiness, as [||] tests it. *)
Definition truthy (v : jsval) : bool :=
  match v with
  | VUndefined => false
  | VNumber q => negb (Qeq_bool q 0)
  | VObject _ => true
  end.

(** [settings.key] *)
Definition prop (o : gmap string jsval) (k : string) : jsval :=
  default VUndefined (o !! k).

(** [a || b] *)
Definition js_or (a b : jsval) : jsval := if truthy a then a else b.

Definition default_weight_table : gmap string Q :=
  list_to_map
    [ ("liveFive", 100000%Q); ("liveFour", 5000%Q); ("deadFour", 400%Q);
      ("liveThree", 400%Q); ("deadThree", 20%Q); ("liveTwo", 10%Q);
      ("deadTwo", 5%Q); ("opponentThreat", (- (8 # 10))%Q) ].

(** The object literal of the constructor: the five properties written out,
    then [...settings], whose own properties overwrite them. *)
Definition GomokuAI_constructor (settings : gmap string jsval) : gmap string jsval :=
  settings ∪
  list_to_map
    [ ("searchDepth", js_or (prop settings "searchDepth") (VNumber 6));
      ("candidateCount", js_or (prop settings "candidateCount") (VNumber 10));
      ("searchRange", js_or (prop settings "searchRange") (VNumber 2));
      ("boardSize", VNumber 15);
      ("patternWeights", VObject default_weight_table) ].

(** Reading [this.settings] as the numbers the search works with. *)
Definition as_integer (v : jsval) : option Z :=
  match v with
  | VNumber q => if (Qden (Qred q) =? 1)%positive then Some (Qnum (Qred q)) else None
  | _ => None
  end.

Definition as_weights (v : jsval) : option PatternWeights :=
  match v with
  | VObject o =>
      a ← o !! "liveFive"; b ← o !! "liveFour"; c ← o !! "deadFour";
      d ← o !! "liveThree"; e ← o !! "deadThree"; f ← o !! "liveTwo";
      g ← o !! "deadTwo"; h ← o !! "opponentThreat";
      Some {| w_liveFive := a; w_liveFour := b; w_deadFour := c; w_liveThree := d;
              w_deadThree := e; w_liveTwo := f; w_deadTwo := g; opponentThreat := h |}
  | _ => None
  end.

Definition settings_of (o : gmap string jsval) : option Settings :=
  d ← as_integer (prop o "searchDepth");
  n ← as_integer (prop o "candidateCount");
  r ← as_integer (prop o "searchRange");
  s ← as_integer (prop o "boardSize");
  w ← as_weights (prop o "patternWeights");
  Some {| searchDepth := d; candidateCount := n; searchRange := r; boardSize := s;
          patternWeights := w |}.

Definition default_settings : Settings :=
  {| searchDepth := 6; candidateCount := 10; searchRange := 2; boardSize := 15;
     patternWeights := default_weights |}.

Definition world_of (b : Board) : World :=
  {| the_board := b; searchNodes := 0; pruningCount := 0; logs := [] |}.


(** The [moveScores] map after the scan of [cells]. *)
Definition scores_after (ai : Settings) (board : Board) (player : Z)
    (cells : list Move) (ms : gmap Move Q) : gmap Move Q :=
  fold_left (fun ms m => <[m := quick_score ai board (fst m) (snd m) player]> ms)
            (filter (fun m => eligible ai board m = true) cells) ms.

(** The outcome of a stateful call whose value, invocations and prunings are
    [r]: the board is the one before the call. *)
Definition lift {A} (r : option (A * Z * Z)) (w : World) : option (A * World) :=
  match r with
  | Some (v, n, k) => Some (v, bump w n k)
  | None => None
  end.

(** The world a top-level call leaves behind. *)
Definition world_after (b : Board) (r : option SearchResult) : World :=
  match r with
  | Some res => {| the_board := b; searchNodes := res_searchNodes res;
                   pruningCount := res_pruningCount res; logs := res_logs res |}
  | None => {| the_board := b; searchNodes := 0; pruningCount := 0;
               logs := [LogCandidates 0] |}
  end.

(** Number of empty cells of the grid. *)
Definition empties (ai : Settings) (b : Board) : nat :=
  length (filter (fun m : Move => is_val (cell b (fst m) (snd m)) 0 = true) (scan_order ai)).

Definition finite (v : num) : Prop := exists q, v = Fin q.

(** [rec] returns on every board reached by one move of [cs]. *)
Definition returns_on (rec : Board -> num -> num -> option (num * Z * Z))
    (b : Board) (player : Z) (cs : list Move) : Prop :=
  forall row col a b', (row, col) ∈ cs ->
    exists q n k, rec (set_cell b row col player) a b' = Some (Fin q, n, k)
                  /\ 1 <= n /\ 0 <= k.

(** The order of the numbers, as propositions. *)
Definition nle (a b : num) : Prop := num_le a b = true.
Definition nlt (a b : num) : Prop := num_le b a = false.
Definition neqv (a b : num) : Prop := num_le a b && num_le b a = true.

(** What a fail-soft search with window [(alpha, beta)] may return when the
    exact negamax value is [V]: below [beta] it is an upper bound, above
    [alpha] a lower bound, and inside the window it is exact. *)
Definition fail_soft (alpha beta v V : num) : Prop :=
  (num_le beta v = false -> num_le V v = true)
  /\ (num_le v alpha = false -> num_le v V = true).

(** The pruned search [rec_p] agrees with the exhaustive [rec_e] on every
    board reached by one move of [cs]. *)
Definition sound_on (rec_p rec_e : Board -> num -> num -> option (num * Z * Z))
    (b : Board) (player : Z) (cs : list Move) : Prop :=
  forall row col, (row, col) ∈ cs ->
  forall a' b' a'' b'', num_le b' a' = false ->
    exists v n k V N K,
      rec_p (set_cell b row col player) a' b' = Some (v, n, k)
      /\ rec_e (set_cell b row col player) a'' b'' = Some (V, N, K)
      /\ fail_soft a' b' v V /\ n <= N /\ 1 <= n /\ finite v /\ finite V.

(** ** The spec's reading of the pattern classifier

    Following the spec's words, the working copy with the neutralized runs
    is carried from one rule to the next, so that a run credited by a rule
    cannot be matched by a later one.  This is the comparison point for
    [calculateLineScore], which starts every rule from the line itself. *)

Fixpoint consume_carried (fuel : nat) (re : regex) (wt : Q) (tempStr : string)
    (score : Q) : Q * string :=
  match fuel with
  | O => (score, tempStr)
  | S f =>
      match regex_match re tempStr with
      | None => (score, tempStr)
      | Some matchedPart =>
          consume_carried f re wt
            (str_replace matchedPart (neutralize matchedPart) tempStr) (score + wt)%Q
      end
  end.

Definition calculateLineScore_carried (w : PatternWeights) (lineStr : string) : Q :=
  fst (fold_left (fun '(score, tempStr) '(re, t) =>
                    consume_carried (S (String.length tempStr)) re (weight w t) tempStr score)
                 patterns (0%Q, lineStr)).

(** ** Measures for the loops of the encoder and the classifier *)

(** Number of 1s of a line. *)
Fixpoint ones (s : string) : nat :=
  match s with
  | EmptyString => 0%nat
  | String ch s' => ((if Ascii.eqb ch "1" then 1 else 0) + ones s')%nat
  end.

(** [m] occurs in [s]. *)
Fixpoint occurs (m s : string) : bool :=
  String.prefix m s
  || match s with
     | EmptyString => false
     | String _ s' => occurs m s'
     end.

(** ** Terminal positions, as the spec words them *)

(** Five stones of [player] from [(r, c)] along [(dx, dy)], all on the grid. *)
Definition five_from (size : Z) (b : Board) (player r c dx dy : Z) : Prop :=
  forall k, 0 <= k < 5 ->
    0 <= r + k * dx < size /\ 0 <= c + k * dy < size
    /\ cell b (r + k * dx) (c + k * dy) = Some player.

(** [player] has five or more in a row along one of the four axes. *)
Definition has_five (size : Z) (b : Board) (player : Z) : Prop :=
  exists r c dx dy, (dx, dy) ∈ directions /\ five_from size b player r c dx dy.

Definition has_empty (size : Z) (b : Board) : Prop :=
  exists r c, 0 <= r < size /\ 0 <= c < size /\ cell b r c = Some 0.

(** The test of the inner [while] of [hasFiveInARow]. *)
Definition run_on (ai : Settings) (b : Board) (player r c : Z) : Prop :=
  0 <= r < boardSize ai /\ 0 <= c < boardSize ai /\ cell b r c = Some player.

(** ** Candidate restriction, as the spec words it *)

Definition chebyshev (m m' : Move) : Z :=
  Z.max (Z.abs (fst m - fst m')) (Z.abs (snd m - snd m')).

(** The 24 cells around (7,7), row by row. *)
Definition near_centre : list Move :=
  filter (fun m : Move => m <> (7, 7))
         (flat_map (fun row => map (fun col => (row, col)) (seqZ 5 5)) (seqZ 5 5)).

(** Best first. *)
Definition descending (f : Move -> Q) (l : list Move) : Prop :=
  StronglySorted (fun m m' => (f m' <= f m)%Q) l.

(** ** Boards and settings used as examples *)

Definition depth1_settings : Settings :=
  {| searchDepth := 1; candidateCount := 10; searchRange := 2; boardSize := 15;
     patternWeights := default_weights |}.

(** One black stone at (7,7). *)
Definition one_stone_board : Board := set_cell (empty_board 15) 7 7 1.

(** Five black stones on row 0 and five white stones on row 1. *)
Definition both_five_board : Board :=
  [1; 1; 1; 1; 1; 0; 0; 0; 0; 0; 0; 0; 0; 0; 0]
  :: [2; 2; 2; 2; 2; 0; 0; 0; 0; 0; 0; 0; 0; 0; 0]
  :: replicate 13 (replicate 15 0).

(** Two white stones side by side at (7,7) and (7,8). *)
Definition white_pair_board : Board := set_cell (set_cell (empty_board 15) 7 7 2) 7 8 2.

(** Black stones at columns 0, 2, 3, 4 and 6 of row 7. *)
Definition split_four_board : Board :=
  set_cell (set_cell (set_cell (set_cell (set_cell (empty_board 15) 7 0 1) 7 2 1) 7 3 1)
              7 4 1) 7 6 1.

(** No weight of a rule is negative. *)
Definition nonneg_weights (w : PatternWeights) : Prop :=
  forall t, (0 <= weight w t)%Q.

(** No entry of the board is a stone of [player]. *)
Definition no_stone_of (player : Z) (b : Board) : Prop :=
  Forall (Forall (fun v => v <> player)) b.

(** Nodes of the full tree with [c] children per node and [d] levels below
    the root. *)
Fixpoint tree_nodes (c : Z) (d : nat) : Z :=
  match d with
  | O => 1
  | S d' => 1 + c * tree_nodes c d'
  end.

(** The exact score of the move [m] for [player] on [b]: minus the value of
    the search without cuts for the other player after the move, or [NegInf]
    should that search not return. *)
Definition exact_score (ai : Settings) (b : Board) (player : Z) (m : Move) : num :=
  match psearch ai false (search_fuel ai) (searchDepth ai - 1) NegInf PosInf (3 - player)
          (set_cell b (fst m) (snd m) player) with
  | Some (V, _, _) => num_neg V
  | None => NegInf
  end.

(** The messages the root loop logs for the candidates [cs] scored
    [scores]. *)
Definition score_entries (cs : list Move) (scores : list num) : list LogMessage :=
  zip_with (fun m s => LogScore (fst m) (snd m) s) cs scores.

(** Every invocation of [rec] counts itself, cuts at most once per node
    below it, and visits at most [T] nodes. *)
Definition counts_ok (T : Z) (rec : Board -> num -> num -> option (num * Z * Z)) : Prop :=
  forall b a b' v n k, rec b a b' = Some (v, n, k) -> 1 <= n /\ 0 <= k <= n - 1 /\ n <= T.

(** The settings [ai] with the weight of [deadTwo] replaced by [q]. *)
Definition with_deadTwo (ai : Settings) (q : Q) : Settings :=
  {| searchDepth := searchDepth ai;
     candidateCount := candidateCount ai;
     searchRange := searchRange ai;
     boardSize := boardSize ai;
     patternWeights :=
       {| w_liveFive := w_liveFive (patternWeights ai);
          w_liveFour := w_liveFour (patternWeights ai);
          w_deadFour := w_deadFour (patternWeights ai);
          w_liveThree := w_liveThree (patternWeights ai);
          w_deadThree := w_deadThree (patternWeights ai);
          w_liveTwo := w_liveTwo (patternWeights ai);
          w_deadTwo := q;
          opponentThreat := opponentThreat (patternWeights ai) |} |}.

(** ** The run detector

    [detectPatternInDirection], [detectPositionPatterns], [detectAllPatterns]
    and [calculatePatternScore]: the classification of the run of stones
    through a cell by its length and the number of its ends that an
    opponent stone closes. *)

#[global] Instance PatternType_eq_dec : EqDecision PatternType.
Proof. solve_decision. Defined.

(** The object with the seven counters; every key is always present. *)
Definition PatternCounts := PatternType -> Z.

Definition no_patterns : PatternCounts := fun _ => 0.

(** [patterns[pattern]++] *)
Definition count_pattern (t : PatternType) (p : PatternCounts) : PatternCounts :=
  fun t' => if decide (t' = t) then p t' + 1 else p t'.

Section Detector.

Variable ai : Settings.

Let size := boardSize ai.

(** One of the two [while] loops of [detectPatternInDirection], from the
    cell [(r, c)] in steps of [(dx, dy)]; the result is [count] and
    [blocked].  A walk in a direction other than [(0, 0)] leaves the grid
    within [size] steps; running out of [fuel] there is the exit of the loop
    by its range test. *)
Fixpoint detect_walk (fuel : nat) (board : Board) (player r c dx dy count blocked : Z)
    : Z * Z :=
  match fuel with
  | O => (count, blocked)
  | S f =>
      if (r >=? 0) && (r <? size) && (c >=? 0) && (c <? size) then
        if is_val (cell board r c) player
        then detect_walk f board player (r + dx) (c + dy) dx dy (count + 1) blocked
        else (count, if is_val (cell board r c) (3 - player) then blocked + 1 else blocked)
      else (count, blocked)
  end.

(** The final tests on [count] and [blocked]. *)
Definition classify_run (count blocked : Z) : option PatternType :=
  if count >=? 5 then Some liveFive
  else if count =? 4 then Some (if blocked =? 0 then liveFour else deadFour)
  else if count =? 3 then Some (if blocked =? 0 then liveThree else deadThree)
  else if count =? 2 then Some (if blocked =? 0 then liveTwo else deadTwo)
  else None.

Definition detectPatternInDirection (board : Board) (row col dx dy player : Z)
    : option PatternType :=
  let '(count, blocked) :=
    detect_walk (Z.to_nat size) board player (row + dx) (col + dy) dx dy 1 0 in
  let '(count, blocked) :=
    detect_walk (Z.to_nat size) board player (row - dx) (col - dy) (- dx) (- dy)
                count blocked in
  classify_run count blocked.

(** The loop over the four directions, on the counters [patterns]. *)
Definition detect_directions (board : Board) (row col player : Z)
    (patterns : PatternCounts) : PatternCounts :=
  fold_left (fun patterns '(dx, dy) =>
               match detectPatternInDirection board row col dx dy player with
               | Some pattern => count_pattern pattern patterns
               | None => patterns
               end)
            directions patterns.

Definition detectPositionPatterns (board : Board) (row col player : Z) : PatternCounts :=
  detect_directions board row col player no_patterns.

Definition detectAllPatterns (board : Board) (player : Z) : PatternCounts :=
  fold_left (fun patterns '(row, col) =>
               if negb (is_val (cell board row col) player) then patterns
               else detect_directions board row col player patterns)
            (scan_order ai) no_patterns.

Definition calculatePatternScore (patterns : PatternCounts) : Q :=
  let weights := patternWeights ai in
  let score := 0%Q in
  let score := (score + inject_Z (patterns liveFive) * w_liveFive weights)%Q in
  let score := (score + inject_Z (patterns liveFour) * w_liveFour weights)%Q in
  let score := (score + inject_Z (patterns deadFour) * w_deadFour weights)%Q in
  let score := (score + inject_Z (patterns liveThree) * w_liveThree weights)%Q in
  let score := (score + inject_Z (patterns deadThree) * w_deadThree weights)%Q in
  let score := (score + inject_Z (patterns liveTwo) * w_liveTwo weights)%Q in
  let score := (score + inject_Z (patterns deadTwo) * w_deadTwo weights)%Q in
  score.

End Detector.

(** An end of a run that an opponent stone closes: the cell is on the grid
    and holds the other colour. *)
Definition blocked_by (ai : Settings) (b : Board) (player r c : Z) : Z :=
  if (r >=? 0) && (r <? boardSize ai) && (c >=? 0) && (c <? boardSize ai)
     && is_val (cell b r c) (3 - player)
  then 1 else 0.

(** The pairs of a cell and a direction, in the order [detectAllPatterns]
    visits them. *)
Definition cell_directions (ai : Settings) : list (Move * (Z * Z)) :=
  flat_map (fun m => map (fun d => (m, d)) directions) (scan_order ai).

(** The visit of cell [m] in direction [d] counts a pattern [t]. *)
Definition counts_as (ai : Settings) (b : Board) (player : Z) (t : PatternType)
    (md : Move * (Z * Z)) : bool :=
  is_val (cell b (fst (fst md)) (snd (fst md))) player
  && bool_decide (detectPatternInDirection ai b (fst (fst md)) (snd (fst md))
                    (fst (snd md)) (snd (snd md)) player = Some t).

(** ** The game controller

    [GomokuGame] of main.js: the board, whose turn it is, the outcome and the
    history of moves, with [makeMove], [undoMove], [newGame] and [aiMove].
    Drawing, the status texts and the game's own log are left out. *)

Record Game := {
  game_board : Board;
  currentPlayer : Z;
  gameOver : bool;
  winner : option Z;
  moveHistory : list (Z * Z * Z);
  aiThinking : bool }.

(** The engine works on the array it is handed. *)
Definition with_board (w : World) (b : Board) : World :=
  {| the_board := b; searchNodes := searchNodes w;
     pruningCount := pruningCount w; logs := logs w |}.

Definition set_board (g : Game) (b : Board) : Game :=
  {| game_board := b; currentPlayer := currentPlayer g; gameOver := gameOver g;
     winner := winner g; moveHistory := moveHistory g; aiThinking := aiThinking g |}.

Definition set_aiThinking (g : Game) (v : bool) : Game :=
  {| game_board := game_board g; currentPlayer := currentPlayer g; gameOver := gameOver g;
     winner := winner g; moveHistory := moveHistory g; aiThinking := v |}.

Section GameController.

(** [this.ai] *)
Variable ai : Settings.

Definition initBoard (g : Game) : Game :=
  {| game_board := empty_board 15; currentPlayer := 1; gameOver := false;
     winner := None; moveHistory := []; aiThinking := aiThinking g |}.

(** [None] is the [TypeError] of [this.board[row][col]] on a [row] the board
    does not have; a column it does not have reads [undefined]. *)
Definition makeMove (g : Game) (row col : Z) : option Game :=
  if gameOver g then Some g
  else if negb ((0 <=? row) && (row <? Z.of_nat (length (game_board g)))) then None
  else if negb (is_val (cell (game_board g) row col) 0) then Some g
  else
    let board := set_cell (game_board g) row col (currentPlayer g) in
    let history := moveHistory g ++ [(row, col, currentPlayer g)] in
    let result := checkWinner ai board in
    if negb (result =? -1) then
      Some {| game_board := board; currentPlayer := currentPlayer g; gameOver := true;
              winner := Some result; moveHistory := history;
              aiThinking := aiThinking g |}
    else
      Some {| game_board := board; currentPlayer := 3 - currentPlayer g;
              gameOver := gameOver g; winner := winner g; moveHistory := history;
              aiThinking := aiThinking g |}.

Definition undoMove (g : Game) : Game :=
  match last (moveHistory g) with
  | None => g
  | Some (row, col, _) =>
      {| game_board := set_cell (game_board g) row col 0;
         currentPlayer := 3 - currentPlayer g;
         gameOver := false; winner := None;
         moveHistory := removelast (moveHistory g);
         aiThinking := aiThinking g |}
  end.

Definition newGame (g : Game) : Game := initBoard g.

(** [aiMove] is asynchronous: it raises [aiThinking] and then pauses, and
    the page handles whatever events arrive before the call goes on.
    [aiMove_start] is the call up to the pause; the boolean tells whether the
    rest of the call is pending. *)
Definition aiMove_start (g : Game) : Game * bool :=
  if gameOver g || aiThinking g then (g, false) else (set_aiThinking g true, true).

(** The rest of [aiMove], on the game [g] as it is when the pause ends: the
    search, the move and, at the end, [aiThinking = false].  [engine] is the
    state of [this.ai]; the outer [None] is a search that ran out of fuel.
    An exception of [makeMove] is caught. *)
Definition aiMove_resume (g : Game) (engine : World) : option (Game * World) :=
  match findBestMove ai (currentPlayer g) (with_board engine (game_board g)) with
  | None => None
  | Some (result, engine') =>
      let g := set_board g (the_board engine') in
      match result with
      | Some res =>
          match move res with
          | Some (row, col) =>
              match makeMove g row col with
              | Some g' => Some (set_aiThinking g' false, engine')
              | None => Some (set_aiThinking g false, engine')
              end
          | None => Some (set_aiThinking g false, engine')
          end
      | None => Some (set_aiThinking g false, engine')
      end
  end.

(** A call of [aiMove] during whose pause no other event is handled. *)
Definition aiMove (g : Game) (engine : World) : option (Game * World) :=
  let '(g1, pending) := aiMove_start g in
  if pending then aiMove_resume g1 engine else Some (g1, engine).

End GameController.

(** The states of a game.  The controller starts with [initBoard]; the
    buttons and the board call [makeMove], [undoMove], [newGame] and
    [aiMove], and the two parts of an [aiMove] are steps of their own, so
    that any of the other calls may fall into its pause.  The engine of a
    step is the one the controller holds then: the settings page replaces
    it, but the settings of the controller have no [boardSize], so that it
    is always 15. *)
Inductive reachable : Game -> Prop :=
| reach_init g : reachable (initBoard g)
| reach_makeMove ai g row col g' :
    boardSize ai = 15 -> reachable g -> makeMove ai g row col = Some g' -> reachable g'
| reach_undoMove g : reachable g -> reachable (undoMove g)
| reach_newGame g : reachable g -> reachable (newGame g)
| reach_aiMove_start g : reachable g -> reachable (fst (aiMove_start g))
| reach_aiMove_resume ai g engine g' engine' :
    boardSize ai = 15 -> reachable g -> aiMove_resume ai g engine = Some (g', engine') ->
    reachable g'.

(** The board after the moves of a history, played on the empty board. *)
Definition replay (h : list (Z * Z * Z)) : Board :=
  fold_left (fun b '(r, c, p) => set_cell b r c p) h (empty_board 15).

Definition position (m : Z * Z * Z) : Move := (fst (fst m), snd (fst m)).

(** What holds in every state of a game. *)
Definition consistent (ai : Settings) (g : Game) : Prop :=
  game_board g = replay (moveHistory g)
  /\ (forall m, m ∈ moveHistory g ->
        0 <= fst (position m) < 15 /\ 0 <= snd (position m) < 15 /\ is_player (snd m))
  /\ NoDup (map position (moveHistory g))
  /\ (forall h1 m h2, moveHistory g = h1 ++ m :: h2 -> checkWinner ai (replay h1) = -1)
  /\ gameOver g = negb (checkWinner ai (game_board g) =? -1)
  /\ winner g = (if gameOver g then Some (checkWinner ai (game_board g)) else None)
  /\ is_player (currentPlayer g).

(** [new GomokuGame()]: the fields of the constructor, then [initBoard]. *)
Definition new_GomokuGame : Game :=
  initBoard {| game_board := []; currentPlayer := 1; gameOver := false; winner := None;
               moveHistory := []; aiThinking := false |}.

(** The game after Black's first move at (7,7). *)
Definition one_move_game : Game :=
  {| game_board := one_stone_board; currentPlayer := 2; gameOver := false; winner := None;
     moveHistory := [(7, 7, 1)]; aiThinking := false |}.

(** [addLog] of the game controller, on the list kept in local storage:
    the entry is appended and the list is cut to its last 1000 entries.
    The time stamp of the entry is left out. *)
Definition addLog {A} (logs : list A) (log : A) : list A :=
  let logs := logs ++ [log] in
  if (1000 <? length logs)%nat then drop (length logs - 1000) logs else logs.

(** ** The tree of invocations

    One node for each invocation of [alphaBetaSearch]: the arguments of the
    call, whether its loop was left by the cut [alpha >= beta], and the
    invocations it made, in order. *)
Local Unset Elimination Schemes.

Inductive CallTree :=
| Call (board : Board) (depth : Z) (alpha beta : num) (player : Z)
       (cut : bool) (children : list CallTree).

Local Set Elimination Schemes.

(** The invocations in a tree, and those of them that cut. *)
Fixpoint calls (t : CallTree) : Z :=
  match t with
  | Call _ _ _ _ _ _ children => 1 + foldr Z.add 0 (map calls children)
  end.

Fixpoint cuts (t : CallTree) : Z :=
  match t with
  | Call _ _ _ _ _ cut children =>
      (if cut then 1 else 0) + foldr Z.add 0 (map cuts children)
  end.

Definition total (f : CallTree -> Z) (ts : list CallTree) : Z := foldr Z.add 0 (map f ts).

Section Invocations.

Variable ai : Settings.

(** The loop of [alphaBetaSearch]: the value, whether the loop was cut, and
    the invocations made. *)
Fixpoint tree_loop (rec : Board -> num -> num -> option (num * CallTree))
    (board : Board) (player : Z) (beta : num) (candidates : list Move)
    (maxScore alpha : num) : option (num * bool * list CallTree) :=
  match candidates with
  | [] => Some (maxScore, false, [])
  | (row, col) :: rest =>
      match rec (set_cell board row col player) (num_neg beta) (num_neg alpha) with
      | None => None
      | Some (v, t) =>
          let score := num_neg v in
          let maxScore := num_max maxScore score in
          let alpha := num_max alpha score in
          if num_ge alpha beta then Some (maxScore, true, [t])
          else match tree_loop rec board player beta rest maxScore alpha with
               | Some (v', cut, ts) => Some (v', cut, t :: ts)
               | None => None
               end
      end
  end.

(** [alphaBetaSearch(board, depth, alpha, beta, player)]: its value and the
    tree of the invocations, this one at the root. *)
Fixpoint search_tree (fuel : nat) (depth : Z) (alpha beta : num) (player : Z)
    (board : Board) : option (num * CallTree) :=
  match fuel with
  | O => None
  | S fuel' =>
      let leaf v := Some (v, Call board depth alpha beta player false []) in
      if depth =? 0 then leaf (Fin (evaluateBoard ai board player))
      else
        let winner := checkWinner ai board in
        if winner =? player then leaf (Fin (inject_Z (10000 + depth)))
        else if winner =? 3 - player then leaf (Fin (inject_Z (-10000 - depth)))
        else
          match candidates_of ai board player with
          | [] => leaf (Fin 0)
          | candidates =>
              match tree_loop
                      (fun b a' b' => search_tree fuel' (depth - 1) a' b' (3 - player) b)
                      board player beta candidates NegInf alpha with
              | Some (v, cut, ts) => Some (v, Call board depth alpha beta player cut ts)
              | None => None
              end
          end
  end.

(** The loop of [findBestMove]: the invocations it makes, in order. *)
Fixpoint root_tree_loop (rec : Board -> num -> num -> option (num * CallTree))
    (board : Board) (player : Z) (beta : num) (candidates : list Move)
    (bestScore alpha : num) : option (list CallTree) :=
  match candidates with
  | [] => Some []
  | (row, col) :: rest =>
      match rec (set_cell board row col player) (num_neg beta) (num_neg alpha) with
      | None => None
      | Some (v, t) =>
          let score := num_neg v in
          match (if num_gt score bestScore
                 then root_tree_loop rec board player beta rest score score
                 else root_tree_loop rec board player beta rest bestScore alpha) with
          | Some ts => Some (t :: ts)
          | None => None
          end
      end
  end.

(** The invocations of one call of [findBestMove]; the call itself is not
    an invocation of [alphaBetaSearch]. *)
Definition root_calls (board : Board) (player : Z) : option (list CallTree) :=
  root_tree_loop
    (fun b a' b' => search_tree (search_fuel ai) (searchDepth ai - 1) a' b' (3 - player) b)
    board player PosInf (candidates_of ai board player) NegInf NegInf.

End Invocations.

(** The settings of the examples with two plies. *)
Definition depth2_settings : Settings :=
  {| searchDepth := 2; candidateCount := 10; searchRange := 2; boardSize := 15;
     patternWeights := default_weights |}.

(** What an invocation adds to the two counters. *)
Definition counted (r : option (num * CallTree)) : option (num * Z * Z) :=
  match r with
  | Some (v, t) => Some (v, calls t, cuts t)
  | None => None
  end.

(** * Properties *)

(** ** The board *)

Lemma cell_Some_range (b : Board) r c v : cell b r c = Some v -> 0 <= r /\ 0 <= c.
Proof.
  unfold cell. destruct (r <? 0) eqn:Hr, (c <? 0) eqn:Hc; simpl; try discriminate.
  intros _. lia.
Qed.

Lemma cell_set_cell_eq (b : Board) r c v x :
  cell b r c = Some x -> cell (set_cell b r c v) r c = Some v.
Proof.
  intros H. pose proof (cell_Some_range _ _ _ _ H) as [Hr Hc].
  unfold cell, set_cell in *.
  destruct ((r <? 0) || (c <? 0)) eqn:E; [discriminate|].
  rewrite list_lookup_alter_eq.
  destruct (b !! Z.to_nat r) as [row|] eqn:Hrow; [simpl|discriminate].
  apply list_lookup_insert_eq. eapply lookup_lt_Some; eauto.
Qed.

Lemma cell_set_cell_ne (b : Board) r c v r' c' :
  (r, c) <> (r', c') -> cell (set_cell b r c v) r' c' = cell b r' c'.
Proof.
  intros Hne. unfold cell, set_cell.
  destruct ((r <? 0) || (c <? 0)) eqn:E; [done|].
  destruct ((r' <? 0) || (c' <? 0)) eqn:E'; [done|].
  apply orb_false_iff in E as [Hr Hc]. apply orb_false_iff in E' as [Hr' Hc'].
  apply Z.ltb_ge in Hr, Hc, Hr', Hc'.
  destruct (decide (r = r')) as [->|Hrr].
  - rewrite list_lookup_alter_eq.
    destruct (b !! Z.to_nat r') as [row|]; [simpl|done].
    apply list_lookup_insert_ne. intros Heq. apply Hne. f_equal. lia.
  - rewrite list_lookup_alter_ne; [done|]. lia.
Qed.

Lemma set_cell_restore (b : Board) r c p :
  cell b r c = Some 0 -> set_cell (set_cell b r c p) r c 0 = b.
Proof.
  intros H. unfold cell, set_cell in *.
  destruct ((r <? 0) || (c <? 0)) eqn:E; [discriminate|].
  destruct (b !! Z.to_nat r) as [row|] eqn:Hrow; [|discriminate].
  apply list_eq. intros i.
  destruct (decide (i = Z.to_nat r)) as [->|Hi].
  - rewrite !list_lookup_alter_eq, Hrow. simpl. f_equal.
    rewrite list_insert_insert_eq. by apply list_insert_id.
  - by rewrite !list_lookup_alter_ne.
Qed.

Lemma wf_board_set_cell n (b : Board) r c v :
  wf_board n b -> wf_board n (set_cell b r c v).
Proof.
  intros [Hlen Hrows]. unfold set_cell.
  destruct ((r <? 0) || (c <? 0)); [done|].
  split.
  - by rewrite length_alter.
  - apply Forall_alter; [done|]. intros row _ Hrow.
    by rewrite length_insert.
Qed.

(** ** The stateful functions compute the pure ones *)

Lemma bump_0 w : bump w 0 0 = w.
Proof. destruct w. unfold bump. simpl. f_equal; lia. Qed.

Lemma is_val_true o v : is_val o v = true <-> o = Some v.
Proof.
  destruct o as [x|]; simpl; [|split; discriminate].
  rewrite Z.eqb_eq. split; congruence.
Qed.

Lemma quickEvaluatePosition_run ai row col player w :
  cell (the_board w) row col = Some 0 ->
  quickEvaluatePosition ai row col player w
  = Some (quick_score ai (the_board w) row col player, w).
Proof.
  intros H. destruct w as [b n k l]. simpl in *.
  unfold quickEvaluatePosition, bind, write_cell, read_board, ret. simpl.
  rewrite set_cell_restore by done. reflexivity.
Qed.

Lemma scan_cells_run ai player cells : forall moves ms w,
  scan_cells ai player cells moves ms w
  = Some ((moves ++ filter (fun m => eligible ai (the_board w) m = true) cells,
           scores_after ai (the_board w) player cells ms), w).
Proof.
  induction cells as [|[row col] rest IH]; intros moves ms w.
  - simpl. unfold ret, scores_after. simpl. by rewrite app_nil_r.
  - simpl. unfold bind at 1. unfold read_board at 1.
    unfold scores_after. rewrite filter_cons.
    assert (He : eligible ai (the_board w) (row, col)
                 = is_val (cell (the_board w) row col) 0
                   && hasNearbyPieces ai (the_board w) row col (searchRange ai))
      by reflexivity.
    destruct (is_val (cell (the_board w) row col) 0) eqn:Hc; simpl.
    + destruct (hasNearbyPieces ai (the_board w) row col (searchRange ai)) eqn:Hn; simpl.
      * unfold bind. apply is_val_true in Hc.
        rewrite quickEvaluatePosition_run by done.
        rewrite IH. rewrite decide_True by done. simpl.
        by rewrite <- app_assoc.
      * rewrite IH. by rewrite decide_False by (rewrite He; done).
    + rewrite IH. by rewrite decide_False by (rewrite He; done).
Qed.

Lemma sort_insert_perm {A} (cmp : A -> A -> Q) x l : sort_insert cmp x l ≡ₚ x :: l.
Proof.
  induction l as [|y l IH]; simpl; [done|].
  destruct (Qle_bool (cmp x y) 0); [done|].
  rewrite IH. apply Permutation_swap.
Qed.

Lemma js_sort_perm {A} (cmp : A -> A -> Q) l : js_sort cmp l ≡ₚ l.
Proof.
  induction l as [|x l IH]; simpl; [done|].
  by rewrite sort_insert_perm, IH.
Qed.

Lemma sort_insert_ext {A} (cmp cmp' : A -> A -> Q) x l :
  (forall y, y ∈ l -> cmp x y = cmp' x y) ->
  sort_insert cmp x l = sort_insert cmp' x l.
Proof.
  induction l as [|y l IH]; intros H; simpl; [done|].
  rewrite H by left. destruct (Qle_bool (cmp' x y) 0); [done|].
  f_equal. apply IH. intros z Hz. apply H. by right.
Qed.

Lemma js_sort_ext {A} (cmp cmp' : A -> A -> Q) l :
  (forall x y, x ∈ l -> y ∈ l -> cmp x y = cmp' x y) ->
  js_sort cmp l = js_sort cmp' l.
Proof.
  induction l as [|x l IH]; intros H; simpl; [done|].
  rewrite IH by (intros; apply H; by right).
  apply sort_insert_ext. intros y Hy. apply H; [left|right].
  by rewrite js_sort_perm in Hy.
Qed.

Lemma scores_after_lookup ai board player cells : forall ms m,
  m ∈ filter (fun m => eligible ai board m = true) cells ->
  scores_after ai board player cells ms !! m
  = Some (quick_score ai board (fst m) (snd m) player).
Proof.
  unfold scores_after.
  induction (filter (fun m => eligible ai board m = true) cells) as [|x l IH] using rev_ind;
    intros ms m Hm.
  - by apply elem_of_nil in Hm.
  - rewrite fold_left_app. simpl.
    destruct (decide (x = m)) as [->|Hne].
    + by rewrite lookup_insert_eq.
    + rewrite lookup_insert_ne by done. apply IH.
      apply elem_of_app in Hm as [Hm|Hm]; [done|].
      apply list_elem_of_singleton in Hm. congruence.
Qed.

Lemma generateCandidateMoves_run ai player w :
  generateCandidateMoves ai player w
  = Some (candidates_of ai (the_board w) player, w).
Proof.
  unfold generateCandidateMoves, bind. rewrite scan_cells_run. simpl.
  unfold ret, candidates_of, ranked_moves. do 3 f_equal.
  apply js_sort_ext. intros x y Hx Hy.
  unfold score_of, by_quick_score.
  by rewrite !scores_after_lookup.
Qed.

Lemma bump_bump w n k n' k' : bump (bump w n k) n' k' = bump w (n + n') (k + k').
Proof. unfold bump. simpl. f_equal; lia. Qed.

Lemma js_slice0_subseteq {A} (l : list A) n x : x ∈ js_slice0 l n -> x ∈ l.
Proof. unfold js_slice0. apply subseteq_take. Qed.

Lemma candidates_of_eligible ai b p m :
  m ∈ candidates_of ai b p -> m ∈ scan_order ai /\ eligible ai b m = true.
Proof.
  unfold candidates_of, ranked_moves. intros H.
  apply js_slice0_subseteq in H. rewrite js_sort_perm in H.
  apply list_elem_of_filter in H. tauto.
Qed.

Lemma candidates_of_empty_cell ai b p m :
  m ∈ candidates_of ai b p -> cell b (fst m) (snd m) = Some 0.
Proof.
  intros H. apply candidates_of_eligible in H as [_ H].
  unfold eligible in H. apply andb_true_iff in H as [H _].
  by apply is_val_true.
Qed.

Section Run.

Variable ai : Settings.
Variable prune : bool.

Lemma search_loop_run rec_m rec_p player beta :
  (forall a b w, rec_m a b w = lift (rec_p (the_board w) a b) w) ->
  forall candidates maxScore alpha w,
    Forall (fun m => cell (the_board w) (fst m) (snd m) = Some 0) candidates ->
    search_loop prune rec_m player beta candidates maxScore alpha w
    = lift (psearch_loop prune rec_p (the_board w) player beta candidates maxScore alpha) w.
Proof.
  intros Hrec. induction candidates as [|[row col] rest IH]; intros m a w Hc.
  - simpl. unfold ret. by rewrite bump_0.
  - apply Forall_cons in Hc as [Hc Hrest]. simpl in Hc.
    simpl. unfold bind at 1. unfold write_cell at 1.
    unfold bind at 1. rewrite Hrec. simpl.
    destruct (rec_p (set_cell (the_board w) row col player) (num_neg beta) (num_neg a))
      as [[[v n] k]|]; simpl; [|done].
    unfold bind at 1. unfold write_cell at 1. simpl.
    rewrite set_cell_restore by done.
    destruct (prune && num_ge (num_max a (num_neg v)) beta).
    + unfold bind, incr_pruningCount, ret. simpl. unfold bump. simpl. do 3 f_equal. lia.
    + change ({| the_board := the_board w; searchNodes := searchNodes w + n;
                 pruningCount := pruningCount w + k; logs := logs w |})
        with (bump w n k).
      rewrite IH by done. simpl.
      destruct (psearch_loop prune rec_p (the_board w) player beta rest
                  (num_max m (num_neg v)) (num_max a (num_neg v)))
        as [[[v' n'] k']|]; simpl; [|done].
      by rewrite bump_bump.
Qed.

Local Arguments psearch_loop : simpl never.
Local Arguments search_loop : simpl never.

Lemma search_run fuel : forall depth alpha beta player w,
  search ai prune fuel depth alpha beta player w
  = lift (psearch ai prune fuel depth alpha beta player (the_board w)) w.
Proof.
  induction fuel as [|fuel IH]; intros depth alpha beta player w; [done|].
  simpl. unfold bind at 1. unfold incr_searchNodes at 1.
  unfold bind at 1. unfold read_board at 1. simpl.
  destruct (depth =? 0).
  { unfold bind, evaluateBoard_call, read_board, ret. simpl.
    unfold bump. simpl. do 3 f_equal. lia. }
  destruct (checkWinner ai (the_board w) =? player).
  { unfold ret. simpl. unfold bump. simpl. do 3 f_equal. lia. }
  destruct (checkWinner ai (the_board w) =? 3 - player).
  { unfold ret. simpl. unfold bump. simpl. do 3 f_equal. lia. }
  unfold bind. rewrite generateCandidateMoves_run. simpl.
  destruct (candidates_of ai (the_board w) player) as [|c0 cs] eqn:Hcs.
  { unfold ret. simpl. unfold bump. simpl. do 3 f_equal. lia. }
  rewrite (search_loop_run _
             (fun b a' b' => psearch ai prune fuel (depth - 1) a' b' (3 - player) b)).
  - simpl.
    match goal with
    | |- context [psearch_loop ?p ?r ?b ?pl ?be ?c ?m ?a] =>
        destruct (psearch_loop p r b pl be c m a) as [[[v n] k]|]; [|reflexivity]
    end.
    unfold lift, bump. cbn [the_board searchNodes pruningCount logs].
    do 3 f_equal; lia.
  - intros a b w'. apply IH.
  - simpl. apply Forall_forall. intros m Hm.
    apply (candidates_of_empty_cell ai _ player). rewrite Hcs. done.
Qed.

End Run.

Lemma root_loop_run rec_m rec_p player beta :
  (forall a b w, rec_m a b w = lift (rec_p (the_board w) a b) w) ->
  forall candidates bestMove bestScore alpha w,
    Forall (fun m => cell (the_board w) (fst m) (snd m) = Some 0) candidates ->
    root_loop rec_m player beta candidates bestMove bestScore alpha w
    = match proot_loop rec_p (the_board w) player beta candidates bestMove bestScore alpha with
      | Some (bm, bs, n, k, l) =>
          Some ((bm, bs),
                {| the_board := the_board w; searchNodes := searchNodes w + n;
                   pruningCount := pruningCount w + k; logs := logs w ++ l |})
      | None => None
      end.
Proof.
  intros Hrec. induction candidates as [|[row col] rest IH]; intros bm bs a w Hc.
  - simpl. unfold ret. destruct w; simpl. do 3 f_equal; try lia. by rewrite app_nil_r.
  - apply Forall_cons in Hc as [Hc Hrest]. simpl in Hc.
    simpl. unfold bind at 1. unfold write_cell at 1.
    unfold bind at 1. rewrite Hrec. simpl.
    destruct (rec_p (set_cell (the_board w) row col player) (num_neg beta) (num_neg a))
      as [[[v n] k]|]; simpl; [|done].
    unfold bind at 1. unfold write_cell at 1. simpl.
    rewrite set_cell_restore by done.
    unfold bind at 1. unfold log at 1. simpl.
    destruct (num_gt (num_neg v) bs).
    + rewrite IH by done. simpl.
      destruct (proot_loop rec_p (the_board w) player beta rest (Some (row, col))
                  (num_neg v) (num_neg v)) as [[[[[bm' bs'] n'] k'] l']|]; [|done].
      do 3 f_equal; try lia. by rewrite <- app_assoc.
    + rewrite IH by done. simpl.
      destruct (proot_loop rec_p (the_board w) player beta rest bm bs a)
        as [[[[[bm' bs'] n'] k'] l']|]; [|done].
      do 3 f_equal; try lia. by rewrite <- app_assoc.
Qed.

Lemma findBestMove_run ai prune player w :
  findBestMove_with ai prune player w
  = match pfindBestMove ai prune (the_board w) player with
    | Some r => Some (r, world_after (the_board w) r)
    | None => None
    end.
Proof.
  unfold findBestMove_with, pfindBestMove.
  unfold bind at 1. unfold reset_counters at 1.
  unfold bind at 1. rewrite generateCandidateMoves_run. cbn [the_board].
  unfold bind at 1. unfold log at 1. cbn [the_board searchNodes pruningCount logs].
  destruct (candidates_of ai (the_board w) player) as [|c0 cs] eqn:Hcs; [done|].
  unfold bind at 1.
  rewrite (root_loop_run _
             (fun b a' b' => psearch ai prune (search_fuel ai) (searchDepth ai - 1) a' b'
                               (3 - player) b)).
  - cbn [the_board searchNodes pruningCount logs].
    match goal with
    | |- context [proot_loop ?r ?b ?pl ?be ?c ?bm ?bs ?a] =>
        destruct (proot_loop r b pl be c bm bs a) as [[[[[bm' bs'] n'] k'] l']|];
          [|reflexivity]
    end.
    unfold bind, read_counters, log, ret, world_after. simpl.
    do 4 f_equal.
  - intros a b w'. apply search_run.
  - cbn [the_board]. apply Forall_forall. intros m Hm.
    apply (candidates_of_empty_cell ai _ player). by rewrite Hcs.
Qed.

(** ** The search returns *)

Lemma scan_order_length ai :
  length (scan_order ai) = (Z.to_nat (boardSize ai) * Z.to_nat (boardSize ai))%nat.
Proof.
  unfold scan_order.
  assert (H : forall (l : list Z) (n : nat),
             length (flat_map (fun row => map (fun col => (row, col)) (seqZ 0 (boardSize ai))) l)
             = (length l * Z.to_nat (boardSize ai))%nat).
  { induction l as [|x l IH]; intros n; simpl; [done|].
    rewrite length_app, length_map, length_seqZ, (IH n). lia. }
  rewrite (H _ 0%nat), length_seqZ. done.
Qed.

Lemma filter_length_strict {A} (P Q : A -> Prop)
    `{!forall x, Decision (P x)} `{!forall x, Decision (Q x)} (l : list A) x0 :
  (forall x, x ∈ l -> P x -> Q x) -> x0 ∈ l -> Q x0 -> ~ P x0 ->
  (length (filter P l) < length (filter Q l))%nat.
Proof.
  assert (Hle : forall l', (forall x, x ∈ l' -> P x -> Q x) ->
                (length (filter P l') <= length (filter Q l'))%nat).
  { induction l' as [|y l' IH]; intros Himp; [done|].
    rewrite !filter_cons.
    assert (IH' := IH (fun x Hx => Himp x (list_elem_of_further _ _ _ Hx))).
    destruct (decide (P y)) as [Hp|Hp].
    - rewrite decide_True by (apply Himp; [left|done]). simpl. lia.
    - destruct (decide (Q y)); simpl; lia. }
  induction l as [|y l IH]; intros Himp Hin Hq Hp.
  - by apply elem_of_nil in Hin.
  - rewrite !filter_cons.
    assert (Hl := Hle l (fun x Hx => Himp x (list_elem_of_further _ _ _ Hx))).
    apply elem_of_cons in Hin as [->|Hin].
    + rewrite decide_False by done. rewrite decide_True by done. simpl. lia.
    + assert (IH' := IH (fun x Hx => Himp x (list_elem_of_further _ _ _ Hx)) Hin Hq Hp).
      destruct (decide (P y)) as [Hpy|Hpy].
      * rewrite decide_True by (apply Himp; [left|done]). simpl. lia.
      * destruct (decide (Q y)); simpl; lia.
Qed.

Lemma empties_le ai b : (empties ai b <= Z.to_nat (boardSize ai * boardSize ai))%nat.
Proof.
  unfold empties.
  etrans; [apply length_filter|]. rewrite scan_order_length.
  destruct (Z.le_gt_cases 0 (boardSize ai)).
  - rewrite Z2Nat.inj_mul by done. done.
  - replace (Z.to_nat (boardSize ai)) with 0%nat by lia. simpl. lia.
Qed.

Lemma empties_set_cell ai b r c p :
  (r, c) ∈ scan_order ai -> cell b r c = Some 0 -> p <> 0 ->
  (empties ai (set_cell b r c p) < empties ai b)%nat.
Proof.
  intros Hin Hc Hp. unfold empties.
  apply (filter_length_strict _ _ _ (r, c)); [|done| |].
  - intros [r' c'] _. simpl.
    destruct (decide ((r, c) = (r', c'))) as [E|E].
    + inversion E; subst. rewrite (cell_set_cell_eq _ _ _ _ _ Hc). simpl.
      intros H. apply Z.eqb_eq in H. done.
    + by rewrite cell_set_cell_ne.
  - simpl. by rewrite Hc.
  - simpl. rewrite (cell_set_cell_eq _ _ _ _ _ Hc). simpl.
    intros H. apply Z.eqb_eq in H. done.
Qed.

Lemma num_max_finite m q : m <> PosInf -> finite (num_max m (Fin q)).
Proof.
  intros Hm. unfold num_max, num_le.
  destruct m as [|x|]; [by eexists| |done].
  destruct (Qle_bool q x); by eexists.
Qed.

Lemma finite_not_PosInf v : finite v -> v <> PosInf.
Proof. intros [q ->]. done. Qed.

Section Total.

Variable ai : Settings.
Variable prune : bool.

Lemma returns_on_tail rec b player c cs :
  returns_on rec b player (c :: cs) -> returns_on rec b player cs.
Proof. intros H row col a b' Hin. apply H. by right. Qed.

Lemma psearch_loop_total rec b player beta : forall cs m a,
  returns_on rec b player cs -> m <> PosInf ->
  exists v n k, psearch_loop prune rec b player beta cs m a = Some (v, n, k)
                /\ 0 <= n /\ 0 <= k /\ v <> PosInf /\ (cs <> [] -> finite v).
Proof.
  induction cs as [|[row col] rest IH]; intros m a Hrec Hm.
  - exists m, 0, 0. simpl. repeat split; try lia; done.
  - simpl.
    destruct (Hrec row col (num_neg beta) (num_neg a)) as (q & n & k & -> & Hn & Hk);
      [left|].
    assert (Hfin : finite (num_max m (num_neg (Fin q)))) by by apply num_max_finite.
    destruct (prune && num_ge (num_max a (num_neg (Fin q))) beta).
    + eexists _, _, _. split; [done|]. repeat split; try lia.
      * by apply finite_not_PosInf.
      * done.
    + destruct (IH (num_max m (num_neg (Fin q))) (num_max a (num_neg (Fin q))))
        as (v' & n' & k' & E & Hn' & Hk' & Hv' & Hf').
      { by eapply returns_on_tail. }
      { by apply finite_not_PosInf. }
      rewrite E. eexists _, _, _. split; [done|]. repeat split; try lia; [done|].
      intros _. destruct rest as [|c' rest'].
      * simpl in E. by inversion E; subst.
      * by apply Hf'.
Qed.

Lemma is_player_other p : is_player p -> is_player (3 - p).
Proof. unfold is_player. lia. Qed.

Lemma candidates_return fuel depth b player :
  is_player player ->
  (forall depth alpha beta player b, is_player player -> (empties ai b < fuel)%nat ->
     exists q n k, psearch ai prune fuel depth alpha beta player b = Some (Fin q, n, k)
                   /\ 1 <= n /\ 0 <= k) ->
  (empties ai b <= fuel)%nat ->
  returns_on (fun b a' b' => psearch ai prune fuel depth a' b' (3 - player) b)
             b player (candidates_of ai b player).
Proof.
  intros Hp IH Hfuel row col a b' Hin.
  apply IH; [by apply is_player_other|].
  pose proof (candidates_of_empty_cell _ _ _ _ Hin) as Hc.
  apply candidates_of_eligible in Hin as [Hin _].
  eapply Nat.lt_le_trans; [|exact Hfuel].
  apply empties_set_cell; [done|done|]. unfold is_player in Hp. lia.
Qed.

Local Arguments psearch_loop : simpl never.

Lemma psearch_total fuel : forall depth alpha beta player b,
  is_player player -> (empties ai b < fuel)%nat ->
  exists q n k, psearch ai prune fuel depth alpha beta player b = Some (Fin q, n, k)
                /\ 1 <= n /\ 0 <= k.
Proof.
  induction fuel as [|fuel IH]; intros depth alpha beta player b Hp Hfuel; [lia|].
  simpl.
  destruct (depth =? 0); [eexists _, _, _; split; [done|lia]|].
  destruct (checkWinner ai b =? player); [eexists _, _, _; split; [done|lia]|].
  destruct (checkWinner ai b =? 3 - player); [eexists _, _, _; split; [done|lia]|].
  destruct (candidates_of ai b player) as [|c0 cs] eqn:Hcs;
    [eexists _, _, _; split; [done|lia]|].
  destruct (psearch_loop_total
              (fun b a' b' => psearch ai prune fuel (depth - 1) a' b' (3 - player) b)
              b player beta (c0 :: cs) NegInf alpha)
    as (v & n & k & E & Hn & Hk & _ & Hf).
  { rewrite <- Hcs. apply candidates_return; [done|done|lia]. }
  { done. }
  rewrite E. destruct Hf as [q ->]; [done|].
  eexists _, _, _. split; [done|lia].
Qed.

Lemma proot_loop_total rec b player beta : forall cs bm bs a,
  returns_on rec b player cs ->
  exists bm' bs' n k l,
    proot_loop rec b player beta cs bm bs a = Some (bm', bs', n, k, l)
    /\ Z.of_nat (length cs) <= n /\ 0 <= k.
Proof.
  induction cs as [|[row col] rest IH]; intros bm bs a Hrec.
  - eexists _, _, _, _, _. simpl. split; [done|lia].
  - simpl.
    destruct (Hrec row col (num_neg beta) (num_neg a)) as (q & n & k & -> & Hn & Hk);
      [left|].
    destruct (num_gt (num_neg (Fin q)) bs).
    + destruct (IH (Some (row, col)) (num_neg (Fin q)) (num_neg (Fin q)))
        as (bm' & bs' & n' & k' & l' & -> & Hn' & Hk'); [by eapply returns_on_tail|].
      eexists _, _, _, _, _. split; [done|lia].
    + destruct (IH bm bs a)
        as (bm' & bs' & n' & k' & l' & -> & Hn' & Hk'); [by eapply returns_on_tail|].
      eexists _, _, _, _, _. split; [done|lia].
Qed.

Lemma root_candidates_return b player :
  is_player player ->
  returns_on (fun b a' b' => psearch ai prune (search_fuel ai) (searchDepth ai - 1) a' b'
                               (3 - player) b)
             b player (candidates_of ai b player).
Proof.
  intros Hp. apply candidates_return; [done| |].
  - intros. by apply psearch_total.
  - unfold search_fuel. pose proof (empties_le ai b). lia.
Qed.

Lemma pfindBestMove_total b player :
  is_player player ->
  exists r, pfindBestMove ai prune b player = Some r
            /\ (r = None <-> candidates_of ai b player = []).
Proof.
  intros Hp. unfold pfindBestMove.
  pose proof (root_candidates_return b player Hp) as Hret.
  destruct (candidates_of ai b player) as [|c0 cs] eqn:Hcs.
  - by exists None.
  - destruct (proot_loop_total _ b player PosInf (c0 :: cs) None NegInf NegInf Hret)
      as (bm' & bs' & n' & k' & l' & -> & _).
    eexists. split; [done|]. split; discriminate.
Qed.

End Total.

(** ** The order on numbers *)

Lemma Qle_bool_false x y : Qle_bool x y = false <-> (y < x)%Q.
Proof.
  split.
  - intros H. apply Qnot_le_lt. intros Hle. apply Qle_bool_iff in Hle. congruence.
  - intros H. destruct (Qle_bool x y) eqn:E; [|done].
    apply Qle_bool_iff in E. lra.
Qed.

Ltac q_bool :=
  repeat match goal with
         | H : Qle_bool _ _ = true |- _ => apply Qle_bool_iff in H
         | H : Qle_bool _ _ = false |- _ => apply Qle_bool_false in H
         | |- Qle_bool _ _ = true => apply Qle_bool_iff
         | |- Qle_bool _ _ = false => apply Qle_bool_false
         end.

Ltac num_cases :=
  unfold nle, nlt, num_le, num_neg in *;
  repeat match goal with x : num |- _ => destruct x end;
  intuition (try discriminate; try reflexivity; q_bool; try lra).

Module NumOrd.
Definition t := num.
Definition le := nle.
Definition lt := nlt.
Definition eq := neqv.

Lemma eq_equiv : Equivalence eq.
Proof.
  split.
  - intros x. unfold eq, neqv. rewrite andb_true_iff. num_cases.
  - intros x y. unfold eq, neqv. rewrite !andb_true_iff. tauto.
  - intros x y z. unfold eq, neqv. rewrite !andb_true_iff. num_cases.
Qed.

Lemma lt_strorder : StrictOrder lt.
Proof.
  split.
  - intros x. unfold complement, lt. num_cases.
  - intros x y z. unfold lt. num_cases.
Qed.

Lemma lt_compat : Proper (eq ==> eq ==> iff) lt.
Proof.
  intros x x' Hx y y' Hy. unfold eq, lt, neqv in *.
  rewrite andb_true_iff in Hx, Hy. num_cases.
Qed.

Lemma num_le_total x y : num_le x y = false -> num_le y x = true.
Proof. num_cases. Qed.

Lemma le_lteq x y : le x y <-> lt x y \/ eq x y.
Proof.
  unfold le, lt, eq, nle, nlt, neqv.
  pose proof (num_le_total x y). pose proof (num_le_total y x).
  destruct (num_le x y), (num_le y x); simpl; intuition discriminate.
Qed.

Lemma lt_total x y : lt x y \/ eq x y \/ lt y x.
Proof.
  unfold lt, eq, nlt, neqv.
  pose proof (num_le_total x y). pose proof (num_le_total y x).
  destruct (num_le x y), (num_le y x); simpl; intuition discriminate.
Qed.
End NumOrd.

Module NumOrderTac := OrdersTac.MakeOrderTac NumOrd NumOrd.

Ltac num_order :=
  try discriminate;
  repeat match goal with
         | H : num_le ?a ?b = true |- _ => change (NumOrd.le a b) in H
         | H : num_le ?a ?b = false |- _ => change (NumOrd.lt b a) in H
         | H : nle ?a ?b |- _ => change (NumOrd.le a b) in H
         | H : nlt ?a ?b |- _ => change (NumOrd.lt a b) in H
         | H : neqv ?a ?b |- _ => change (NumOrd.eq a b) in H
         end;
  match goal with
  | |- num_le ?a ?b = true => change (NumOrd.le a b)
  | |- num_le ?a ?b = false => change (NumOrd.lt b a)
  | |- nle ?a ?b => change (NumOrd.le a b)
  | |- nlt ?a ?b => change (NumOrd.lt a b)
  | |- neqv ?a ?b => change (NumOrd.eq a b)
  | |- _ => idtac
  end;
  NumOrderTac.order.

Lemma num_le_neg a b : num_le (num_neg a) (num_neg b) = num_le b a.
Proof.
  destruct (num_le b a) eqn:E; revert E; num_cases.
Qed.

Lemma neqv_iff a b : neqv a b <-> num_le a b = true /\ num_le b a = true.
Proof. unfold neqv. apply andb_true_iff. Qed.

(** ** Pruning soundness *)

Lemma num_le_neg_l a b : num_le (num_neg a) b = num_le (num_neg b) a.
Proof.
  destruct (num_le (num_neg b) a) eqn:E; revert E; num_cases.
Qed.

Lemma num_le_neg_r a b : num_le a (num_neg b) = num_le b (num_neg a).
Proof.
  destruct (num_le b (num_neg a)) eqn:E; revert E; num_cases.
Qed.

Lemma fail_soft_neg a beta v V :
  fail_soft (num_neg beta) (num_neg a) v V ->
  fail_soft a beta (num_neg v) (num_neg V).
Proof.
  intros [F1 F2]. split.
  - rewrite num_le_neg_r, num_le_neg. exact F2.
  - rewrite <- num_le_neg_l, num_le_neg. exact F1.
Qed.

Lemma fail_soft_refl a b v : fail_soft a b v v.
Proof. split; intros _; num_order. Qed.

Lemma sound_on_tail rec_p rec_e b player c cs :
  sound_on rec_p rec_e b player (c :: cs) -> sound_on rec_p rec_e b player cs.
Proof. intros H row col Hin. apply H. by right. Qed.

(** The exhaustive loop returns, and never less than it started with. *)
Lemma exhaustive_loop_ge rec b player beta : forall cs M A,
  returns_on rec b player cs ->
  exists V N K, psearch_loop false rec b player beta cs M A = Some (V, N, K)
                /\ num_le M V = true /\ 0 <= N.
Proof.
  induction cs as [|[row col] rest IH]; intros M A Hrec.
  - exists M, 0, 0. simpl. split; [done|]. split; [num_order|lia].
  - simpl.
    destruct (Hrec row col (num_neg beta) (num_neg A)) as (q & n & k & -> & Hn & Hk);
      [left|].
    destruct (IH (num_max M (num_neg (Fin q))) (num_max A (num_neg (Fin q))))
      as (V & N & K & -> & HV & HN); [by eapply returns_on_tail|].
    eexists _, _, _. split; [done|]. split; [|lia].
    revert HV. unfold num_max. destruct (num_le (num_neg (Fin q)) M) eqn:E; intros; num_order.
Qed.

Ltac use_bound F :=
  match type of F with
  | true = false -> _ => clear F
  | false = false -> _ => specialize (F eq_refl)
  | ?c = false -> _ =>
      let E := fresh "E" in destruct c eqn:E; [clear F|specialize (F eq_refl)]
  end.

Ltac use_fail_soft H :=
  let F1 := fresh "F" in
  let F2 := fresh "F" in
  destruct H as [F1 F2]; use_bound F1; use_bound F2.

Lemma alpha_beta_loop_sound rec_p rec_e b player alpha0 beta beta_e :
  forall cs m a M A,
    sound_on rec_p rec_e b player cs -> returns_on rec_e b player cs ->
    num_le beta a = false -> num_le alpha0 a = true -> num_le m a = true ->
    (num_le a alpha0 = true \/ num_le a m = true) ->
    num_le M m = true -> (num_le m alpha0 = false -> num_le m M = true) ->
    exists v n k V N K,
      psearch_loop true rec_p b player beta cs m a = Some (v, n, k)
      /\ psearch_loop false rec_e b player beta_e cs M A = Some (V, N, K)
      /\ fail_soft alpha0 beta v V /\ n <= N /\ 0 <= n.
Proof.
  induction cs as [|[row col] rest IH];
    intros m a M A Hsound Hret Hab H0a Hma Ha HMm HmM.
  - exists m, 0, 0, M, 0, 0. simpl. repeat split; try done. 
  - simpl.
    destruct (Hsound row col (list_elem_of_here _ _) (num_neg beta) (num_neg a)
                (num_neg beta_e) (num_neg A))
      as (vc & n & k & Vc & N & K & -> & -> & Hfs & HnN & Hn & _ & _).
    { by rewrite num_le_neg. }
    apply fail_soft_neg in Hfs.
    remember (num_neg vc) as s eqn:Hs. remember (num_neg Vc) as S eqn:HS.
    clear Hs HS vc Vc.
    assert (Hsound' := sound_on_tail _ _ _ _ _ _ Hsound).
    assert (Hret' := returns_on_tail _ _ _ _ _ Hret).
    simpl. unfold num_ge.
    destruct (num_le beta (num_max a s)) eqn:Eprune.
    + (* the cut: the exhaustive loop goes on *)
      destruct (exhaustive_loop_ge rec_e b player beta_e rest (num_max M S) (num_max A S) Hret')
        as (V & N' & K' & -> & HV & HN').
      eexists _, _, _, _, _, _. split; [done|]. split; [done|].
      split; [|lia].
      revert Eprune HV. unfold num_max.
      destruct (num_le s a) eqn:Esa, (num_le s m) eqn:Esm, (num_le S M) eqn:ESM;
        intros Eprune HV; use_fail_soft Hfs; split; intros; num_order.
    + destruct (IH (num_max m s) (num_max a s) (num_max M S) (num_max A S) Hsound' Hret')
        as (v & n' & k' & V & N' & K' & -> & -> & Hfs' & HnN' & Hn'); try done.
      * revert Eprune. unfold num_max.
        destruct (num_le s a) eqn:Esa; intros; num_order.
      * revert Eprune. unfold num_max.
        destruct (num_le s a) eqn:Esa, (num_le s m) eqn:Esm; intros; num_order.
      * revert Eprune. unfold num_max.
        destruct (num_le s a) eqn:Esa, (num_le s m) eqn:Esm; intros;
          destruct Ha; first [left; num_order|right; num_order].
      * revert Eprune. unfold num_max.
        destruct (num_le s a) eqn:Esa, (num_le s m) eqn:Esm, (num_le S M) eqn:ESM;
          intros; use_fail_soft Hfs; num_order.
      * revert Eprune. unfold num_max.
        destruct (num_le s a) eqn:Esa, (num_le s m) eqn:Esm, (num_le S M) eqn:ESM;
          intros Eprune Hgt; use_fail_soft Hfs;
          try specialize (HmM ltac:(num_order)); destruct Ha; num_order.
      * eexists _, _, _, _, _, _. split; [done|]. split; [done|].
        split; [done|lia].
Qed.

Section Soundness.

Variable ai : Settings.

Local Arguments psearch_loop : simpl never.

Lemma psearch_sound fuel : forall depth player b,
  is_player player -> (empties ai b < fuel)%nat ->
  forall alpha beta alpha' beta', num_le beta alpha = false ->
    exists v n k V N K,
      psearch ai true fuel depth alpha beta player b = Some (v, n, k)
      /\ psearch ai false fuel depth alpha' beta' player b = Some (V, N, K)
      /\ fail_soft alpha beta v V /\ n <= N /\ 1 <= n /\ finite v /\ finite V.
Proof.
  induction fuel as [|fuel IH]; intros depth player b Hp Hfuel alpha beta alpha' beta' Hab;
    [lia|].
  simpl.
  destruct (depth =? 0).
  { eexists _, _, _, _, _, _. do 2 (split; [done|]).
    split; [apply fail_soft_refl|]. repeat split; try lia; by eexists. }
  destruct (checkWinner ai b =? player).
  { eexists _, _, _, _, _, _. do 2 (split; [done|]).
    split; [apply fail_soft_refl|]. repeat split; try lia; by eexists. }
  destruct (checkWinner ai b =? 3 - player).
  { eexists _, _, _, _, _, _. do 2 (split; [done|]).
    split; [apply fail_soft_refl|]. repeat split; try lia; by eexists. }
  assert (Hsound : sound_on
            (fun b a' b' => psearch ai true fuel (depth - 1) a' b' (3 - player) b)
            (fun b a' b' => psearch ai false fuel (depth - 1) a' b' (3 - player) b)
            b player (candidates_of ai b player)).
  { intros row col Hin a' b' a'' b'' Hw.
    apply IH; [by apply is_player_other| |done].
    pose proof (candidates_of_empty_cell _ _ _ _ Hin) as Hc.
    apply candidates_of_eligible in Hin as [Hin _].
    assert (Hlt := empties_set_cell ai b row col player Hin Hc).
    unfold is_player in Hp. lia. }
  assert (Hret : forall prune, returns_on
            (fun b a' b' => psearch ai prune fuel (depth - 1) a' b' (3 - player) b)
            b player (candidates_of ai b player)).
  { intros prune. apply candidates_return; [done| |lia].
    intros. by apply psearch_total. }
  destruct (candidates_of ai b player) as [|c0 cs] eqn:Hcs.
  { eexists _, _, _, _, _, _. do 2 (split; [done|]).
    split; [apply fail_soft_refl|]. repeat split; try lia; by eexists. }
  destruct (alpha_beta_loop_sound _ _ b player alpha beta beta' (c0 :: cs)
              NegInf alpha NegInf alpha' Hsound (Hret false))
    as (v & n & k & V & N & K & E1 & E2 & Hfs & HnN & Hn); try done.
  { num_order. }
  { left. num_order. }
  destruct (psearch_loop_total true _ b player beta (c0 :: cs) NegInf alpha (Hret true))
    as (v1 & n1 & k1 & E1' & _ & _ & _ & Hf1); [done|].
  destruct (psearch_loop_total false _ b player beta' (c0 :: cs) NegInf alpha' (Hret false))
    as (v2 & n2 & k2 & E2' & _ & _ & _ & Hf2); [done|].
  rewrite E1 in E1' |- *. rewrite E2 in E2' |- *.
  inversion E1'; subst. inversion E2'; subst.
  eexists _, _, _, _, _, _. do 2 (split; [done|]).
  split; [done|]. repeat split; try lia; [by apply Hf1|by apply Hf2].
Qed.

Lemma root_loop_sound rec_p rec_e b player beta_e : forall cs bm bs bs_e a_e,
  sound_on rec_p rec_e b player cs -> neqv bs bs_e -> bs <> PosInf ->
  exists bm' bs' n k l bs_e' N K l_e,
    proot_loop rec_p b player PosInf cs bm bs bs = Some (bm', bs', n, k, l)
    /\ proot_loop rec_e b player beta_e cs bm bs_e a_e = Some (bm', bs_e', N, K, l_e)
    /\ neqv bs' bs_e' /\ n <= N.
Proof.
  induction cs as [|[row col] rest IH]; intros bm bs bs_e a_e Hsound Heqv Hbs.
  - eexists _, _, _, _, _, _, _, _, _. simpl. do 2 (split; [done|]). split; [done|lia].
  - simpl.
    destruct (Hsound row col (list_elem_of_here _ _) NegInf (num_neg bs)
                (num_neg beta_e) (num_neg a_e))
      as (vc & n & k & Vc & N & K & -> & -> & Hfs & HnN & Hn & [q ->] & [Q ->]).
    { destruct bs; done. }
    apply (fail_soft_neg bs PosInf) in Hfs.
    assert (Hfin : num_neg (Fin q) <> PosInf) by done.
    assert (Hle : num_le PosInf (num_neg (Fin q)) = false) by done.
    remember (num_neg (Fin q)) as s eqn:Hs. remember (num_neg (Fin Q)) as S eqn:HS.
    clear Hs HS.
    assert (Hsound' := sound_on_tail _ _ _ _ _ _ Hsound).
    assert (Htest : num_gt s bs = num_gt S bs_e).
    { unfold num_gt. f_equal. apply neqv_iff in Heqv as [H1 H2].
      destruct Hfs as [F1 F2]. specialize (F1 Hle).
      destruct (num_le s bs) eqn:E1, (num_le S bs_e) eqn:E2; try done;
        try specialize (F2 eq_refl); exfalso; num_order. }
    rewrite <- Htest.
    destruct (num_gt s bs) eqn:Hgt.
    + destruct (IH (Some (row, col)) s S S Hsound')
        as (bm' & bs' & n' & k' & l & bs_e' & N' & K' & l_e & -> & -> & Heqv' & HnN');
        [|done|].
      { apply neqv_iff. destruct Hfs as [F1 F2]. specialize (F1 Hle).
        unfold num_gt in Hgt. apply negb_true_iff in Hgt. specialize (F2 Hgt).
        done. }
      eexists _, _, _, _, _, _, _, _, _. do 2 (split; [done|]). split; [done|lia].
    + destruct (IH bm bs bs_e a_e Hsound' Heqv Hbs)
        as (bm' & bs' & n' & k' & l & bs_e' & N' & K' & l_e & -> & -> & Heqv' & HnN').
      eexists _, _, _, _, _, _, _, _, _. do 2 (split; [done|]). split; [done|lia].
Qed.

Lemma pfindBestMove_sound b player :
  is_player player ->
  (pfindBestMove ai true b player = Some None
   /\ pfindBestMove ai false b player = Some None)
  \/ exists res res',
       pfindBestMove ai true b player = Some (Some res)
       /\ pfindBestMove ai false b player = Some (Some res')
       /\ move res = move res'
       /\ res_searchNodes res <= res_searchNodes res'.
Proof.
  intros Hp. unfold pfindBestMove.
  assert (Hsound : sound_on
            (fun b a' b' => psearch ai true (search_fuel ai) (searchDepth ai - 1) a' b'
                              (3 - player) b)
            (fun b a' b' => psearch ai false (search_fuel ai) (searchDepth ai - 1) a' b'
                              (3 - player) b)
            b player (candidates_of ai b player)).
  { intros row col Hin a' b' a'' b'' Hw.
    apply psearch_sound; [by apply is_player_other| |done].
    pose proof (candidates_of_empty_cell _ _ _ _ Hin) as Hc.
    apply candidates_of_eligible in Hin as [Hin _].
    assert (Hlt := empties_set_cell ai b row col player Hin Hc).
    pose proof (empties_le ai b). unfold search_fuel, is_player in *. lia. }
  destruct (candidates_of ai b player) as [|c0 cs] eqn:Hcs; [by left|right].
  destruct (root_loop_sound _ _ b player PosInf (c0 :: cs) None NegInf NegInf NegInf Hsound)
    as (bm' & bs' & n' & k' & l & bs_e' & N' & K' & l_e & -> & -> & _ & HnN'); [done|done|].
  eexists _, _. do 2 (split; [done|]). simpl. done.
Qed.

End Soundness.

(** ** The search against the search without cuts *)

Lemma psearch_loop_false_window rec rec' b player beta beta' :
  (forall b' a1 b1 a2 b2, rec b' a1 b1 = rec' b' a2 b2) ->
  forall cs m a a',
    psearch_loop false rec b player beta cs m a
    = psearch_loop false rec' b player beta' cs m a'.
Proof.
  intros Hrec. induction cs as [|[row col] rest IH]; intros m a a'; [done|].
  simpl. rewrite (Hrec _ _ _ (num_neg beta') (num_neg a')).
  destruct (rec' (set_cell b row col player) (num_neg beta') (num_neg a'))
    as [[[v n] k]|]; [|done].
  by rewrite (IH _ _ (num_max a' (num_neg v))).
Qed.

Section Window.

Variable ai : Settings.

Local Arguments psearch_loop : simpl never.

(** Without the cut the window plays no part. *)
Lemma psearch_false_window fuel : forall depth alpha beta alpha' beta' player b,
  psearch ai false fuel depth alpha beta player b
  = psearch ai false fuel depth alpha' beta' player b.
Proof.
  induction fuel as [|fuel IH]; intros depth alpha beta alpha' beta' player b; [done|].
  simpl.
  destruct (depth =? 0); [done|].
  destruct (checkWinner ai b =? player); [done|].
  destruct (checkWinner ai b =? 3 - player); [done|].
  destruct (candidates_of ai b player) as [|c0 cs]; [done|].
  by rewrite (psearch_loop_false_window _
                (fun b0 a' b' => psearch ai false fuel (depth - 1) a' b' (3 - player) b0)
                b player beta beta' (fun b' a1 b1 a2 b2 => IH _ a1 b1 a2 b2 _ b')
                (c0 :: cs) NegInf alpha alpha').
Qed.

End Window.

Lemma exhaustive_root_best rec b player beta (S : Move -> num) :
  forall cs bm bs a,
    (forall row col a' b', (row, col) ∈ cs ->
       exists V n k, rec (set_cell b row col player) a' b' = Some (V, n, k)
                     /\ num_neg V = S (row, col)) ->
    exists bm' bs' n k l,
      proot_loop rec b player beta cs bm bs a = Some (bm', bs', n, k, l)
      /\ ((bm' = bm /\ bs' = bs /\ forall m, m ∈ cs -> num_le (S m) bs = true)
          \/ exists i m,
               cs !! i = Some m /\ bm' = Some m /\ bs' = S m
               /\ num_le (S m) bs = false
               /\ (forall j m', (j < i)%nat -> cs !! j = Some m' ->
                     num_le (S m) (S m') = false)
               /\ (forall m', m' ∈ cs -> num_le (S m') (S m) = true)).
Proof.
  induction cs as [|[row col] rest IH]; intros bm bs a Hval.
  - eexists _, _, _, _, _. split; [done|]. left. repeat split.
    intros m Hm. by apply elem_of_nil in Hm.
  - simpl.
    destruct (Hval row col (num_neg beta) (num_neg a)) as (V & n & k & -> & HS); [left|].
    rewrite HS.
    assert (Hrest : forall row0 col0 a' b', (row0, col0) ∈ rest ->
              exists V0 n0 k0, rec (set_cell b row0 col0 player) a' b' = Some (V0, n0, k0)
                               /\ num_neg V0 = S (row0, col0)).
    { intros. apply Hval. by right. }
    unfold num_gt. destruct (num_le (S (row, col)) bs) eqn:E; simpl.
    + destruct (IH bm bs a Hrest) as (bm' & bs' & n' & k' & l' & -> & Hcase).
      eexists _, _, _, _, _. split; [done|].
      destruct Hcase as [(-> & -> & Hall)|(i & m & Hi & -> & -> & Hgt & Hbefore & Hall)].
      * left. repeat split. intros m Hm. apply elem_of_cons in Hm as [->|Hm]; [done|].
        by apply Hall.
      * right. exists (Datatypes.S i), m. repeat split; try done.
        -- intros [|j] m' Hj Hm'.
           ++ simpl in Hm'. inversion Hm'; subst. num_order.
           ++ simpl in Hm'. apply (Hbefore j); [lia|done].
        -- intros m' Hm'. apply elem_of_cons in Hm' as [->|Hm']; [num_order|].
           by apply Hall.
    + destruct (IH (Some (row, col)) (S (row, col)) (S (row, col)) Hrest)
        as (bm' & bs' & n' & k' & l' & -> & Hcase).
      eexists _, _, _, _, _. split; [done|]. right.
      destruct Hcase as [(-> & -> & Hall)|(i & m & Hi & -> & -> & Hgt & Hbefore & Hall)].
      * exists 0%nat, (row, col). repeat split; try done.
        -- intros j m' Hj. lia.
        -- intros m' Hm'. apply elem_of_cons in Hm' as [->|Hm']; [num_order|].
           by apply Hall.
      * exists (Datatypes.S i), m. repeat split; try done.
        -- num_order.
        -- intros [|j] m' Hj Hm'.
           ++ simpl in Hm'. inversion Hm'; subst. done.
           ++ simpl in Hm'. apply (Hbefore j); [lia|done].
        -- intros m' Hm'. apply elem_of_cons in Hm' as [->|Hm']; [num_order|].
           by apply Hall.
Qed.

Lemma exact_score_value ai b player row col a' b' :
  is_player player -> (row, col) ∈ candidates_of ai b player ->
  exists V n k,
    psearch ai false (search_fuel ai) (searchDepth ai - 1) a' b' (3 - player)
      (set_cell b row col player) = Some (V, n, k)
    /\ num_neg V = exact_score ai b player (row, col)
    /\ finite V.
Proof.
  intros Hp Hin.
  destruct (root_candidates_return ai false b player Hp row col a' b' Hin)
    as (q & n & k & E & _).
  exists (Fin q), n, k. split; [done|]. split; [|by eexists].
  unfold exact_score. simpl fst. simpl snd.
  by rewrite (psearch_false_window ai _ _ NegInf PosInf a' b'), E.
Qed.

Lemma root_sound_on ai b player :
  is_player player ->
  sound_on
    (fun b0 a' b' => psearch ai true (search_fuel ai) (searchDepth ai - 1) a' b' (3 - player) b0)
    (fun b0 a' b' => psearch ai false (search_fuel ai) (searchDepth ai - 1) a' b' (3 - player) b0)
    b player (candidates_of ai b player).
Proof.
  intros Hp row col Hin a' b' a'' b'' Hw.
  apply psearch_sound; [by apply is_player_other| |done].
  pose proof (candidates_of_empty_cell _ _ _ _ Hin) as Hc.
  apply candidates_of_eligible in Hin as [Hin _].
  assert (Hlt := empties_set_cell ai b row col player Hin Hc).
  pose proof (empties_le ai b). unfold search_fuel, is_player in *. lia.
Qed.

(** The move and the score of the result, against the exact scores of the
    candidates. *)
Lemma pfindBestMove_best ai b player res :
  is_player player ->
  pfindBestMove ai true b player = Some (Some res) ->
  exists i m,
    candidates_of ai b player !! i = Some m /\ move res = Some m
    /\ neqv (score res) (exact_score ai b player m)
    /\ (forall j m', (j < i)%nat -> candidates_of ai b player !! j = Some m' ->
          num_le (exact_score ai b player m) (exact_score ai b player m') = false)
    /\ (forall m', m' ∈ candidates_of ai b player ->
          num_le (exact_score ai b player m') (exact_score ai b player m) = true).
Proof.
  intros Hp H. unfold pfindBestMove in H.
  pose proof (root_sound_on ai b player Hp) as Hsound.
  assert (Hval : forall row col a' b', (row, col) ∈ candidates_of ai b player ->
            exists V n k,
              psearch ai false (search_fuel ai) (searchDepth ai - 1) a' b' (3 - player)
                (set_cell b row col player) = Some (V, n, k)
              /\ num_neg V = exact_score ai b player (row, col)).
  { intros row col a' b' Hin.
    destruct (exact_score_value ai b player row col a' b' Hp Hin) as (V & n & k & E & HS & _).
    by exists V, n, k. }
  assert (Hfin : forall m, m ∈ candidates_of ai b player ->
            finite (exact_score ai b player m)).
  { intros [row col] Hin.
    destruct (exact_score_value ai b player row col NegInf PosInf Hp Hin)
      as (V & n & k & _ & <- & [q ->]). by eexists. }
  destruct (candidates_of ai b player) as [|c0 cs] eqn:Hcs; [done|].
  destruct (root_loop_sound _ _ b player PosInf (c0 :: cs) None NegInf NegInf NegInf Hsound)
    as (bm' & bs' & n' & k' & l & bs_e' & N' & K' & l_e & E1 & E2 & Heqv & _); [done|done|].
  rewrite E1 in H. inversion H; subst res; clear H. simpl.
  destruct (exhaustive_root_best
              (fun b0 a' b' => psearch ai false (search_fuel ai) (searchDepth ai - 1) a' b'
                                 (3 - player) b0)
              b player PosInf (exact_score ai b player)
              (c0 :: cs) None NegInf NegInf Hval)
    as (bm2 & bs2 & n2 & k2 & l2 & E3 & Hcase).
  rewrite E2 in E3. inversion E3; subst; clear E3.
  destruct Hcase as [(_ & _ & Hall)|(i & m & Hi & -> & -> & _ & Hbefore & Hall)].
  - exfalso. destruct (Hfin c0) as [q Hq]; [left|].
    specialize (Hall c0 ltac:(left)). rewrite Hq in Hall. done.
  - exists i, m. repeat split; done.
Qed.

(** The move and the score of [findBestMove] against the search without
    cuts. *)
Lemma best_candidate (ai : Settings) (w : World) (player : Z) :
  is_player player ->
  exists r w' cs,
    findBestMove ai player w = Some (r, w')
    /\ generateCandidateMoves ai player w = Some (cs, w)
    /\ match r with
       | None => cs = []
       | Some res =>
           exists i row col s,
             cs !! i = Some (row, col) /\ move res = Some (row, col)
             /\ score res = Fin s
             /\ forall j r' c', cs !! j = Some (r', c') ->
                  exists V w'',
                    (write_cell r' c' player ;;
                     negamaxSearch ai (search_fuel ai) (searchDepth ai - 1) NegInf PosInf
                       (3 - player)) w = Some (Fin V, w'')
                    /\ (- V <= s)%Q
                    /\ ((j < i)%nat -> (- V < s)%Q)
                    /\ (j = i -> (- V == s)%Q)
       end.
Proof.
  intros Hp. unfold findBestMove. rewrite findBestMove_run, generateCandidateMoves_run.
  destruct (pfindBestMove_total ai true (the_board w) player Hp) as (r & Hr & Hnull).
  rewrite Hr. exists r, (world_after (the_board w) r), (candidates_of ai (the_board w) player).
  split; [done|]. split; [done|].
  destruct r as [res|]; [|by apply Hnull].
  destruct (pfindBestMove_best ai (the_board w) player res Hp Hr)
    as (i & [row col] & Hi & Hmove & Heqv & Hbefore & Hall).
  assert (Hin : (row, col) ∈ candidates_of ai (the_board w) player)
    by (by eapply list_elem_of_lookup_2).
  destruct (exact_score_value ai (the_board w) player row col NegInf PosInf Hp Hin)
    as (V0 & n0 & k0 & _ & HS0 & [q0 ->]).
  simpl in HS0.
  assert (Hs : exists s, score res = Fin s).
  { rewrite <- HS0 in Heqv. apply neqv_iff in Heqv as [H1 H2].
    destruct (score res); try done. by eexists. }
  destruct Hs as [s Hs]. exists i, row, col, s. do 3 (split; [done|]).
  rewrite Hs, <- HS0 in Heqv. apply neqv_iff in Heqv as [H1 H2]. simpl in H1, H2.
  apply Qle_bool_iff in H1, H2.
  intros j r' c' Hj.
  assert (Hin' : (r', c') ∈ candidates_of ai (the_board w) player)
    by (by eapply list_elem_of_lookup_2).
  destruct (exact_score_value ai (the_board w) player r' c' NegInf PosInf Hp Hin')
    as (V & n & k & E & HS & [q ->]).
  simpl in HS.
  exists q. unfold bind, write_cell, negamaxSearch. rewrite search_run. simpl the_board.
  rewrite E. simpl. eexists. split; [done|].
  specialize (Hall _ Hin'). rewrite <- HS, <- HS0 in Hall. simpl in Hall.
  apply Qle_bool_iff in Hall.
  split; [lra|]. split.
  - intros Hlt. specialize (Hbefore j _ Hlt Hj). rewrite <- HS, <- HS0 in Hbefore.
    simpl in Hbefore. apply Qle_bool_false in Hbefore. lra.
  - intros ->. rewrite Hi in Hj. inversion Hj; subst.
    assert (Heq : (- q)%Q = (- q0)%Q) by congruence.
    rewrite Heq. lra.
Qed.

(** ** Concrete boards *)

Lemma wf_empty_board n : wf_board (Z.of_nat n) (empty_board n).
Proof.
  unfold wf_board, empty_board. split.
  - by rewrite length_replicate.
  - apply Forall_replicate. by rewrite length_replicate.
Qed.

Lemma cell_empty_board n r c :
  0 <= r < Z.of_nat n -> 0 <= c < Z.of_nat n -> cell (empty_board n) r c = Some 0.
Proof.
  intros Hr Hc. unfold cell, empty_board.
  destruct (r <? 0) eqn:E1; [lia|]. destruct (c <? 0) eqn:E2; [lia|]. simpl.
  rewrite lookup_replicate_2 by lia. apply lookup_replicate_2. lia.
Qed.

Lemma hasNearbyPieces_empty ai n row col range :
  boardSize ai = Z.of_nat n ->
  hasNearbyPieces ai (empty_board n) row col range = false.
Proof.
  intros Hn. unfold hasNearbyPieces.
  apply not_true_is_false. intros H.
  apply existsb_exists in H as (r & Hr & H).
  apply existsb_exists in H as (c & Hc & H).
  apply list_elem_of_In, elem_of_seqZ in Hr. apply list_elem_of_In, elem_of_seqZ in Hc.
  rewrite cell_empty_board in H by lia. done.
Qed.

Lemma candidates_of_empty ai n player :
  boardSize ai = Z.of_nat n -> candidates_of ai (empty_board n) player = [].
Proof.
  intros Hn. unfold candidates_of, ranked_moves.
  destruct (filter (fun m => eligible ai (empty_board n) m = true) (scan_order ai))
    as [|m l] eqn:E.
  - unfold js_slice0. simpl. apply take_nil.
  - assert (Hm : m ∈ filter (fun m => eligible ai (empty_board n) m = true) (scan_order ai))
      by (rewrite E; left).
    apply list_elem_of_filter in Hm as [Hm _]. unfold eligible in Hm.
    rewrite hasNearbyPieces_empty in Hm by done.
    rewrite andb_false_r in Hm. done.
Qed.

(** ** Claims *)

(** C1. Board restoration: for every board and player, after [findBestMove],
    after [alphaBetaSearch] at any depth and window (whichever way its loop
    is left), after [evaluateBoard] and after [quickEvaluatePosition] on an
    empty cell, the call has returned and the board is the board before the
    call, cell by cell. *)
Theorem board_restoration (ai : Settings) (w : World) (player : Z) :
  wf_board (boardSize ai) (the_board w) -> is_player player ->
  (exists r w', findBestMove ai player w = Some (r, w') /\ the_board w' = the_board w)
  /\ (forall depth alpha beta, exists v w',
        alphaBetaSearch ai (search_fuel ai) depth alpha beta player w = Some (v, w')
        /\ the_board w' = the_board w)
  /\ (exists v w', evaluateBoard_call ai player w = Some (v, w') /\ the_board w' = the_board w)
  /\ (forall row col, cell (the_board w) row col = Some 0 ->
        exists v w', quickEvaluatePosition ai row col player w = Some (v, w')
                     /\ the_board w' = the_board w).
Proof.
  intros _ Hp. repeat split.
  - unfold findBestMove. rewrite findBestMove_run.
    destruct (pfindBestMove_total ai true (the_board w) player Hp) as (r & -> & _).
    eexists _, _. split; [done|]. by destruct r.
  - intros depth alpha beta. unfold alphaBetaSearch. rewrite search_run.
    destruct (psearch_total ai true (search_fuel ai) depth alpha beta player (the_board w) Hp)
      as (q & n & k & -> & _).
    { pose proof (empties_le ai (the_board w)). unfold search_fuel. lia. }
    eexists _, _. split; done.
  - eexists _, _. split; done.
  - intros row col Hc. rewrite quickEvaluatePosition_run by done.
    eexists _, _. split; done.
Qed.

(** C2. Pruning soundness: for every board, player and settings,
    [findBestMove] and the exhaustive negamax search of the same depth over
    the same ordered candidates both return, they return the same move (or
    both null), and pruning visits at most as many nodes.  The move is the
    one the full search singles out: the first root candidate whose value
    under the search without cuts (depth [searchDepth - 1], full window,
    after the candidate is played) is best, and the score reported is that
    value.  In the recursion the cut changes no value that matters: for
    every depth and every window [alpha < beta], [alphaBetaSearch] returns a
    bound of the value of the search without cuts on the side on which it
    leaves the window and the value itself inside it, and visits at most as
    many nodes. *)
Theorem pruning_soundness (ai : Settings) (w : World) (player : Z) :
  wf_board (boardSize ai) (the_board w) -> is_player player ->
  (exists r r' w1 w2,
     findBestMove ai player w = Some (r, w1)
     /\ findBestMove_exhaustive ai player w = Some (r', w2)
     /\ option_map move r = option_map move r'
     /\ (forall res res', r = Some res -> r' = Some res' ->
           res_searchNodes res <= res_searchNodes res')
     /\ exists cs,
          generateCandidateMoves ai player w = Some (cs, w)
          /\ match r with
             | None => cs = []
             | Some res =>
                 exists i row col s,
                   cs !! i = Some (row, col) /\ move res = Some (row, col)
                   /\ score res = Fin s
                   /\ forall j r' c', cs !! j = Some (r', c') ->
                        exists V w'',
                          (write_cell r' c' player ;;
                           negamaxSearch ai (search_fuel ai) (searchDepth ai - 1)
                             NegInf PosInf (3 - player)) w = Some (Fin V, w'')
                          /\ (- V <= s)%Q
                          /\ ((j < i)%nat -> (- V < s)%Q)
                          /\ (j = i -> (- V == s)%Q)
             end)
  /\ forall depth alpha beta, num_le beta alpha = false ->
       exists v w1 V w2,
         alphaBetaSearch ai (search_fuel ai) depth alpha beta player w = Some (Fin v, w1)
         /\ negamaxSearch ai (search_fuel ai) depth alpha beta player w = Some (Fin V, w2)
         /\ (num_le beta (Fin v) = false -> (V <= v)%Q)
         /\ (num_le (Fin v) alpha = false -> (v <= V)%Q)
         /\ (alpha = NegInf -> beta = PosInf -> (v == V)%Q)
         /\ searchNodes w1 <= searchNodes w2.
Proof.
  intros _ Hp. split.
  - destruct (best_candidate ai w player Hp) as (r0 & w0 & cs & Hf & Hcs & Hbest).
    unfold findBestMove, findBestMove_exhaustive in *.
    rewrite !findBestMove_run in *.
    destruct (pfindBestMove_sound ai (the_board w) player Hp)
      as [[E1 E2]|(res & res' & E1 & E2 & Hm & Hn)]; rewrite E1 in *; rewrite E2.
    + inversion Hf; subst r0.
      eexists _, _, _, _. do 2 (split; [done|]). split; [done|].
      split; [discriminate|]. by exists cs.
    + inversion Hf; subst r0.
      eexists _, _, _, _. do 2 (split; [done|]). split; [simpl; by f_equal|].
      split; [intros ? ? [= <-] [= <-]; done|]. by exists cs.
  - intros depth alpha beta Hab. unfold alphaBetaSearch, negamaxSearch.
    rewrite !search_run.
    destruct (psearch_sound ai (search_fuel ai) depth player (the_board w) Hp)
      with (alpha := alpha) (beta := beta) (alpha' := alpha) (beta' := beta)
      as (v & n & k & V & N & K & -> & -> & [F1 F2] & HnN & _ & [q ->] & [Q ->]); [|done|].
    { pose proof (empties_le ai (the_board w)). unfold search_fuel. lia. }
    exists q, (bump w n k), Q, (bump w N K). do 2 (split; [done|]).
    split; [|split; [|split]].
    + intros H. apply F1 in H. by apply Qle_bool_iff in H.
    + intros H. apply F2 in H. by apply Qle_bool_iff in H.
    + intros -> ->. specialize (F1 eq_refl). specialize (F2 eq_refl).
      apply Qle_bool_iff in F1, F2. lra.
    + simpl. lia.
Qed.

(** C7. [findBestMove] returns null exactly when the root candidate set is
    empty; on the empty 15 by 15 board it returns null for every player,
    search depth, search range and candidate count. *)
Theorem null_iff_no_candidates (ai : Settings) (w : World) (player : Z) :
  wf_board (boardSize ai) (the_board w) -> is_player player ->
  (exists r w' cs w'',
     findBestMove ai player w = Some (r, w')
     /\ generateCandidateMoves ai player w = Some (cs, w'')
     /\ (r = None <-> cs = []))
  /\ (forall ai' player', boardSize ai' = 15 ->
        exists w', findBestMove ai' player' (world_of (empty_board 15)) = Some (None, w')).
Proof.
  intros _ Hp. split.
  - unfold findBestMove. rewrite findBestMove_run, generateCandidateMoves_run.
    destruct (pfindBestMove_total ai true (the_board w) player Hp) as (r & -> & Hr).
    eexists _, _, _, _. do 2 (split; [done|]). done.
  - intros ai' player' Hsize. unfold findBestMove. rewrite findBestMove_run.
    unfold pfindBestMove. cbn [the_board world_of].
    rewrite (candidates_of_empty ai' 15 player') by done.
    eexists. done.
Qed.

Lemma proot_loop_unit rec b player beta :
  (forall b' a' b'' v n k, rec b' a' b'' = Some (v, n, k) -> n = 1) ->
  forall cs bm bs a bm' bs' n k l,
    proot_loop rec b player beta cs bm bs a = Some (bm', bs', n, k, l) ->
    n = Z.of_nat (length cs).
Proof.
  intros Hone. induction cs as [|[row col] rest IH]; intros bm bs a bm' bs' n k l H.
  - simpl in H. by inversion H.
  - simpl in H.
    destruct (rec (set_cell b row col player) (num_neg beta) (num_neg a))
      as [[[v n1] k1]|] eqn:E; [|done].
    apply Hone in E as ->.
    destruct (num_gt (num_neg v) bs).
    + destruct (proot_loop rec b player beta rest (Some (row, col)) (num_neg v) (num_neg v))
        as [[[[[bm1 bs1] n2] k2] l2]|] eqn:E2; [|done].
      apply IH in E2 as ->. inversion H; subst. simpl length. lia.
    + destruct (proot_loop rec b player beta rest bm bs a)
        as [[[[[bm1 bs1] n2] k2] l2]|] eqn:E2; [|done].
      apply IH in E2 as ->. inversion H; subst. simpl length. lia.
Qed.

(** ** The counters count the invocations *)

Lemma tree_loop_counts rec_p rec_t b player beta :
  (forall b0 a0 b0', rec_p b0 a0 b0' = counted (rec_t b0 a0 b0')) ->
  forall cs m a,
    psearch_loop true rec_p b player beta cs m a
    = match tree_loop rec_t b player beta cs m a with
      | Some (v, cut, ts) =>
          Some (v, total calls ts, (if cut then 1 else 0) + total cuts ts)
      | None => None
      end.
Proof.
  intros Hrec. induction cs as [|[row col] rest IH]; intros m a; [done|].
  cbn [psearch_loop tree_loop]. rewrite Hrec.
  destruct (rec_t (set_cell b row col player) (num_neg beta) (num_neg a)) as [[v t]|];
    [|done].
  cbn [counted andb].
  destruct (num_ge (num_max a (num_neg v)) beta).
  - unfold total. cbn [map foldr]. apply f_equal. apply f_equal2; [apply f_equal2; [reflexivity|lia]|lia].
  - rewrite IH.
    destruct (tree_loop rec_t b player beta rest _ _) as [[[v' cut] ts]|]; [|done].
    unfold total. cbn [map foldr]. apply f_equal. apply f_equal2; [apply f_equal2; [reflexivity|lia]|lia].
Qed.

Lemma search_tree_counts ai fuel : forall depth alpha beta player b,
  psearch ai true fuel depth alpha beta player b
  = counted (search_tree ai fuel depth alpha beta player b).
Proof.
  induction fuel as [|fuel IH]; intros depth alpha beta player b; [done|].
  cbn [psearch search_tree].
  destruct (depth =? 0); [done|].
  destruct (checkWinner ai b =? player); [done|].
  destruct (checkWinner ai b =? 3 - player); [done|].
  destruct (candidates_of ai b player) as [|c0 cs]; [done|].
  rewrite (tree_loop_counts _
             (fun b0 a' b' => search_tree ai fuel (depth - 1) a' b' (3 - player) b0))
    by (intros; apply IH).
  destruct (tree_loop _ b player beta (c0 :: cs) NegInf alpha) as [[[v cut] ts]|]; [|done].
  cbn [counted calls cuts]. unfold total. done.
Qed.

Lemma search_tree_root ai fuel depth alpha beta player b v t :
  search_tree ai fuel depth alpha beta player b = Some (v, t) ->
  exists cut children, t = Call b depth alpha beta player cut children.
Proof.
  destruct fuel as [|fuel]; [done|]. cbn [search_tree].
  destruct (depth =? 0); [intros [= <- <-]; by eexists _, _|].
  destruct (checkWinner ai b =? player); [intros [= <- <-]; by eexists _, _|].
  destruct (checkWinner ai b =? 3 - player); [intros [= <- <-]; by eexists _, _|].
  destruct (candidates_of ai b player) as [|c0 cs]; [intros [= <- <-]; by eexists _, _|].
  destruct (tree_loop _ b player beta (c0 :: cs) NegInf alpha) as [[[v' cut] ts]|]; [|done].
  intros [= <- <-]. by eexists _, _.
Qed.

Lemma root_tree_loop_counts rec_p rec_t b player beta :
  (forall b0 a0 b0', rec_p b0 a0 b0' = counted (rec_t b0 a0 b0')) ->
  forall cs bm bs a bm' bs' n k l,
    proot_loop rec_p b player beta cs bm bs a = Some (bm', bs', n, k, l) ->
    exists ts,
      root_tree_loop rec_t b player beta cs bs a = Some ts
      /\ length ts = length cs /\ n = total calls ts /\ k = total cuts ts.
Proof.
  intros Hrec. induction cs as [|[row col] rest IH]; intros bm bs a bm' bs' n k l H.
  - simpl in H. inversion H; subst. by exists [].
  - cbn [proot_loop root_tree_loop] in *. rewrite Hrec in H.
    destruct (rec_t (set_cell b row col player) (num_neg beta) (num_neg a)) as [[v t]|];
      [|done].
    cbn [counted] in H.
    destruct (num_gt (num_neg v) bs).
    + destruct (proot_loop rec_p b player beta rest _ _ _)
        as [[[[[bm1 bs1] n1] k1] l1]|] eqn:E; [|done].
      apply IH in E as (ts & -> & Hlen & -> & ->). inversion H; subst.
      exists (t :: ts). unfold total. cbn [map foldr length]. by rewrite Hlen.
    + destruct (proot_loop rec_p b player beta rest _ _ _)
        as [[[[[bm1 bs1] n1] k1] l1]|] eqn:E; [|done].
      apply IH in E as (ts & -> & Hlen & -> & ->). inversion H; subst.
      exists (t :: ts). unfold total. cbn [map foldr length]. by rewrite Hlen.
Qed.

Lemma root_calls_counts ai b player r :
  pfindBestMove ai true b player = Some r ->
  exists ts,
    root_calls ai b player = Some ts
    /\ length ts = length (candidates_of ai b player)
    /\ searchNodes (world_after b r) = total calls ts
    /\ pruningCount (world_after b r) = total cuts ts.
Proof.
  unfold pfindBestMove, root_calls.
  destruct (candidates_of ai b player) as [|c0 cs] eqn:Hcs.
  - intros [= <-]. by exists [].
  - destruct (proot_loop _ b player PosInf (c0 :: cs) None NegInf NegInf)
      as [[[[[bm bs] n] k] l]|] eqn:E; [|done].
    intros [= <-].
    apply (root_tree_loop_counts _
             (fun b0 a' b' => search_tree ai (search_fuel ai) (searchDepth ai - 1) a' b'
                                (3 - player) b0)) in E
      as (ts & Hts & Hlen & -> & ->); [|intros; apply search_tree_counts].
    by exists ts.
Qed.

Lemma root_tree_loop_roots rec b player beta (d : Z) (p' : Z) :
  (forall b0 a0 b0' v t, rec b0 a0 b0' = Some (v, t) ->
     exists cut children, t = Call b0 d a0 b0' p' cut children) ->
  forall cs bs a ts,
    root_tree_loop rec b player beta cs bs a = Some ts ->
    Forall2 (fun (m : Move) t =>
               exists a' b' cut children,
                 t = Call (set_cell b (fst m) (snd m) player) d a' b' p' cut children)
            cs ts.
Proof.
  intros Hrec. induction cs as [|[row col] rest IH]; intros bs a ts H.
  - simpl in H. inversion H. constructor.
  - cbn [root_tree_loop] in H.
    destruct (rec (set_cell b row col player) (num_neg beta) (num_neg a)) as [[v t]|] eqn:E;
      [|done].
    apply Hrec in E as (cut & children & ->).
    destruct (num_gt (num_neg v) bs).
    + destruct (root_tree_loop rec b player beta rest _ _) as [ts1|] eqn:E1; [|done].
      inversion H; subst. constructor; [by eexists _, _, _, _|by eapply IH].
    + destruct (root_tree_loop rec b player beta rest _ _) as [ts1|] eqn:E1; [|done].
      inversion H; subst. constructor; [by eexists _, _, _, _|by eapply IH].
Qed.

(** C9 (as the code has it). Both counters are reset by [findBestMove]: the
    outcome of a call does not depend on the counters and log it starts
    with.  [searchNodes] holds one increment per invocation of
    [alphaBetaSearch] and [pruningCount] one per loop left by a cut: a call
    of [alphaBetaSearch] adds to them the number of nodes and of cut nodes of
    its tree of invocations (so at least one node, and exactly one at depth
    0, where it does not recurse).  After [findBestMove] the two counters
    are the numbers of nodes and of cut nodes of the trees of the
    invocations made for the root candidates, one tree per candidate, and
    the values of the result; [findBestMove] itself is not counted, so
    [searchNodes] is at least the number [k] of root candidates, and with
    [searchDepth = 1] it is exactly [k]. *)
Theorem counters_per_call (ai : Settings) (w : World) (player : Z) :
  wf_board (boardSize ai) (the_board w) -> is_player player ->
  findBestMove ai player w = findBestMove ai player (world_of (the_board w))
  /\ (forall depth alpha beta, exists v w' t,
        alphaBetaSearch ai (search_fuel ai) depth alpha beta player w = Some (v, w')
        /\ search_tree ai (search_fuel ai) depth alpha beta player (the_board w) = Some (v, t)
        /\ (exists cut children,
              t = Call (the_board w) depth alpha beta player cut children)
        /\ searchNodes w' = searchNodes w + calls t
        /\ pruningCount w' = pruningCount w + cuts t
        /\ searchNodes w + 1 <= searchNodes w'
        /\ (depth = 0 -> searchNodes w' = searchNodes w + 1))
  /\ exists r w' cs w'' ts,
       findBestMove ai player w = Some (r, w')
       /\ generateCandidateMoves ai player w = Some (cs, w'')
       /\ root_calls ai (the_board w) player = Some ts
       /\ Forall2 (fun (m : Move) t =>
                     exists a' b' cut children,
                       t = Call (set_cell (the_board w) (fst m) (snd m) player)
                                (searchDepth ai - 1) a' b' (3 - player) cut children)
                  cs ts
       /\ searchNodes w' = total calls ts
       /\ pruningCount w' = total cuts ts
       /\ forall res, r = Some res ->
            searchNodes w' = res_searchNodes res
            /\ pruningCount w' = res_pruningCount res
            /\ Z.of_nat (length cs) <= res_searchNodes res
            /\ 0 <= res_pruningCount res
            /\ (searchDepth ai = 1 -> res_searchNodes res = Z.of_nat (length cs)).
Proof.
  intros _ Hp. unfold findBestMove. rewrite !findBestMove_run. split; [done|].
  split.
  { intros depth alpha beta. unfold alphaBetaSearch. rewrite search_run.
    destruct (psearch_total ai true (search_fuel ai) depth alpha beta player (the_board w) Hp)
      as (q & n & k & E & Hn & _).
    { pose proof (empties_le ai (the_board w)). unfold search_fuel. lia. }
    rewrite E. pose proof E as E'. rewrite search_tree_counts in E'.
    destruct (search_tree ai (search_fuel ai) depth alpha beta player (the_board w))
      as [[v t]|] eqn:Et; [|done].
    cbn [counted] in E'. inversion E'; subst v n k.
    exists (Fin q), (bump w (calls t) (cuts t)), t.
    split; [done|]. split; [done|].
    split; [by eapply search_tree_root|].
    cbn [bump searchNodes pruningCount]. do 2 (split; [done|]). split; [lia|].
    intros ->. unfold search_fuel in E. simpl in E. inversion E as [[Hq Hc Hk]].
    lia. }
  rewrite generateCandidateMoves_run.
  destruct (pfindBestMove_total ai true (the_board w) player Hp) as (r & Hr & _).
  rewrite Hr.
  destruct (root_calls_counts ai (the_board w) player r Hr) as (ts & Hts & Hlen & Hn & Hk).
  exists r, (world_after (the_board w) r), (candidates_of ai (the_board w) player), w, ts.
  do 3 (split; [done|]).
  split.
  { unfold root_calls in Hts.
    eapply root_tree_loop_roots; [|exact Hts].
    intros b0 a0 b0' v t Ht. cbn beta in Ht. by eapply search_tree_root. }
  do 2 (split; [done|]).
  intros res ->. cbn [world_after searchNodes pruningCount].
  do 2 (split; [done|]).
  unfold pfindBestMove in Hr.
  pose proof (root_candidates_return ai true (the_board w) player Hp) as Hret.
  destruct (candidates_of ai (the_board w) player) as [|c0 cs] eqn:Hcs; [done|].
  cbn beta iota in Hr.
  destruct (proot_loop_total _ (the_board w) player PosInf (c0 :: cs) None NegInf NegInf Hret)
    as (bm' & bs' & n' & k' & l' & E & Hn' & Hk').
  rewrite E in Hr. inversion Hr; subst res. cbn [res_searchNodes res_pruningCount].
  do 2 (split; [done|]).
  intros Hd. eapply proot_loop_unit; [|exact E].
  intros b' a' b'' v n k. rewrite Hd. unfold search_fuel. simpl.
  intros [= _ <- _]. done.
Qed.

(** C9 as stated fails: with [searchDepth = 1], on the board with one black
    stone at (7,7) and White to move, the root has 10 candidates and
    [searchNodes] is 10, not at least 11. *)
Lemma root_node_not_counted :
  exists res w' cs w'',
    findBestMove depth1_settings 2 (world_of one_stone_board) = Some (Some res, w')
    /\ generateCandidateMoves depth1_settings 2 (world_of one_stone_board) = Some (cs, w'')
    /\ ~ (Z.of_nat (length cs) + 1 <= res_searchNodes res).
Proof.
  eexists _, _, _, _. split; [vm_compute; reflexivity|].
  split; [vm_compute; reflexivity|]. vm_compute. intros H. by apply H.
Qed.

(** ** Construction *)

Lemma constructor_absent settings k :
  settings !! k = None ->
  GomokuAI_constructor settings !! k
  = (list_to_map
       [ ("searchDepth", js_or (prop settings "searchDepth") (VNumber 6));
         ("candidateCount", js_or (prop settings "candidateCount") (VNumber 10));
         ("searchRange", js_or (prop settings "searchRange") (VNumber 2));
         ("boardSize", VNumber 15);
         ("patternWeights", VObject default_weight_table) ] : gmap string jsval) !! k.
Proof. intros H. unfold GomokuAI_constructor. by rewrite lookup_union_r. Qed.

Lemma constructor_present settings k v :
  settings !! k = Some v -> GomokuAI_constructor settings !! k = Some v.
Proof. intros H. unfold GomokuAI_constructor. by apply lookup_union_Some_l. Qed.

Lemma default_table_weights : as_weights (VObject default_weight_table) = Some default_weights.
Proof. vm_compute. reflexivity. Qed.

(** C3 (as the code has it). A property of [searchDepth], [candidateCount],
    [searchRange], [patternWeights] that the caller's settings do not have
    takes the documented default; a property the caller gives with a truthy
    value is kept as given, whatever it is (a negative depth, a weight table
    with keys missing); construction always yields a settings object. *)
Theorem constructor_defaults (settings : gmap string jsval) :
  (settings !! "searchDepth" = None ->
     GomokuAI_constructor settings !! "searchDepth" = Some (VNumber 6))
  /\ (settings !! "candidateCount" = None ->
        GomokuAI_constructor settings !! "candidateCount" = Some (VNumber 10))
  /\ (settings !! "searchRange" = None ->
        GomokuAI_constructor settings !! "searchRange" = Some (VNumber 2))
  /\ (settings !! "patternWeights" = None ->
        GomokuAI_constructor settings !! "patternWeights" = Some (VObject default_weight_table)
        /\ default_weight_table !! "opponentThreat" = Some (- (8 # 10))%Q
        /\ as_weights (VObject default_weight_table) = Some default_weights)
  /\ (forall k v, settings !! k = Some v -> truthy v = true ->
        GomokuAI_constructor settings !! k = Some v).
Proof.
  repeat split.
  - intros H. rewrite constructor_absent by done. unfold prop. rewrite H. reflexivity.
  - intros H. rewrite constructor_absent by done. unfold prop. rewrite H. reflexivity.
  - intros H. rewrite constructor_absent by done. unfold prop. rewrite H. reflexivity.
  - rewrite constructor_absent by done. reflexivity.
  - intros k v H _. by apply constructor_present.
Qed.

(** C3 as stated fails: a zero [candidateCount], a negative [searchDepth]
    and a weight table without [opponentThreat] are all kept as given. *)
Lemma malformed_settings_kept :
  GomokuAI_constructor {[ "candidateCount" := VNumber 0 ]} !! "candidateCount"
  = Some (VNumber 0)
  /\ GomokuAI_constructor {[ "searchDepth" := VNumber (-3) ]} !! "searchDepth"
     = Some (VNumber (-3))
  /\ GomokuAI_constructor {[ "patternWeights" := VObject {[ "liveFive" := 1%Q ]} ]}
       !! "patternWeights"
     = Some (VObject {[ "liveFive" := 1%Q ]})
  /\ ({[ "liveFive" := 1%Q ]} : gmap string Q) !! "opponentThreat" = None.
Proof.
  repeat split; try (apply constructor_present; apply lookup_singleton_eq).
Qed.

(** ** Evaluation *)

(** C10. With the default weight table, [opponentThreat] is [-0.8], so
    [evaluateBoard] is the player's pattern score plus 0.8 times the
    opponent's: between two boards with the same score for the player, the
    one with the larger opponent score evaluates higher. *)
Theorem default_threat_adds (settings : gmap string jsval) (ai : Settings)
    (board board' : Board) (player : Z) :
  settings !! "patternWeights" = None ->
  settings_of (GomokuAI_constructor settings) = Some ai ->
  opponentThreat (patternWeights ai) = (- (8 # 10))%Q
  /\ (evaluateBoard ai board player
      == evaluatePatternsForPlayer ai board player
         + (8 # 10) * evaluatePatternsForPlayer ai board (3 - player))%Q
  /\ ((evaluatePatternsForPlayer ai board player
       == evaluatePatternsForPlayer ai board' player)%Q ->
      (evaluatePatternsForPlayer ai board (3 - player)
       < evaluatePatternsForPlayer ai board' (3 - player))%Q ->
      (evaluateBoard ai board player < evaluateBoard ai board' player)%Q).
Proof.
  intros Hw Hai.
  assert (Hpw : patternWeights ai = default_weights).
  { assert (Hl : GomokuAI_constructor settings !! "patternWeights"
                 = Some (VObject default_weight_table))
      by (rewrite constructor_absent by done; reflexivity).
    unfold settings_of, prop in Hai. rewrite Hl in Hai.
    change (default VUndefined (Some (VObject default_weight_table)))
      with (VObject default_weight_table) in Hai.
    rewrite default_table_weights in Hai.
    repeat match type of Hai with
           | context [as_integer ?x] =>
               destruct (as_integer x); [cbn [mbind option_bind] in Hai|discriminate Hai]
           end.
    by inversion Hai. }
  unfold evaluateBoard. rewrite Hpw. simpl opponentThreat.
  split; [done|]. split; [ring|]. intros H1 H2. lra.
Qed.

(** ** Quick evaluation of a move *)

Lemma getLineString_force size (b : Board) r c dx dy p opp x :
  (dx, dy) <> (0, 0) -> cell b r c = Some x ->
  getLineString size (set_cell b r c p) r c dx dy opp true
  = getLineString size (set_cell b r c opp) r c dx dy opp false.
Proof.
  intros Hd Hc. unfold getLineString. do 3 f_equal.
  apply map_ext. intros k.
  destruct (k =? 0) eqn:Hk; simpl.
  - apply Z.eqb_eq in Hk as ->.
    replace (r + 0 * dx) with r by lia. replace (c + 0 * dy) with c by lia.
    rewrite (cell_set_cell_eq _ _ _ _ _ Hc). unfold encode. simpl.
    by rewrite Z.eqb_refl.
  - apply Z.eqb_neq in Hk.
    assert (Hne : (r, c) <> (r + k * dx, c + k * dy)).
    { intros [= H1 H2]. apply Hd. f_equal; nia. }
    by rewrite !cell_set_cell_ne.
Qed.

(** C4 (as the code has it). On an empty cell [quickEvaluatePosition]
    returns the sum of the player's pattern scores over the four lines
    through the cell with the player's stone on it (taken once), plus 0.8
    times the same sum for the opponent with the opponent's stone on it, and
    leaves the cell empty again. *)
Theorem quick_evaluation (ai : Settings) (w : World) (row col player : Z) :
  wf_board (boardSize ai) (the_board w) ->
  cell (the_board w) row col = Some 0 ->
  exists q,
    quickEvaluatePosition ai row col player w = Some (q, w)
    /\ (q == lines_score ai (set_cell (the_board w) row col player) row col player false
             + (8 # 10) * lines_score ai (set_cell (the_board w) row col (3 - player))
                            row col (3 - player) false)%Q.
Proof.
  intros _ Hc. rewrite quickEvaluatePosition_run by done.
  eexists. split; [done|].
  unfold quick_score, lines_score, directions. simpl.
  rewrite !(getLineString_force _ _ _ _ _ _ player (3 - player) 0) by done.
  ring.
Qed.

(** C4 as stated fails: next to the single black stone the value for Black
    is the own-line sum 10 taken once, not doubled. *)
Lemma own_lines_not_doubled :
  exists q w',
    quickEvaluatePosition default_settings 7 8 1 (world_of one_stone_board) = Some (q, w')
    /\ ~ (q == 2 * lines_score default_settings (set_cell one_stone_board 7 8 1) 7 8 1 false
               + (8 # 10) * lines_score default_settings (set_cell one_stone_board 7 8 2)
                              7 8 2 false)%Q.
Proof.
  eexists _, _. split; [vm_compute; reflexivity|].
  vm_compute. discriminate.
Qed.

(** ** Pattern classifier *)

(** C5 fails on the code.  Row 7 of [split_four_board] encodes to the line
    below; the three stones in its middle are credited by the blocked-four
    rule (10111) and again by the open-three rule (01110), 800 in all, where
    carrying the neutralized copy across the rules gives 400. *)
Theorem shape_credited_twice :
  getRowString 15 split_four_board 7 1 = "21011101000000002"
  /\ regex_match ["011112"; "211110"; "10111"; "11011"; "11101"] "21011101000000002"
     = Some "10111"
  /\ regex_match ["01110"; "010110"; "011010"] "21011101000000002" = Some "01110"
  /\ (calculateLineScore default_weights "21011101000000002" == 800)%Q
  /\ (calculateLineScore_carried default_weights "21011101000000002" == 400)%Q.
Proof. repeat split; vm_compute; reflexivity. Qed.

(** ** Terminal detector *)

Lemma elem_of_scan_order ai r c :
  (r, c) ∈ scan_order ai <-> 0 <= r < boardSize ai /\ 0 <= c < boardSize ai.
Proof.
  unfold scan_order. rewrite list_elem_of_In, in_flat_map. split.
  - intros (row & Hrow & Hin). apply in_map_iff in Hin as (col & [= <- <-] & Hcol).
    apply list_elem_of_In, elem_of_seqZ in Hrow. apply list_elem_of_In, elem_of_seqZ in Hcol.
    lia.
  - intros [Hr Hc]. exists r. split.
    + apply list_elem_of_In, elem_of_seqZ. lia.
    + apply in_map_iff. exists c. split; [done|].
      apply list_elem_of_In, elem_of_seqZ. lia.
Qed.

Section RunCount.

Variable ai : Settings.
Variable b : Board.
Variables player dx dy : Z.

Lemma run_test r c :
  (r >=? 0) && (r <? boardSize ai) && (c >=? 0) && (c <? boardSize ai)
  && is_val (cell b r c) player = true <-> run_on ai b player r c.
Proof.
  unfold run_on. rewrite !andb_true_iff, is_val_true, !Z.geb_le, !Z.ltb_lt. tauto.
Qed.

Lemma run_count_lower fuel : forall r c cnt,
  cnt <= run_count ai fuel b player r c dx dy cnt.
Proof.
  induction fuel as [|fuel IH]; intros r c cnt; simpl; [lia|].
  destruct (_ && is_val (cell b r c) player); [|lia].
  specialize (IH (r + dx) (c + dy) (cnt + 1)). lia.
Qed.

Lemma run_count_ge j : forall fuel r c cnt,
  cnt + Z.of_nat j <= run_count ai fuel b player r c dx dy cnt
  <-> (j <= fuel)%nat
      /\ forall i : nat, (i < j)%nat -> run_on ai b player (r + Z.of_nat i * dx) (c + Z.of_nat i * dy).
Proof.
  induction j as [|j IH]; intros fuel r c cnt.
  - split.
    + intros _. split; [lia|]. intros i Hi. lia.
    + intros _. pose proof (run_count_lower fuel r c cnt). lia.
  - destruct fuel as [|fuel]; simpl run_count.
    { split; [lia|]. intros [H _]. lia. }
    destruct (_ && is_val (cell b r c) player) eqn:E.
    + apply run_test in E.
      replace (cnt + Z.of_nat (S j)) with (cnt + 1 + Z.of_nat j) by lia.
      rewrite IH. split.
      * intros [Hj Hi]. split; [lia|]. intros [|i] Hlt.
        -- replace (r + Z.of_nat 0 * dx) with r by lia.
           replace (c + Z.of_nat 0 * dy) with c by lia. done.
        -- specialize (Hi i ltac:(lia)).
           replace (r + Z.of_nat (S i) * dx) with (r + dx + Z.of_nat i * dx) by lia.
           replace (c + Z.of_nat (S i) * dy) with (c + dy + Z.of_nat i * dy) by lia.
           done.
      * intros [Hj Hi]. split; [lia|]. intros i Hlt.
        specialize (Hi (S i) ltac:(lia)).
        replace (r + Z.of_nat (S i) * dx) with (r + dx + Z.of_nat i * dx) in Hi by lia.
        replace (c + Z.of_nat (S i) * dy) with (c + dy + Z.of_nat i * dy) in Hi by lia.
        done.
    + split; [lia|]. intros [_ Hi]. specialize (Hi 0%nat ltac:(lia)).
      replace (r + Z.of_nat 0 * dx) with r in Hi by lia.
      replace (c + Z.of_nat 0 * dy) with c in Hi by lia.
      apply run_test in Hi. congruence.
Qed.

End RunCount.

Lemma hasFiveInARow_spec ai (b : Board) player :
  5 <= boardSize ai ->
  hasFiveInARow ai b player = true <-> has_five (boardSize ai) b player.
Proof.
  intros Hsize. unfold hasFiveInARow. rewrite existsb_exists. split.
  - intros ([row col] & Hin & H).
    apply list_elem_of_In, elem_of_scan_order in Hin.
    destruct (is_val (cell b row col) player) eqn:Hc; [cbn [negb] in H|done].
    apply is_val_true in Hc.
    apply existsb_exists in H as ([dx dy] & Hd & H).
    apply Z.geb_le in H.
    apply (run_count_ge ai b player dx dy 4 _ _ _ 1) in H as [_ H].
    exists row, col, dx, dy. split; [by apply list_elem_of_In|].
    intros k Hk. destruct (decide (k = 0)) as [->|Hk0].
    + replace (row + 0 * dx) with row by lia. replace (col + 0 * dy) with col by lia.
      repeat split; try lia. done.
    + specialize (H (Z.to_nat (k - 1)) ltac:(lia)). unfold run_on in H.
      rewrite Z2Nat.id in H by lia.
      replace (row + dx + (k - 1) * dx) with (row + k * dx) in H by ring.
      replace (col + dy + (k - 1) * dy) with (col + k * dy) in H by ring.
      done.
  - intros (r & c & dx & dy & Hd & H). unfold five_from in H.
    exists (r, c). split.
    + apply list_elem_of_In, elem_of_scan_order.
      destruct (H 0 ltac:(lia)) as (? & ? & _). lia.
    + pose proof (H 0 ltac:(lia)) as (_ & _ & H0).
      replace (r + 0 * dx) with r in H0 by lia. replace (c + 0 * dy) with c in H0 by lia.
      rewrite H0. cbn [is_val]. rewrite Z.eqb_refl. cbn [negb].
      apply existsb_exists. exists (dx, dy). split; [by apply list_elem_of_In|].
      apply Z.geb_le.
      apply (run_count_ge ai b player dx dy 4 _ _ _ 1). split; [lia|].
      intros i Hi. specialize (H (Z.of_nat i + 1) ltac:(lia)). unfold run_on.
      replace (r + dx + Z.of_nat i * dx) with (r + (Z.of_nat i + 1) * dx) by ring.
      replace (c + dy + Z.of_nat i * dy) with (c + (Z.of_nat i + 1) * dy) by ring.
      done.
Qed.

Lemma isBoardFull_spec ai (b : Board) :
  isBoardFull ai b = true <-> ~ has_empty (boardSize ai) b.
Proof.
  unfold isBoardFull, has_empty. rewrite negb_true_iff. split.
  - intros H (r & c & Hr & Hc & Hcell).
    assert (existsb (fun '(row, col) => is_val (cell b row col) 0) (scan_order ai) = true);
      [|congruence].
    apply existsb_exists. exists (r, c). split.
    + by apply list_elem_of_In, elem_of_scan_order.
    + by apply is_val_true.
  - intros H. apply not_true_is_false. intros He. apply H.
    apply existsb_exists in He as ([r c] & Hin & Hc).
    apply list_elem_of_In, elem_of_scan_order in Hin. apply is_val_true in Hc.
    exists r, c. tauto.
Qed.

Lemma isBoardFull_false ai (b : Board) :
  isBoardFull ai b = false <-> has_empty (boardSize ai) b.
Proof.
  unfold isBoardFull, has_empty. rewrite negb_false_iff, existsb_exists. split.
  - intros ([r c] & Hin & Hc).
    apply list_elem_of_In, elem_of_scan_order in Hin. apply is_val_true in Hc.
    exists r, c. tauto.
  - intros (r & c & Hr & Hc & Hcell). exists (r, c). split.
    + by apply list_elem_of_In, elem_of_scan_order.
    + by apply is_val_true.
Qed.

(** C6. [checkWinner] returns a player exactly when some player has five or
    more in a row along one of the four axes, and the player it returns has
    such a run: unless both players have a run at once, it returns a
    player's identifier exactly when that player has the run.  Black is
    looked at first, then White, and only then the empty cells: the result
    is 1 exactly when Black has a run, 2 exactly when White has and Black has
    not, the draw value 0 exactly when neither has and no cell is empty, and
    -1 exactly when neither has and some cell is empty. *)
Theorem checkWinner_spec (ai : Settings) (b : Board) :
  wf_board (boardSize ai) b -> 5 <= boardSize ai ->
  (checkWinner ai b = 1 <-> has_five (boardSize ai) b 1)
  /\ (checkWinner ai b = 2 <->
        has_five (boardSize ai) b 2 /\ ~ has_five (boardSize ai) b 1)
  /\ (checkWinner ai b = 0 <->
        ~ has_five (boardSize ai) b 1 /\ ~ has_five (boardSize ai) b 2
        /\ ~ has_empty (boardSize ai) b)
  /\ (checkWinner ai b = -1 <->
        ~ has_five (boardSize ai) b 1 /\ ~ has_five (boardSize ai) b 2
        /\ has_empty (boardSize ai) b)
  /\ (forall p, is_player p -> checkWinner ai b = p -> has_five (boardSize ai) b p)
  /\ (checkWinner ai b = 1 \/ checkWinner ai b = 2 <->
        has_five (boardSize ai) b 1 \/ has_five (boardSize ai) b 2)
  /\ (~ (has_five (boardSize ai) b 1 /\ has_five (boardSize ai) b 2) ->
        forall p, is_player p -> (checkWinner ai b = p <-> has_five (boardSize ai) b p)).
Proof.
  intros _ Hsize. unfold checkWinner.
  pose proof (hasFiveInARow_spec ai b 1 Hsize) as H1.
  pose proof (hasFiveInARow_spec ai b 2 Hsize) as H2.
  pose proof (isBoardFull_spec ai b) as H3.
  pose proof (isBoardFull_false ai b) as H4.
  split; [|split; [|split; [|split; [|split; [|split]]]]].
  7: intros Hboth p [-> | ->].
  5: intros p [-> | ->].
  all: destruct (hasFiveInARow ai b 1), (hasFiveInARow ai b 2), (isBoardFull ai b);
    simpl; intuition (try discriminate; try lia; try congruence).
Qed.

(** ** Candidate generator *)

Lemma js_slice0_nonneg {A} (l : list A) n :
  0 <= n -> js_slice0 l n = take (Z.to_nat n) l.
Proof.
  intros Hn. unfold js_slice0. destruct (n <? 0) eqn:E; [lia|].
  destruct (Z.le_gt_cases n (Z.of_nat (length l))).
  - by rewrite Z.min_l.
  - rewrite Z.min_r by lia. rewrite Nat2Z.id.
    rewrite !take_ge; [done|lia|lia].
Qed.

Lemma sort_insert_descending (f : Move -> Q) x l :
  descending f l ->
  descending f (sort_insert (fun a b => (f b - f a)%Q) x l).
Proof.
  unfold descending. induction 1 as [|y l Hs IH Hy]; simpl.
  - constructor; constructor.
  - destruct (Qle_bool (f y - f x) 0) eqn:E.
    + apply Qle_bool_iff in E. constructor; [by constructor|].
      constructor; [lra|]. eapply Forall_impl; [exact Hy|]. simpl. intros z Hz. lra.
    + apply Qle_bool_false in E. constructor; [done|].
      apply Forall_forall. intros z Hz.
      rewrite sort_insert_perm in Hz.
      apply elem_of_cons in Hz as [->|Hz]; [lra|].
      rewrite Forall_forall in Hy. by apply Hy.
Qed.

Lemma js_sort_descending (f : Move -> Q) l :
  descending f (js_sort (fun a b => (f b - f a)%Q) l).
Proof.
  induction l as [|x l IH]; simpl; [constructor|].
  by apply sort_insert_descending.
Qed.

Lemma eligible_near_centre ai stone :
  boardSize ai = 15 -> searchRange ai = 2 -> is_player stone ->
  filter (fun m => eligible ai (set_cell (empty_board 15) 7 7 stone) m = true) (scan_order ai)
  = near_centre.
Proof.
  intros Hsize Hrange Hstone. destruct ai as [d n r s wts]. simpl in Hsize, Hrange. subst.
  destruct Hstone as [-> | ->]; vm_compute; reflexivity.
Qed.

Lemma elem_of_near_centre r c :
  (r, c) ∈ near_centre <-> 0 < chebyshev (r, c) (7, 7) <= 2.
Proof.
  unfold chebyshev. simpl. split.
  - intros H. apply list_elem_of_In in H. vm_compute in H.
    repeat (destruct H as [[= <- <-]|H]; [lia|]). done.
  - intros H.
    assert (Hr : r = 5 \/ r = 6 \/ r = 7 \/ r = 8 \/ r = 9) by lia.
    assert (Hc : c = 5 \/ c = 6 \/ c = 7 \/ c = 8 \/ c = 9) by lia.
    apply list_elem_of_In.
    destruct Hr as [->|[->|[->|[->| ->]]]]; destruct Hc as [->|[->|[->|[->| ->]]]];
      try lia; vm_compute; tauto.
Qed.

(** C8. With one stone at (7,7) on the otherwise empty 15 by 15 board and
    [searchRange = 2], [generateCandidateMoves] returns the first
    [candidateCount] entries of a list that holds exactly the 24 empty cells
    at Chebyshev distance at most 2 from (7,7), each once, in descending
    order of their [quickEvaluatePosition] score. *)
Theorem candidate_restriction (ai : Settings) (w : World) (stone player : Z) :
  boardSize ai = 15 -> searchRange ai = 2 -> 0 <= candidateCount ai ->
  is_player stone -> the_board w = set_cell (empty_board 15) 7 7 stone ->
  exists ranked,
    generateCandidateMoves ai player w
    = Some (take (Z.to_nat (candidateCount ai)) ranked, w)
    /\ length ranked = 24%nat
    /\ NoDup ranked
    /\ (forall r c, (r, c) ∈ ranked <->
          0 < chebyshev (r, c) (7, 7) <= 2 /\ cell (the_board w) r c = Some 0)
    /\ (forall r c, (r, c) ∈ ranked ->
          quickEvaluatePosition ai r c player w
          = Some (quick_score ai (the_board w) r c player, w))
    /\ descending (fun m => quick_score ai (the_board w) (fst m) (snd m) player) ranked.
Proof.
  intros Hsize Hrange Hcount Hstone Hb.
  exists (ranked_moves ai (the_board w) player).
  assert (Hperm : ranked_moves ai (the_board w) player ≡ₚ near_centre).
  { unfold ranked_moves. rewrite js_sort_perm, Hb. by rewrite eligible_near_centre. }
  assert (Hempty : forall r c, (r, c) ∈ ranked_moves ai (the_board w) player ->
                     cell (the_board w) r c = Some 0).
  { intros r c Hin. unfold ranked_moves in Hin. rewrite js_sort_perm in Hin.
    apply list_elem_of_filter in Hin as [Hin _]. unfold eligible in Hin.
    apply andb_true_iff in Hin as [Hin _]. by apply is_val_true in Hin. }
  repeat split.
  - rewrite generateCandidateMoves_run. unfold candidates_of.
    by rewrite js_slice0_nonneg.
  - by rewrite Hperm.
  - rewrite Hperm. apply (bool_decide_unpack _). vm_compute. exact I.
  - rewrite Hperm in H. by apply elem_of_near_centre.
  - rewrite Hperm in H. by apply elem_of_near_centre.
  - by apply Hempty.
  - intros [Hd Hc]. rewrite Hperm. by apply elem_of_near_centre.
  - intros r c Hin. apply quickEvaluatePosition_run. by apply Hempty.
  - unfold ranked_moves, by_quick_score. apply js_sort_descending.
Qed.

(** ** The bounded loops stop by their own tests *)

(** The scan for [minK] returns the first offset from [-4] upwards that is on
    the board, and the scan for [maxK] the first from [4] downwards. *)
Lemma raise_minK_first (off : Z -> bool) :
  off 0 = false ->
  let k := raise_minK 5 off (-4) in
  off k = false /\ -4 <= k <= 0 /\ forall j, -4 <= j < k -> off j = true.
Proof.
  intros H0. cbv zeta. cbv [raise_minK].
  change (-4 + 1 + 1 + 1 + 1 + 1) with 1. change (-4 + 1 + 1 + 1 + 1) with 0.
  change (-4 + 1 + 1 + 1) with (-1). change (-4 + 1 + 1) with (-2).
  change (-4 + 1) with (-3).
  destruct (off (-4)) eqn:E4, (off (-3)) eqn:E3, (off (-2)) eqn:E2, (off (-1)) eqn:E1;
    simpl; rewrite ?H0;
    (split; [done|]; split; [lia|]; intros j Hj;
     destruct (decide (j = -4)) as [->|]; [first [done|lia]|];
     destruct (decide (j = -3)) as [->|]; [first [done|lia]|];
     destruct (decide (j = -2)) as [->|]; [first [done|lia]|];
     destruct (decide (j = -1)) as [->|]; [first [done|lia]|]; lia).
Qed.

Lemma lower_maxK_first (off : Z -> bool) :
  off 0 = false ->
  let k := lower_maxK 5 off 4 in
  off k = false /\ 0 <= k <= 4 /\ forall j, k < j <= 4 -> off j = true.
Proof.
  intros H0. cbv zeta. cbv [lower_maxK].
  change (4 - 1 - 1 - 1 - 1 - 1) with (-1). change (4 - 1 - 1 - 1 - 1) with 0.
  change (4 - 1 - 1 - 1) with 1. change (4 - 1 - 1) with 2. change (4 - 1) with 3.
  destruct (off 4) eqn:E4, (off 3) eqn:E3, (off 2) eqn:E2, (off 1) eqn:E1;
    simpl; rewrite ?H0;
    (split; [done|]; split; [lia|]; intros j Hj;
     destruct (decide (j = 4)) as [->|]; [first [done|lia]|];
     destruct (decide (j = 3)) as [->|]; [first [done|lia]|];
     destruct (decide (j = 2)) as [->|]; [first [done|lia]|];
     destruct (decide (j = 1)) as [->|]; [first [done|lia]|]; lia).
Qed.

(** Whether a run reaches five does not depend on the bound of the walk. *)
Lemma run_count_fuel ai (b : Board) player dx dy r c fuel fuel' :
  (4 <= fuel)%nat -> (4 <= fuel')%nat ->
  (run_count ai fuel b player r c dx dy 1 >=? 5)
  = (run_count ai fuel' b player r c dx dy 1 >=? 5).
Proof.
  intros Hf Hf'.
  pose proof (run_count_ge ai b player dx dy 4 fuel r c 1) as H.
  pose proof (run_count_ge ai b player dx dy 4 fuel' r c 1) as H'.
  change (1 + Z.of_nat 4) with 5 in H, H'.
  rewrite <- Z.geb_le in H, H'.
  destruct (run_count ai fuel b player r c dx dy 1 >=? 5);
    destruct (run_count ai fuel' b player r c dx dy 1 >=? 5); try done.
  - symmetry. apply H'. split; [done|]. by apply H.
  - apply H. split; [done|]. by apply H'.
Qed.

Lemma ones_append s t : ones (s +:+ t) = (ones s + ones t)%nat.
Proof. induction s as [|ch s IH]; simpl; [done|]. rewrite IH. lia. Qed.

Lemma ones_neutralize s : ones (neutralize s) = 0%nat.
Proof.
  induction s as [|ch s IH]; simpl; [done|].
  destruct (Ascii.eqb ch "1") eqn:E; simpl; [done|]. by rewrite E.
Qed.

Lemma ones_le_length s : (ones s <= String.length s)%nat.
Proof.
  induction s as [|ch s IH]; simpl; [done|].
  destruct (Ascii.eqb ch "1"); lia.
Qed.

Lemma prefix_ones m : forall s,
  String.prefix m s = true ->
  (ones (drop_chars (String.length m) s) + ones m = ones s)%nat.
Proof.
  induction m as [|a m IH]; intros s H; simpl.
  - destruct s; simpl; lia.
  - destruct s as [|b s]; simpl in H; [done|].
    destruct (ascii_dec a b) as [->|]; [|done].
    specialize (IH s H). simpl. lia.
Qed.

Lemma str_replace_ones m rep : forall s,
  occurs m s = true ->
  (ones (str_replace m rep s) + ones m = ones rep + ones s)%nat.
Proof.
  induction s as [|ch s IH]; intros H.
  - change (occurs m "") with (String.prefix m "" || false) in H.
    rewrite orb_false_r in H.
    change (str_replace m rep "")
      with (if String.prefix m "" then rep +:+ drop_chars (String.length m) "" else "").
    rewrite H, ones_append. pose proof (prefix_ones m "" H). lia.
  - change (occurs m (String ch s)) with (String.prefix m (String ch s) || occurs m s) in H.
    change (str_replace m rep (String ch s))
      with (if String.prefix m (String ch s)
            then rep +:+ drop_chars (String.length m) (String ch s)
            else String ch (str_replace m rep s)).
    destruct (String.prefix m (String ch s)) eqn:E.
    + rewrite ones_append. pose proof (prefix_ones m _ E). lia.
    + simpl in H. specialize (IH H). simpl. lia.
Qed.

Lemma match_here_prefix re s m :
  match_here re s = Some m -> In m re /\ String.prefix m s = true.
Proof.
  induction re as [|a re IH]; simpl; [done|].
  destruct (String.prefix a s) eqn:E.
  - intros [= <-]. auto.
  - intros H. apply IH in H. tauto.
Qed.

Lemma occurs_nil m : occurs m "" = String.prefix m "" || false.
Proof. reflexivity. Qed.

Lemma occurs_cons m ch s :
  occurs m (String ch s) = String.prefix m (String ch s) || occurs m s.
Proof. reflexivity. Qed.

Lemma regex_match_occurs re : forall s m,
  regex_match re s = Some m -> In m re /\ occurs m s = true.
Proof.
  induction s as [|ch s IH]; intros m H.
  - simpl in H. destruct (match_here re "") eqn:E; [|done].
    inversion H; subst. apply match_here_prefix in E as [? E].
    by rewrite occurs_nil, E.
  - simpl in H. destruct (match_here re (String ch s)) eqn:E.
    + inversion H; subst. apply match_here_prefix in E as [? E].
      split; [done|]. by rewrite occurs_cons, E.
    + apply IH in H as [? H]. split; [done|].
      rewrite occurs_cons, H. apply orb_true_r.
Qed.

(** Every alternative of every rule of the engine holds a 1. *)
Lemma patterns_have_ones re t m :
  In (re, t) patterns -> In m re -> (1 <= ones m)%nat.
Proof.
  intros Hre Hm. simpl in Hre.
  repeat (destruct Hre as [[= <- <-]|Hre];
          [simpl in Hm; repeat (destruct Hm as [<-|Hm]; [simpl; lia|]); done|]).
  done.
Qed.

(** The [while (true)] loop is left through its [break]: any bound above
    the number of 1s of the line gives the same score. *)
Lemma consume_enough re t wt :
  In (re, t) patterns ->
  forall fuel fuel' s score,
    (ones s < fuel)%nat -> (ones s < fuel')%nat ->
    consume fuel re wt s score = consume fuel' re wt s score.
Proof.
  intros Hre. induction fuel as [|fuel IH]; intros fuel' s score Hf Hf'; [lia|].
  destruct fuel' as [|fuel']; [lia|]. simpl.
  destruct (regex_match re s) as [m|] eqn:E; [|done].
  apply regex_match_occurs in E as [Hm Hocc].
  pose proof (patterns_have_ones re t m Hre Hm).
  pose proof (str_replace_ones m (neutralize m) s Hocc) as Hones.
  rewrite ones_neutralize in Hones.
  apply IH; lia.
Qed.

Lemma calculateLineScore_fuel re t wt s score fuel :
  In (re, t) patterns -> (String.length s < fuel)%nat ->
  consume fuel re wt s score = consume (S (String.length s)) re wt s score.
Proof.
  intros Hre Hf. pose proof (ones_le_length s).
  apply (consume_enough re t wt Hre); lia.
Qed.

(** ** More fuel changes nothing *)

Lemma psearch_loop_mono prune rec rec' b player beta :
  (forall b' a' b'' r, rec b' a' b'' = Some r -> rec' b' a' b'' = Some r) ->
  forall cs m a r,
    psearch_loop prune rec b player beta cs m a = Some r ->
    psearch_loop prune rec' b player beta cs m a = Some r.
Proof.
  intros Hrec. induction cs as [|[row col] rest IH]; intros m a r H; [done|].
  simpl in *.
  destruct (rec (set_cell b row col player) (num_neg beta) (num_neg a))
    as [[[v n] k]|] eqn:E; [|done].
  rewrite (Hrec _ _ _ _ E).
  destruct (prune && num_ge (num_max a (num_neg v)) beta); [done|].
  destruct (psearch_loop prune rec b player beta rest (num_max m (num_neg v))
              (num_max a (num_neg v))) as [r'|] eqn:E'; [|done].
  by rewrite (IH _ _ _ E').
Qed.

Section Fuel.

Variable ai : Settings.
Variable prune : bool.

Local Arguments psearch_loop : simpl never.

Lemma psearch_fuel_mono fuel : forall fuel' depth alpha beta player b r,
  (fuel <= fuel')%nat ->
  psearch ai prune fuel depth alpha beta player b = Some r ->
  psearch ai prune fuel' depth alpha beta player b = Some r.
Proof.
  induction fuel as [|fuel IH]; intros fuel' depth alpha beta player b r Hle H; [done|].
  destruct fuel' as [|fuel']; [lia|].
  simpl in *.
  destruct (depth =? 0); [done|].
  destruct (checkWinner ai b =? player); [done|].
  destruct (checkWinner ai b =? 3 - player); [done|].
  destruct (candidates_of ai b player) as [|c0 cs]; [done|].
  match type of H with
  | context [psearch_loop ?p ?r ?b ?pl ?be ?c ?m ?a] =>
      destruct (psearch_loop p r b pl be c m a) as [[[v n] k]|] eqn:E; [|done]
  end.
  rewrite (psearch_loop_mono _ _ _ _ _ _
             (fun b' a' b'' r' Hr => IH fuel' _ _ _ _ _ _ ltac:(lia) Hr) _ _ _ _ E).
  exact H.
Qed.

(** A search that returns with some fuel returns the same with more. *)
Lemma search_fuel_mono fuel fuel' depth alpha beta player w r :
  (fuel <= fuel')%nat ->
  search ai prune fuel depth alpha beta player w = Some r ->
  search ai prune fuel' depth alpha beta player w = Some r.
Proof.
  intros Hle. rewrite !search_run. unfold lift.
  destruct (psearch ai prune fuel depth alpha beta player (the_board w)) as [x|] eqn:E;
    [|done].
  by rewrite (psearch_fuel_mono _ _ _ _ _ _ _ _ Hle E).
Qed.

End Fuel.

(** ** The claims at concrete positions *)

Ltac wf_concrete := split; [vm_compute; reflexivity|vm_compute; repeat constructor].

Lemma board_restoration_witness :
  wf_board 15 one_stone_board /\ is_player 2
  /\ (exists r w',
        findBestMove depth1_settings 2 (world_of one_stone_board) = Some (r, w')
        /\ the_board w' = one_stone_board)
  /\ (exists v w',
        quickEvaluatePosition depth1_settings 0 0 2 (world_of one_stone_board) = Some (v, w')
        /\ the_board w' = one_stone_board).
Proof.
  assert (Hwf : wf_board (boardSize depth1_settings) (the_board (world_of one_stone_board)))
    by wf_concrete.
  assert (Hp : is_player 2) by (right; reflexivity).
  destruct (board_restoration depth1_settings (world_of one_stone_board) 2 Hwf Hp)
    as (H1 & _ & _ & H4).
  split; [exact Hwf|]. split; [exact Hp|]. split; [exact H1|].
  apply H4. reflexivity.
Defined.

Lemma pruning_soundness_witness :
  wf_board 15 one_stone_board /\ is_player 2
  /\ exists res res' w1 w2,
       findBestMove depth2_settings 2 (world_of one_stone_board) = Some (Some res, w1)
       /\ findBestMove_exhaustive depth2_settings 2 (world_of one_stone_board)
          = Some (Some res', w2)
       /\ move res = move res'
       /\ res_searchNodes res = 29 /\ res_pruningCount res = 9
       /\ res_searchNodes res' = 110 /\ res_pruningCount res' = 0.
Proof.
  assert (Hwf : wf_board (boardSize depth2_settings) (the_board (world_of one_stone_board)))
    by wf_concrete.
  assert (Hp : is_player 2) by (right; reflexivity).
  split; [exact Hwf|]. split; [exact Hp|].
  destruct (pruning_soundness depth2_settings (world_of one_stone_board) 2 Hwf Hp)
    as [(r & r' & w1 & w2 & H1 & H2 & Hm & _) _].
  assert (E1 : option_map (fun x => option_map (fun res => (res_searchNodes res,
                                                            res_pruningCount res)) (fst x))
                 (findBestMove depth2_settings 2 (world_of one_stone_board))
               = Some (Some (29, 9))) by (vm_compute; reflexivity).
  assert (E2 : option_map (fun x => option_map (fun res => (res_searchNodes res,
                                                            res_pruningCount res)) (fst x))
                 (findBestMove_exhaustive depth2_settings 2 (world_of one_stone_board))
               = Some (Some (110, 0))) by (vm_compute; reflexivity).
  rewrite H1 in E1. rewrite H2 in E2. cbn [option_map fst] in E1, E2.
  destruct r as [res|]; [|discriminate E1]. destruct r' as [res'|]; [|discriminate E2].
  cbn [option_map] in E1, E2, Hm.
  injection E1 as En Ek. injection E2 as En' Ek'. injection Hm as Hm.
  exists res, res', w1, w2. split; [exact H1|]. split; [exact H2|]. split; [exact Hm|].
  split; [exact En|]. split; [exact Ek|]. split; [exact En'|exact Ek'].
Defined.

Lemma null_iff_no_candidates_witness :
  wf_board 15 one_stone_board /\ is_player 2
  /\ (exists r w' cs w'',
        findBestMove depth1_settings 2 (world_of one_stone_board) = Some (r, w')
        /\ generateCandidateMoves depth1_settings 2 (world_of one_stone_board) = Some (cs, w'')
        /\ (r = None <-> cs = []))
  /\ exists w', findBestMove default_settings 1 (world_of (empty_board 15)) = Some (None, w').
Proof.
  assert (Hwf : wf_board (boardSize depth1_settings) (the_board (world_of one_stone_board)))
    by wf_concrete.
  assert (Hp : is_player 2) by (right; reflexivity).
  destruct (null_iff_no_candidates depth1_settings (world_of one_stone_board) 2 Hwf Hp)
    as [H1 H2].
  split; [exact Hwf|]. split; [exact Hp|]. split; [exact H1|].
  apply H2. reflexivity.
Defined.

Lemma counters_per_call_witness :
  wf_board 15 one_stone_board /\ is_player 2
  /\ findBestMove depth2_settings 2
       {| the_board := one_stone_board; searchNodes := 41; pruningCount := 7; logs := [] |}
     = findBestMove depth2_settings 2 (world_of one_stone_board)
  /\ exists r w' ts,
       findBestMove depth2_settings 2
         {| the_board := one_stone_board; searchNodes := 41; pruningCount := 7; logs := [] |}
       = Some (r, w')
       /\ root_calls depth2_settings one_stone_board 2 = Some ts
       /\ length ts = 10%nat
       /\ searchNodes w' = total calls ts /\ searchNodes w' = 29
       /\ pruningCount w' = total cuts ts /\ pruningCount w' = 9.
Proof.
  assert (Hwf : wf_board (boardSize depth2_settings)
                  (the_board {| the_board := one_stone_board; searchNodes := 41;
                                pruningCount := 7; logs := [] |}))
    by wf_concrete.
  assert (Hp : is_player 2) by (right; reflexivity).
  destruct (counters_per_call depth2_settings _ 2 Hwf Hp)
    as (H1 & _ & r & w' & cs & w'' & ts & Hf & Hcs & Hts & Hroots & Hn & Hk & _).
  split; [exact Hwf|]. split; [exact Hp|]. split; [exact H1|].
  exists r, w', ts. split; [exact Hf|]. split; [exact Hts|].
  assert (Ec : option_map (fun x => length (fst x))
                 (generateCandidateMoves depth2_settings 2
                    {| the_board := one_stone_board; searchNodes := 41; pruningCount := 7;
                       logs := [] |}) = Some 10%nat) by (vm_compute; reflexivity).
  rewrite Hcs in Ec. injection Ec as Ec.
  assert (Ew : option_map (fun x => (searchNodes (snd x), pruningCount (snd x)))
                 (findBestMove depth2_settings 2
                    {| the_board := one_stone_board; searchNodes := 41; pruningCount := 7;
                       logs := [] |}) = Some (29, 9)) by (vm_compute; reflexivity).
  rewrite Hf in Ew. injection Ew as En Ek.
  split; [rewrite <- (Forall2_length _ _ _ Hroots); exact Ec|].
  split; [exact Hn|]. split; [exact En|]. split; [exact Hk|exact Ek].
Defined.

Lemma constructor_defaults_witness :
  GomokuAI_constructor {[ "searchDepth" := VNumber (-3) ]} !! "candidateCount"
  = Some (VNumber 10)
  /\ GomokuAI_constructor {[ "searchDepth" := VNumber (-3) ]} !! "searchDepth"
     = Some (VNumber (-3)).
Proof.
  destruct (constructor_defaults {[ "searchDepth" := VNumber (-3) ]})
    as (_ & H2 & _ & _ & H5).
  split.
  - apply H2. vm_compute. reflexivity.
  - apply H5; vm_compute; reflexivity.
Defined.

Lemma default_threat_adds_witness :
  (∅ : gmap string jsval) !! "patternWeights" = None
  /\ settings_of (GomokuAI_constructor ∅) = Some default_settings
  /\ opponentThreat (patternWeights default_settings) = (- (8 # 10))%Q
  /\ (evaluateBoard default_settings (empty_board 15) 1
      < evaluateBoard default_settings white_pair_board 1)%Q.
Proof.
  assert (H1 : (∅ : gmap string jsval) !! "patternWeights" = None) by reflexivity.
  assert (H2 : settings_of (GomokuAI_constructor ∅) = Some default_settings)
    by (vm_compute; reflexivity).
  destruct (default_threat_adds ∅ default_settings (empty_board 15) white_pair_board 1 H1 H2)
    as (H3 & _ & H5).
  split; [exact H1|]. split; [exact H2|]. split; [exact H3|].
  apply H5; vm_compute; reflexivity.
Defined.

Lemma quick_evaluation_witness :
  wf_board 15 one_stone_board /\ cell one_stone_board 7 8 = Some 0
  /\ exists q,
       quickEvaluatePosition default_settings 7 8 1 (world_of one_stone_board)
       = Some (q, world_of one_stone_board)
       /\ (q == lines_score default_settings (set_cell one_stone_board 7 8 1) 7 8 1 false
                + (8 # 10) * lines_score default_settings (set_cell one_stone_board 7 8 2)
                               7 8 2 false)%Q.
Proof.
  assert (Hwf : wf_board (boardSize default_settings) (the_board (world_of one_stone_board)))
    by wf_concrete.
  assert (Hc : cell (the_board (world_of one_stone_board)) 7 8 = Some 0) by reflexivity.
  split; [exact Hwf|]. split; [exact Hc|].
  exact (quick_evaluation default_settings (world_of one_stone_board) 7 8 1 Hwf Hc).
Defined.

Lemma checkWinner_spec_witness :
  wf_board 15 split_four_board /\ 5 <= 15
  /\ (checkWinner default_settings both_five_board = 1 <-> has_five 15 both_five_board 1)
  /\ (forall p, is_player p ->
        (checkWinner default_settings split_four_board = p <-> has_five 15 split_four_board p)).
Proof.
  assert (Hwf : wf_board (boardSize default_settings) both_five_board) by wf_concrete.
  assert (Hwf' : wf_board (boardSize default_settings) split_four_board) by wf_concrete.
  assert (Hs : 5 <= boardSize default_settings) by (vm_compute; discriminate).
  split; [exact Hwf'|]. split; [exact Hs|].
  split; [exact (proj1 (checkWinner_spec default_settings both_five_board Hwf Hs))|].
  destruct (checkWinner_spec default_settings split_four_board Hwf' Hs)
    as (H1 & _ & _ & _ & _ & _ & H7).
  assert (E : checkWinner default_settings split_four_board = -1)
    by (vm_compute; reflexivity).
  apply H7. intros [Hblack _]. apply H1 in Hblack. rewrite E in Hblack. discriminate Hblack.
Defined.

Lemma candidate_restriction_witness :
  boardSize default_settings = 15 /\ searchRange default_settings = 2
  /\ 0 <= candidateCount default_settings /\ is_player 1
  /\ exists ranked,
       generateCandidateMoves default_settings 2 (world_of one_stone_board)
       = Some (take 10 ranked, world_of one_stone_board)
       /\ length ranked = 24%nat.
Proof.
  assert (H1 : boardSize default_settings = 15) by reflexivity.
  assert (H2 : searchRange default_settings = 2) by reflexivity.
  assert (H3 : 0 <= candidateCount default_settings) by (vm_compute; discriminate).
  assert (H4 : is_player 1) by (left; reflexivity).
  assert (H5 : the_board (world_of one_stone_board) = set_cell (empty_board 15) 7 7 1)
    by reflexivity.
  destruct (candidate_restriction default_settings (world_of one_stone_board) 1 2
              H1 H2 H3 H4 H5) as (ranked & Hg & Hl & _).
  split; [exact H1|]. split; [exact H2|]. split; [exact H3|]. split; [exact H4|].
  exists ranked. split; [exact Hg|exact Hl].
Defined.

(** * Further properties of the engine *)

(** ** Candidate generator *)

(** The window of [hasNearbyPieces], as distances. *)
Lemma hasNearbyPieces_window (ai : Settings) (b : Board) (row col range : Z) :
  hasNearbyPieces ai b row col range = true <->
  exists r c, 0 <= r < boardSize ai /\ 0 <= c < boardSize ai
              /\ chebyshev (r, c) (row, col) <= range /\ cell b r c <> Some 0.
Proof.
  unfold hasNearbyPieces, chebyshev. simpl. rewrite existsb_exists. split.
  - intros (r & Hr & H). apply existsb_exists in H as (c & Hc & H).
    apply list_elem_of_In, elem_of_seqZ in Hr. apply list_elem_of_In, elem_of_seqZ in Hc.
    exists r, c. repeat split; try lia.
    intros Hz. apply is_val_true in Hz. by rewrite Hz in H.
  - intros (r & c & Hr & Hc & Hd & Hz). exists r. split.
    + apply list_elem_of_In, elem_of_seqZ. lia.
    + apply existsb_exists. exists c. split.
      * apply list_elem_of_In, elem_of_seqZ. lia.
      * destruct (is_val (cell b r c) 0) eqn:E; [|done].
        apply is_val_true in E. done.
Qed.

(** X1. [hasNearbyPieces] answers whether some cell of the grid within
    Chebyshev distance [range] of [(row, col)] holds something else than 0;
    the cell itself is among the cells looked at. *)
Theorem hasNearbyPieces_spec (ai : Settings) (b : Board) (row col range : Z) :
  hasNearbyPieces ai b row col range = true <->
  exists r c, 0 <= r < boardSize ai /\ 0 <= c < boardSize ai
              /\ chebyshev (r, c) (row, col) <= range /\ cell b r c <> Some 0.
Proof. apply hasNearbyPieces_window. Qed.

Lemma NoDup_scan_order ai : NoDup (scan_order ai).
Proof.
  unfold scan_order.
  assert (H : forall rows : list Z, NoDup rows ->
            NoDup (flat_map (fun row => map (fun col => (row, col)) (seqZ 0 (boardSize ai))) rows)).
  { induction 1 as [|row rows Hnot Hnd IH]; simpl; [constructor|].
    apply NoDup_app. split; [|split; [|done]].
    - apply NoDup_fmap_2; [|apply NoDup_seqZ]. intros x y [= ->]. done.
    - intros [r c] Hin Hin'. apply list_elem_of_In, in_map_iff in Hin as (c' & [= <- <-] & _).
      apply list_elem_of_In, in_flat_map in Hin' as (row' & Hrow' & Hin').
      apply in_map_iff in Hin' as (c'' & [= <- <-] & _).
      apply Hnot. by apply list_elem_of_In. }
  apply H, NoDup_seqZ.
Qed.

Lemma eligible_spec ai (b : Board) r c :
  (r, c) ∈ scan_order ai /\ eligible ai b (r, c) = true <->
  0 <= r < boardSize ai /\ 0 <= c < boardSize ai /\ cell b r c = Some 0
  /\ exists r' c', 0 <= r' < boardSize ai /\ 0 <= c' < boardSize ai
                   /\ chebyshev (r', c') (r, c) <= searchRange ai /\ cell b r' c' <> Some 0.
Proof.
  rewrite elem_of_scan_order. unfold eligible. simpl.
  rewrite andb_true_iff, is_val_true, hasNearbyPieces_window. tauto.
Qed.

Lemma js_slice0_length {A} (l : list A) n :
  0 <= n -> Z.of_nat (length (js_slice0 l n)) = Z.min n (Z.of_nat (length l)).
Proof. intros Hn. rewrite js_slice0_nonneg by done. rewrite length_take. lia. Qed.

(** X2. [generateCandidateMoves] leaves the board and the counters as they
    were and returns [ranked.slice(0, candidateCount)], where [ranked] lists,
    each once, exactly the empty cells of the grid that have a non-empty cell
    within Chebyshev distance [searchRange], best quick score first.  A
    non-negative [candidateCount] keeps the first [candidateCount] of them
    (all of them if there are fewer); a negative one drops that many from the
    end of the ranking. *)
Theorem generateCandidateMoves_spec (ai : Settings) (w : World) (player : Z) :
  exists ranked,
    generateCandidateMoves ai player w
    = Some (js_slice0 ranked (candidateCount ai), w)
    /\ NoDup ranked
    /\ (forall r c, (r, c) ∈ ranked <->
          0 <= r < boardSize ai /\ 0 <= c < boardSize ai
          /\ cell (the_board w) r c = Some 0
          /\ exists r' c', 0 <= r' < boardSize ai /\ 0 <= c' < boardSize ai
                           /\ chebyshev (r', c') (r, c) <= searchRange ai
                           /\ cell (the_board w) r' c' <> Some 0)
    /\ descending (fun m => quick_score ai (the_board w) (fst m) (snd m) player) ranked
    /\ (0 <= candidateCount ai ->
          js_slice0 ranked (candidateCount ai) = take (Z.to_nat (candidateCount ai)) ranked)
    /\ (candidateCount ai < 0 ->
          js_slice0 ranked (candidateCount ai)
          = take (length ranked - Z.to_nat (- candidateCount ai)) ranked).
Proof.
  exists (ranked_moves ai (the_board w) player). split; [|split; [|split; [|split; [|split]]]].
  - by rewrite generateCandidateMoves_run.
  - unfold ranked_moves. rewrite js_sort_perm. apply NoDup_filter, NoDup_scan_order.
  - intros r c. unfold ranked_moves. rewrite js_sort_perm, list_elem_of_filter.
    rewrite <- eligible_spec. tauto.
  - unfold ranked_moves, by_quick_score. apply js_sort_descending.
  - intros H. by apply js_slice0_nonneg.
  - intros H. unfold js_slice0. destruct (candidateCount ai <? 0) eqn:E; [|lia].
    f_equal. lia.
Qed.

Lemma sort_insert_filter {A} (f : A -> Q) (P : A -> Prop) `{!forall x, Decision (P x)} x l :
  (forall y, P y -> ~ (f x < f y)%Q) ->
  filter P (sort_insert (fun a b => (f b - f a)%Q) x l)
  = filter P (x :: l).
Proof.
  intros HP. induction l as [|y l IH]; simpl; [done|].
  destruct (Qle_bool (f y - f x) 0) eqn:E; [done|].
  apply Qle_bool_false in E.
  rewrite filter_cons, IH, !filter_cons.
  destruct (decide (P y)) as [Hy|Hy]; [|done].
  exfalso. apply (HP y Hy). lra.
Qed.

Lemma sort_insert_filter_out {A} (cmp : A -> A -> Q) (P : A -> Prop)
    `{!forall x, Decision (P x)} x l :
  ~ P x -> filter P (sort_insert cmp x l) = filter P l.
Proof.
  intros Hx. induction l as [|y l IH]; simpl.
  - by rewrite filter_cons, decide_False.
  - destruct (Qle_bool (cmp x y) 0).
    + by rewrite filter_cons, decide_False.
    + by rewrite !filter_cons, IH.
Qed.

Lemma js_sort_stable {A} (f : A -> Q) (q : Q) l :
  filter (fun x => Qeq_bool (f x) q = true) (js_sort (fun a b => (f b - f a)%Q) l)
  = filter (fun x => Qeq_bool (f x) q = true) l.
Proof.
  induction l as [|x l IH]; simpl; [done|].
  destruct (decide (Qeq_bool (f x) q = true)) as [Hx|Hx].
  - rewrite sort_insert_filter.
    + by rewrite !filter_cons, IH.
    + intros y Hy. apply Qeq_bool_iff in Hx, Hy. lra.
  - rewrite sort_insert_filter_out by done.
    by rewrite filter_cons, decide_False, IH.
Qed.

(** X3. Ties keep the scan order: in the ranking that
    [generateCandidateMoves] truncates, the moves with one and the same quick
    score [q] appear in the row-major order in which the grid was scanned. *)
Theorem ranking_is_stable (ai : Settings) (w : World) (player : Z) (q : Q) :
  exists ranked,
    generateCandidateMoves ai player w = Some (js_slice0 ranked (candidateCount ai), w)
    /\ filter (fun m => Qeq_bool (quick_score ai (the_board w) (fst m) (snd m) player) q = true)
              ranked
       = filter (fun m => Qeq_bool (quick_score ai (the_board w) (fst m) (snd m) player) q = true)
                (filter (fun m => eligible ai (the_board w) m = true) (scan_order ai)).
Proof.
  exists (ranked_moves ai (the_board w) player). split.
  - by rewrite generateCandidateMoves_run.
  - unfold ranked_moves, by_quick_score. apply js_sort_stable.
Qed.

Lemma set_cell_set_cell (b : Board) r c v v' :
  set_cell (set_cell b r c v) r c v' = set_cell b r c v'.
Proof.
  unfold set_cell. destruct ((r <? 0) || (c <? 0)); [done|].
  apply list_eq. intros i.
  destruct (decide (i = Z.to_nat r)) as [->|Hi].
  - rewrite !list_lookup_alter_eq. destruct (b !! Z.to_nat r); simpl; [|done].
    by rewrite list_insert_insert_eq.
  - by rewrite !list_lookup_alter_ne.
Qed.

(** X4. [quickEvaluatePosition] does not look at what the cell holds: called
    on a cell of the grid that carries a stone it returns a score and leaves
    the cell empty, the rest of the board unchanged. *)
Theorem quickEvaluatePosition_clears (ai : Settings) (w : World) (row col player v : Z) :
  cell (the_board w) row col = Some v ->
  exists q w',
    quickEvaluatePosition ai row col player w = Some (q, w')
    /\ the_board w' = set_cell (the_board w) row col 0
    /\ cell (the_board w') row col = Some 0
    /\ (forall r c, (r, c) <> (row, col) -> cell (the_board w') r c = cell (the_board w) r c)
    /\ searchNodes w' = searchNodes w /\ pruningCount w' = pruningCount w.
Proof.
  intros Hc. unfold quickEvaluatePosition, bind, write_cell, read_board, ret. simpl.
  eexists _, _. split; [done|]. simpl. rewrite set_cell_set_cell.
  split; [done|]. split; [by eapply cell_set_cell_eq|]. split; [|done].
  intros r c Hne. apply cell_set_cell_ne. congruence.
Qed.

Lemma quickEvaluatePosition_clears_witness :
  cell one_stone_board 7 7 = Some 1
  /\ exists q w',
       quickEvaluatePosition default_settings 7 7 2 (world_of one_stone_board) = Some (q, w')
       /\ cell (the_board w') 7 7 = Some 0.
Proof.
  assert (Hc : cell (the_board (world_of one_stone_board)) 7 7 = Some 1) by reflexivity.
  split; [exact Hc|].
  destruct (quickEvaluatePosition_clears default_settings (world_of one_stone_board) 7 7 2 1 Hc)
    as (q & w' & H1 & _ & H3 & _).
  exists q, w'. split; [exact H1|exact H3].
Defined.

(** ** Pattern classifier and evaluator *)

Lemma occurs_ones_le m s : occurs m s = true -> (ones m <= ones s)%nat.
Proof. intros H. pose proof (str_replace_ones m "" s H). simpl in *. lia. Qed.

Lemma regex_match_no_ones re t s :
  In (re, t) patterns -> ones s = 0%nat -> regex_match re s = None.
Proof.
  intros Hre Hs. destruct (regex_match re s) as [m|] eqn:E; [|done].
  apply regex_match_occurs in E as [Hm Hocc].
  pose proof (patterns_have_ones re t m Hre Hm).
  apply occurs_ones_le in Hocc. lia.
Qed.

Lemma score_fold_no_match (w : PatternWeights) s (rules : list (regex * PatternType)) acc :
  (forall re t, In (re, t) rules -> regex_match re s = None) ->
  fold_left (fun score '(re, t) =>
               match regex_match re s with
               | Some _ => consume (S (String.length s)) re (weight w t) s score
               | None => score
               end) rules acc = acc.
Proof.
  revert acc. induction rules as [|[re t] rules IH]; intros acc H; simpl; [done|].
  rewrite (H re t) by (by left). apply IH. intros re' t' Hin. apply (H re' t'). by right.
Qed.

Lemma calculateLineScore_no_ones w s : ones s = 0%nat -> calculateLineScore w s = 0%Q.
Proof.
  intros Hs. unfold calculateLineScore. apply score_fold_no_match.
  intros re t Hin. by eapply regex_match_no_ones.
Qed.

Lemma ones_str_of l : (forall ch, In ch l -> ch <> "1"%char) -> ones (str_of l) = 0%nat.
Proof.
  induction l as [|ch l IH]; intros H; simpl; [done|].
  destruct (Ascii.eqb ch "1") eqn:E.
  - apply Ascii.eqb_eq in E. exfalso. apply (H ch); [by left|done].
  - apply IH. intros ch' Hin. apply H. by right.
Qed.

Lemma ones_bracket s : ones ("2" +:+ s +:+ "2") = ones s.
Proof. rewrite !ones_append. simpl. lia. Qed.

Lemma encode_not_one player val : val <> Some player -> encode player val <> "1"%char.
Proof.
  intros H. unfold encode. destruct (is_val val player) eqn:E.
  - apply is_val_true in E. done.
  - destruct (is_val val 0); done.
Qed.

Lemma fold_sum_zero {A} (g : A -> Q) (l : list A) (acc : Q) :
  (forall x, In x l -> g x = 0%Q) ->
  (fold_left (fun a x => a + g x) l acc == acc)%Q.
Proof.
  revert acc. induction l as [|x l IH]; intros acc H; simpl; [reflexivity|].
  rewrite IH by (intros y Hy; apply H; by right).
  rewrite (H x) by (by left). ring.
Qed.

Section NoStones.

Variable ai : Settings.
Variable b : Board.
Variable player : Z.
Hypothesis Hnone : forall r c, cell b r c <> Some player.

Lemma row_no_ones i : ones (getRowString (boardSize ai) b i player) = 0%nat.
Proof.
  unfold getRowString. rewrite ones_bracket. apply ones_str_of.
  intros ch Hin. apply in_map_iff in Hin as (c & <- & _). by apply encode_not_one.
Qed.

Lemma col_no_ones i : ones (getColString (boardSize ai) b i player) = 0%nat.
Proof.
  unfold getColString. rewrite ones_bracket. apply ones_str_of.
  intros ch Hin. apply in_map_iff in Hin as (c & <- & _). by apply encode_not_one.
Qed.

Lemma diag_no_ones colOf : ones (diagString (boardSize ai) b player colOf) = 0%nat.
Proof.
  unfold diagString. rewrite ones_bracket. apply ones_str_of.
  intros ch Hin. apply in_flat_map in Hin as (r & _ & Hin).
  destruct ((colOf r >=? 0) && (colOf r <? boardSize ai)); [|done].
  destruct Hin as [<-|[]]. by apply encode_not_one.
Qed.

Lemma evaluatePatterns_no_stones : (evaluatePatternsForPlayer ai b player == 0)%Q.
Proof.
  unfold evaluatePatternsForPlayer.
  rewrite (fold_sum_zero (fun dStr => calculateLineScore (patternWeights ai) dStr)).
  - rewrite (fold_sum_zero
               (fun i => calculateLineScore (patternWeights ai)
                           (getColString (boardSize ai) b i player))).
    + rewrite (fold_sum_zero
                 (fun i => calculateLineScore (patternWeights ai)
                             (getRowString (boardSize ai) b i player))); [reflexivity|].
      intros i _. apply calculateLineScore_no_ones, row_no_ones.
    + intros i _. apply calculateLineScore_no_ones, col_no_ones.
  - intros s Hin. apply calculateLineScore_no_ones.
    unfold getAllDiagonals in Hin. apply in_app_or in Hin as [Hin|Hin];
      apply in_map_iff in Hin as (k & <- & _); apply diag_no_ones.
Qed.

End NoStones.

Lemma no_stone_of_cell player (b : Board) r c : no_stone_of player b -> cell b r c <> Some player.
Proof.
  intros H Hc. unfold cell in Hc.
  destruct ((r <? 0) || (c <? 0)); [done|].
  destruct (b !! Z.to_nat r) as [row|] eqn:Hrow; [|done].
  unfold no_stone_of in H. rewrite Forall_lookup in H.
  specialize (H _ _ Hrow). rewrite Forall_lookup in H. by apply (H _ _ Hc).
Qed.

(** X5. Every rule needs a stone of the player: on a board without any
    stone of [player] the pattern score of [player] is 0, and on a board
    without stones of either side [evaluateBoard] is 0, whatever the
    weights. *)
Theorem no_stones_no_score (ai : Settings) (b : Board) (player : Z) :
  no_stone_of player b ->
  (evaluatePatternsForPlayer ai b player == 0)%Q
  /\ (no_stone_of (3 - player) b -> (evaluateBoard ai b player == 0)%Q).
Proof.
  intros H. split; [apply evaluatePatterns_no_stones; intros; by apply no_stone_of_cell|].
  intros H'. unfold evaluateBoard.
  rewrite (evaluatePatterns_no_stones ai b player)
    by (intros; by apply no_stone_of_cell).
  rewrite (evaluatePatterns_no_stones ai b (3 - player))
    by (intros; by apply no_stone_of_cell).
  ring.
Qed.

Lemma no_stones_no_score_witness :
  no_stone_of 2 one_stone_board
  /\ (evaluatePatternsForPlayer default_settings one_stone_board 2 == 0)%Q.
Proof.
  assert (H : no_stone_of 2 one_stone_board)
    by (apply (bool_decide_unpack _); vm_compute; exact I).
  split; [exact H|].
  exact (proj1 (no_stones_no_score default_settings one_stone_board 2 H)).
Defined.

Lemma consume_ge fuel re wt : (0 <= wt)%Q ->
  forall s score, (score <= consume fuel re wt s score)%Q.
Proof.
  intros Hw. induction fuel as [|fuel IH]; intros s score; simpl; [lra|].
  destruct (regex_match re s) as [m|]; [|lra].
  specialize (IH (str_replace m (neutralize m) s) (score + wt)%Q). lra.
Qed.

Lemma score_fold_ge (w : PatternWeights) s (rules : list (regex * PatternType)) :
  nonneg_weights w ->
  forall acc,
    (acc <= fold_left (fun score '(re, t) =>
               match regex_match re s with
               | Some _ => consume (S (String.length s)) re (weight w t) s score
               | None => score
               end) rules acc)%Q.
Proof.
  intros Hw. induction rules as [|[re t] rules IH]; intros acc; cbn [fold_left]; [lra|].
  destruct (regex_match re s).
  - eapply Qle_trans; [|apply IH]. apply consume_ge, Hw.
  - apply IH.
Qed.

Lemma occurs_regex_match m : forall s, occurs m s = true -> regex_match [m] s = Some m.
Proof.
  induction s as [|ch s IH]; intros H.
  - rewrite occurs_nil, orb_false_r in H.
    change (regex_match [m] "")
      with (match (if String.prefix m "" then Some m else None) with
            | Some m' => Some m'
            | None => None
            end).
    by rewrite H.
  - rewrite occurs_cons in H.
    change (regex_match [m] (String ch s))
      with (match (if String.prefix m (String ch s) then Some m else None) with
            | Some m' => Some m'
            | None => regex_match [m] s
            end).
    destruct (String.prefix m (String ch s)); [done|]. simpl in H. by apply IH.
Qed.

(** Lower bounds of a line score. *)
Lemma line_score_ge (w : PatternWeights) (s : string) :
  nonneg_weights w ->
  (0 <= calculateLineScore w s)%Q
  /\ (occurs "11111" s = true -> (w_liveFive w <= calculateLineScore w s)%Q).
Proof.
  intros Hw. split; [apply score_fold_ge, Hw|].
  intros Hocc.
  change (calculateLineScore w s)
    with (fold_left (fun score '(re, t) =>
               match regex_match re s with
               | Some _ => consume (S (String.length s)) re (weight w t) s score
               | None => score
               end) (tl patterns)
            match regex_match ["11111"] s with
            | Some _ => consume (S (String.length s)) ["11111"] (w_liveFive w) s 0
            | None => 0%Q
            end).
  eapply Qle_trans; [|apply score_fold_ge, Hw].
  rewrite (occurs_regex_match _ _ Hocc).
  cbn [consume]. rewrite (occurs_regex_match _ _ Hocc).
  eapply Qle_trans; [|apply consume_ge, (Hw liveFive)]. lra.
Qed.

(** X6. With weights that are not negative a line never scores below 0, and
    a line that holds five stones of the player in a row (11111) scores at
    least the [liveFive] weight. *)
Theorem line_score_bounds (w : PatternWeights) (s : string) :
  nonneg_weights w ->
  (0 <= calculateLineScore w s)%Q
  /\ (occurs "11111" s = true -> (w_liveFive w <= calculateLineScore w s)%Q).
Proof. apply line_score_ge. Qed.

Lemma line_score_bounds_witness :
  nonneg_weights default_weights
  /\ (0 <= calculateLineScore default_weights "2111112")%Q
  /\ (w_liveFive default_weights <= calculateLineScore default_weights "2111112")%Q.
Proof.
  assert (H : nonneg_weights default_weights)
    by (intros t; destruct t; vm_compute; discriminate).
  destruct (line_score_bounds default_weights "2111112" H) as [H1 H2].
  split; [exact H|]. split; [exact H1|]. apply H2. reflexivity.
Defined.

(** ** A five in a row is seen by the evaluator *)

Lemma str_of_app l1 l2 : str_of (l1 ++ l2) = str_of l1 +:+ str_of l2.
Proof.
  unfold str_of. induction l1 as [|ch l1 IH]; [done|].
  change (string_of_list_ascii ((ch :: l1) ++ l2))
    with (String ch (string_of_list_ascii (l1 ++ l2))).
  by rewrite IH.
Qed.

Lemma append_assoc3 (s1 s2 s3 : string) : (s1 +:+ s2) +:+ s3 = s1 +:+ (s2 +:+ s3).
Proof.
  induction s1 as [|ch s1 IH]; [done|].
  change (String ch ((s1 +:+ s2) +:+ s3) = String ch (s1 +:+ (s2 +:+ s3))).
  by f_equal.
Qed.

Lemma prefix_append m post : String.prefix m (m +:+ post) = true.
Proof.
  induction m as [|a m IH]; [by destruct post|].
  change (String.prefix (String a m) (String a (m +:+ post)) = true).
  simpl. destruct (ascii_dec a a); [done|done].
Qed.

Lemma prefix_occurs m s : String.prefix m s = true -> occurs m s = true.
Proof.
  intros H. destruct s.
  - by rewrite occurs_nil, H.
  - by rewrite occurs_cons, H.
Qed.

Lemma occurs_append m pre post : occurs m (pre +:+ (m +:+ post)) = true.
Proof.
  induction pre as [|ch pre IH].
  - change ("" +:+ (m +:+ post)) with (m +:+ post).
    apply prefix_occurs, prefix_append.
  - change (String ch pre +:+ (m +:+ post)) with (String ch (pre +:+ (m +:+ post))).
    rewrite occurs_cons, IH. apply orb_true_r.
Qed.

Lemma map_as_flat_map {A B} (f : A -> B) l : map f l = flat_map (fun x => [f x]) l.
Proof. induction l as [|x l IH]; simpl; [done|]. by rewrite IH. Qed.

(** A line built cell by cell holds 11111 where five cells in a row encode
    to 1. *)
Lemma line_has_five (g : Z -> list ascii) size a :
  0 <= a -> a + 5 <= size ->
  (forall i, a <= i < a + 5 -> g i = ["1"%char]) ->
  occurs "11111" ("2" +:+ str_of (flat_map g (seqZ 0 size)) +:+ "2") = true.
Proof.
  intros Ha Hs Hg.
  replace size with (a + (5 + (size - a - 5))) by lia.
  rewrite seqZ_app by lia. rewrite seqZ_app by lia.
  rewrite !flat_map_app, !str_of_app.
  replace (str_of (flat_map g (seqZ (0 + a) 5))) with "11111".
  - rewrite !append_assoc3. rewrite <- (append_assoc3 "2"). apply occurs_append.
  - replace (0 + a) with a by lia.
    rewrite 5!seqZ_cons by lia. rewrite seqZ_nil by lia.
    simpl flat_map. rewrite !Hg by lia. reflexivity.
Qed.

Lemma encode_own player : encode player (Some player) = "1"%char.
Proof. unfold encode. simpl. by rewrite Z.eqb_refl. Qed.

Lemma fold_sum_ge {A} (g : A -> Q) (l : list A) :
  (forall x, (0 <= g x)%Q) ->
  forall acc, (acc <= fold_left (fun a x => a + g x) l acc)%Q.
Proof.
  intros Hg. induction l as [|x l IH]; intros acc; simpl; [lra|].
  specialize (IH (acc + g x)%Q). specialize (Hg x). lra.
Qed.

Lemma fold_sum_ge_elem {A} (g : A -> Q) (l : list A) x0 :
  (forall x, (0 <= g x)%Q) -> In x0 l ->
  forall acc, (acc + g x0 <= fold_left (fun a x => a + g x) l acc)%Q.
Proof.
  intros Hg. induction l as [|x l IH]; intros Hin acc; [done|]. simpl.
  destruct Hin as [->|Hin].
  - apply fold_sum_ge, Hg.
  - specialize (IH Hin (acc + g x)%Q). specialize (Hg x). lra.
Qed.

Section FiveScored.

Variable ai : Settings.
Variable b : Board.
Variable player : Z.
Hypothesis Hw : nonneg_weights (patternWeights ai).

Let score s := calculateLineScore (patternWeights ai) s.

Lemma score_nonneg s : (0 <= score s)%Q.
Proof. apply line_score_ge, Hw. Qed.

Lemma score_five s : occurs "11111" s = true -> (w_liveFive (patternWeights ai) <= score s)%Q.
Proof. apply line_score_ge, Hw. Qed.

Lemma row_scored r :
  0 <= r < boardSize ai ->
  occurs "11111" (getRowString (boardSize ai) b r player) = true ->
  (w_liveFive (patternWeights ai) <= evaluatePatternsForPlayer ai b player)%Q.
Proof.
  intros Hr Hocc. unfold evaluatePatternsForPlayer.
  eapply Qle_trans; [|apply (fold_sum_ge score), score_nonneg].
  eapply Qle_trans;
    [|apply (fold_sum_ge (fun i => score (getColString (boardSize ai) b i player)));
      intros; apply score_nonneg].
  eapply Qle_trans;
    [|apply (fold_sum_ge_elem (fun i => score (getRowString (boardSize ai) b i player)) _ r);
      [intros; apply score_nonneg|apply list_elem_of_In, elem_of_seqZ; lia]].
  pose proof (score_five _ Hocc). unfold score in *. lra.
Qed.

Lemma col_scored c :
  0 <= c < boardSize ai ->
  occurs "11111" (getColString (boardSize ai) b c player) = true ->
  (w_liveFive (patternWeights ai) <= evaluatePatternsForPlayer ai b player)%Q.
Proof.
  intros Hc Hocc. unfold evaluatePatternsForPlayer.
  eapply Qle_trans; [|apply (fold_sum_ge score), score_nonneg].
  eapply Qle_trans;
    [|apply (fold_sum_ge_elem (fun i => score (getColString (boardSize ai) b i player)) _ c);
      [intros; apply score_nonneg|apply list_elem_of_In, elem_of_seqZ; lia]].
  pose proof (score_five _ Hocc).
  pose proof (fold_sum_ge (fun i => score (getRowString (boardSize ai) b i player))
                (seqZ 0 (boardSize ai)) (fun _ => score_nonneg _) 0%Q).
  unfold score in *. lra.
Qed.

Lemma diag_scored s :
  In s (getAllDiagonals (boardSize ai) b player) -> occurs "11111" s = true ->
  (w_liveFive (patternWeights ai) <= evaluatePatternsForPlayer ai b player)%Q.
Proof.
  intros Hin Hocc. unfold evaluatePatternsForPlayer.
  eapply Qle_trans; [|apply (fold_sum_ge_elem score _ s); [apply score_nonneg|done]].
  pose proof (score_five _ Hocc).
  pose proof (fold_sum_ge (fun i => score (getRowString (boardSize ai) b i player))
                (seqZ 0 (boardSize ai)) (fun _ => score_nonneg _) 0%Q) as H1.
  pose proof (fold_sum_ge (fun i => score (getColString (boardSize ai) b i player))
                (seqZ 0 (boardSize ai)) (fun _ => score_nonneg _)
                (fold_left (fun a i => a + score (getRowString (boardSize ai) b i player))
                           (seqZ 0 (boardSize ai)) 0)%Q) as H2.
  unfold score in *. lra.
Qed.

Lemma has_five_scored :
  has_five (boardSize ai) b player ->
  (w_liveFive (patternWeights ai) <= evaluatePatternsForPlayer ai b player)%Q.
Proof.
  intros (r & c & dx & dy & Hd & H). unfold five_from in H.
  pose proof (H 0 ltac:(lia)) as H0. pose proof (H 4 ltac:(lia)) as H4.
  apply list_elem_of_In in Hd. simpl in Hd.
  destruct Hd as [[= <- <-]|[[= <- <-]|[[= <- <-]|[[= <- <-]|[]]]]].
  - apply (row_scored r); [lia|]. unfold getRowString. rewrite map_as_flat_map.
    apply (line_has_five _ _ c); [lia|lia|]. intros i Hi.
    destruct (H (i - c) ltac:(lia)) as (_ & _ & Hc).
    replace (r + (i - c) * 0) with r in Hc by lia.
    replace (c + (i - c) * 1) with i in Hc by lia.
    by rewrite Hc, encode_own.
  - apply (col_scored c); [lia|]. unfold getColString. rewrite map_as_flat_map.
    apply (line_has_five _ _ r); [lia|lia|]. intros i Hi.
    destruct (H (i - r) ltac:(lia)) as (_ & _ & Hc).
    replace (r + (i - r) * 1) with i in Hc by lia.
    replace (c + (i - r) * 0) with c in Hc by lia.
    by rewrite Hc, encode_own.
  - apply (diag_scored (diagString (boardSize ai) b player (fun row => row - (r - c)))).
    + unfold getAllDiagonals. apply in_or_app. left. apply in_map_iff.
      exists (r - c). split; [done|]. apply list_elem_of_In, elem_of_seqZ. lia.
    + unfold diagString. apply (line_has_five _ _ r); [lia|lia|]. intros i Hi.
      destruct (H (i - r) ltac:(lia)) as (_ & Hcol & Hc).
      replace (r + (i - r) * 1) with i in Hc by lia.
      replace (c + (i - r) * 1) with (i - (r - c)) in Hc, Hcol by lia.
      cbv zeta. rewrite Hc, encode_own.
      destruct (i - (r - c) >=? 0) eqn:E1; [|lia].
      destruct (i - (r - c) <? boardSize ai) eqn:E2; [done|lia].
  - apply (diag_scored (diagString (boardSize ai) b player (fun row => r + c - row))).
    + unfold getAllDiagonals. apply in_or_app. right. apply in_map_iff.
      exists (r + c). split; [done|]. apply list_elem_of_In, elem_of_seqZ. lia.
    + unfold diagString. apply (line_has_five _ _ r); [lia|lia|]. intros i Hi.
      destruct (H (i - r) ltac:(lia)) as (_ & Hcol & Hc).
      replace (r + (i - r) * 1) with i in Hc by lia.
      replace (c + (i - r) * -1) with (r + c - i) in Hc, Hcol by lia.
      cbv zeta. rewrite Hc, encode_own.
      destruct (r + c - i >=? 0) eqn:E1; [|lia].
      destruct (r + c - i <? boardSize ai) eqn:E2; [done|lia].
Qed.

End FiveScored.

(** X7. The evaluator sees every win: with weights that are not negative,
    whenever [hasFiveInARow] holds for a player, the pattern score of that
    player is at least the [liveFive] weight (the row, column or diagonal of
    the five is among the lines scanned, also for the shortest diagonals
    that are scanned). *)
Theorem win_is_scored (ai : Settings) (b : Board) (player : Z) :
  nonneg_weights (patternWeights ai) -> 5 <= boardSize ai ->
  hasFiveInARow ai b player = true ->
  (w_liveFive (patternWeights ai) <= evaluatePatternsForPlayer ai b player)%Q.
Proof.
  intros Hw Hs H. apply has_five_scored; [done|]. by apply hasFiveInARow_spec.
Qed.

Lemma win_is_scored_witness :
  nonneg_weights (patternWeights default_settings) /\ 5 <= boardSize default_settings
  /\ hasFiveInARow default_settings both_five_board 2 = true
  /\ (w_liveFive (patternWeights default_settings)
      <= evaluatePatternsForPlayer default_settings both_five_board 2)%Q.
Proof.
  assert (H1 : nonneg_weights (patternWeights default_settings))
    by (intros t; destruct t; vm_compute; discriminate).
  assert (H2 : 5 <= boardSize default_settings) by (vm_compute; discriminate).
  assert (H3 : hasFiveInARow default_settings both_five_board 2 = true)
    by (vm_compute; reflexivity).
  split; [exact H1|]. split; [exact H2|]. split; [exact H3|].
  exact (win_is_scored default_settings both_five_board 2 H1 H2 H3).
Defined.

(** ** Alpha-Beta search *)

(** X8. [alphaBetaSearch] is a fail-soft search of the negamax value: called
    with [alpha < beta] it returns a finite [v] such that the value [V] of
    the search without cuts satisfies [V <= v] if [v < beta] and [v <= V] if
    [alpha < v]; with the full window the two values agree.  It never visits
    more nodes than the search without cuts. *)
Theorem alphaBetaSearch_fail_soft (ai : Settings) (w : World) (player depth : Z)
    (alpha beta : num) :
  wf_board (boardSize ai) (the_board w) -> is_player player ->
  num_le beta alpha = false ->
  exists v w1 V w2,
    alphaBetaSearch ai (search_fuel ai) depth alpha beta player w = Some (Fin v, w1)
    /\ negamaxSearch ai (search_fuel ai) depth alpha beta player w = Some (Fin V, w2)
    /\ (num_le beta (Fin v) = false -> (V <= v)%Q)
    /\ (num_le (Fin v) alpha = false -> (v <= V)%Q)
    /\ (alpha = NegInf -> beta = PosInf -> (v == V)%Q)
    /\ searchNodes w1 <= searchNodes w2.
Proof.
  intros _ Hp Hab. unfold alphaBetaSearch, negamaxSearch. rewrite !search_run.
  destruct (psearch_sound ai (search_fuel ai) depth player (the_board w) Hp)
    with (alpha := alpha) (beta := beta) (alpha' := alpha) (beta' := beta)
    as (v & n & k & V & N & K & -> & -> & [F1 F2] & HnN & _ & [q ->] & [Q ->]); [|done|].
  { pose proof (empties_le ai (the_board w)). unfold search_fuel. lia. }
  exists q, (bump w n k), Q, (bump w N K). do 2 (split; [done|]).
  split; [|split; [|split]].
  - intros H. apply F1 in H. by apply Qle_bool_iff in H.
  - intros H. apply F2 in H. by apply Qle_bool_iff in H.
  - intros -> ->. specialize (F1 eq_refl). specialize (F2 eq_refl).
    apply Qle_bool_iff in F1, F2. lra.
  - simpl. lia.
Qed.

Lemma alphaBetaSearch_fail_soft_witness :
  wf_board 15 one_stone_board /\ is_player 2
  /\ num_le (Fin (-50)) (Fin (-100)) = false
  /\ exists v w1 V w2,
       alphaBetaSearch depth1_settings (search_fuel depth1_settings) 1
         (Fin (-100)) (Fin (-50)) 2 (world_of one_stone_board) = Some (Fin v, w1)
       /\ negamaxSearch depth1_settings (search_fuel depth1_settings) 1
            (Fin (-100)) (Fin (-50)) 2 (world_of one_stone_board) = Some (Fin V, w2)
       /\ (v <= V)%Q
       /\ pruningCount w1 = 1 /\ searchNodes w1 = 2 /\ searchNodes w2 = 11.
Proof.
  assert (Hwf : wf_board (boardSize depth1_settings) (the_board (world_of one_stone_board)))
    by wf_concrete.
  assert (Hp : is_player 2) by (right; reflexivity).
  assert (Hab : num_le (Fin (-50)) (Fin (-100)) = false) by reflexivity.
  destruct (alphaBetaSearch_fail_soft depth1_settings (world_of one_stone_board) 2 1
              (Fin (-100)) (Fin (-50)) Hwf Hp Hab)
    as (v & w1 & V & w2 & H1 & H2 & _ & H4 & _ & _).
  split; [exact Hwf|]. split; [exact Hp|]. split; [exact Hab|].
  exists v, w1, V, w2. split; [exact H1|]. split; [exact H2|].
  assert (E1 : exists c,
            option_map (fun x => (fst x, searchNodes (snd x), pruningCount (snd x)))
              (alphaBetaSearch depth1_settings (search_fuel depth1_settings) 1
                 (Fin (-100)) (Fin (-50)) 2 (world_of one_stone_board))
            = Some (Fin c, 2, 1)
            /\ num_le (Fin c) (Fin (-100)) = false)
    by (eexists; split; vm_compute; reflexivity).
  assert (E2 : option_map (fun x => searchNodes (snd x))
                 (negamaxSearch depth1_settings (search_fuel depth1_settings) 1
                    (Fin (-100)) (Fin (-50)) 2 (world_of one_stone_board))
               = Some 11) by (vm_compute; reflexivity).
  destruct E1 as (c & E1 & Hc). rewrite H1 in E1. rewrite H2 in E2.
  cbn [option_map fst snd] in E1, E2.
  injection E1 as Ev En Ek. injection E2 as EN.
  split; [apply H4; rewrite Ev; exact Hc|].
  split; [exact Ek|]. split; [exact En|exact EN].
Defined.

(** X9. [findBestMove] returns the best candidate of the full search: the
    result is null exactly on an empty candidate list, and otherwise its move
    is the first candidate of [generateCandidateMoves] whose exact score
    (minus the value of the search without cuts after the move, depth
    [searchDepth - 1], full window) is maximal, and the score it reports is
    that exact score: every candidate scores at most it, every earlier one
    strictly less. *)
Theorem findBestMove_optimal (ai : Settings) (w : World) (player : Z) :
  is_player player ->
  exists r w' cs,
    findBestMove ai player w = Some (r, w')
    /\ generateCandidateMoves ai player w = Some (cs, w)
    /\ match r with
       | None => cs = []
       | Some res =>
           exists i row col s,
             cs !! i = Some (row, col) /\ move res = Some (row, col)
             /\ score res = Fin s
             /\ forall j r' c', cs !! j = Some (r', c') ->
                  exists V w'',
                    (write_cell r' c' player ;;
                     negamaxSearch ai (search_fuel ai) (searchDepth ai - 1) NegInf PosInf
                       (3 - player)) w = Some (Fin V, w'')
                    /\ (- V <= s)%Q
                    /\ ((j < i)%nat -> (- V < s)%Q)
                    /\ (j = i -> (- V == s)%Q)
       end.
Proof. apply best_candidate. Qed.

Lemma findBestMove_optimal_witness :
  is_player 2
  /\ exists r w' cs,
       findBestMove depth1_settings 2 (world_of one_stone_board) = Some (r, w')
       /\ generateCandidateMoves depth1_settings 2 (world_of one_stone_board)
          = Some (cs, world_of one_stone_board)
       /\ match r with
          | None => cs = []
          | Some res => exists i row col, cs !! i = Some (row, col)
                                          /\ move res = Some (row, col)
          end.
Proof.
  assert (Hp : is_player 2) by (right; reflexivity).
  split; [exact Hp|].
  destruct (findBestMove_optimal depth1_settings (world_of one_stone_board) 2 Hp)
    as (r & w' & cs & H1 & H2 & H3).
  exists r, w', cs. split; [exact H1|]. split; [exact H2|].
  destruct r as [res|]; [|exact H3].
  destruct H3 as (i & row & col & s & Hi & Hm & _).
  exists i, row, col. split; [exact Hi|exact Hm].
Defined.

(** ** The counters *)

Section Counters.

Variable prune : bool.
Variable T : Z.
Hypothesis T_nonneg : 0 <= T.

Lemma psearch_loop_counts rec b player beta : counts_ok T rec ->
  forall cs m a v n k,
    psearch_loop prune rec b player beta cs m a = Some (v, n, k) ->
    0 <= k <= n /\ n <= Z.of_nat (length cs) * T.
Proof.
  intros Hrec. induction cs as [|[row col] rest IH]; intros m a v n k H.
  - simpl in H. inversion H; subst. simpl. lia.
  - simpl in H.
    destruct (rec (set_cell b row col player) (num_neg beta) (num_neg a))
      as [[[v0 n0] k0]|] eqn:E; [|done].
    apply Hrec in E as (Hn0 & Hk0 & HT).
    change (length ((row, col) :: rest)) with (S (length rest)).
    destruct (prune && num_ge (num_max a (num_neg v0)) beta).
    + inversion H; subst. split; [lia|]. nia.
    + destruct (psearch_loop prune rec b player beta rest _ _) as [[[v' n'] k']|] eqn:E';
        [|done].
      inversion H; subst. apply IH in E' as [? ?]. split; [lia|]. nia.
Qed.

Lemma proot_loop_counts rec b player beta : counts_ok T rec ->
  forall cs bm bs a bm' bs' n k l,
    proot_loop rec b player beta cs bm bs a = Some (bm', bs', n, k, l) ->
    0 <= k <= n - Z.of_nat (length cs) /\ n <= Z.of_nat (length cs) * T.
Proof.
  intros Hrec. induction cs as [|[row col] rest IH]; intros bm bs a bm' bs' n k l H.
  - simpl in H. inversion H; subst. simpl. lia.
  - simpl in H.
    destruct (rec (set_cell b row col player) (num_neg beta) (num_neg a))
      as [[[v0 n0] k0]|] eqn:E; [|done].
    apply Hrec in E as (Hn0 & Hk0 & HT).
    change (length ((row, col) :: rest)) with (S (length rest)).
    destruct (num_gt (num_neg v0) bs).
    + destruct (proot_loop rec b player beta rest _ _ _) as [[[[[bm1 bs1] n1] k1] l1]|] eqn:E';
        [|done].
      inversion H; subst. apply IH in E' as [? ?]. split; [lia|]. nia.
    + destruct (proot_loop rec b player beta rest _ _ _) as [[[[[bm1 bs1] n1] k1] l1]|] eqn:E';
        [|done].
      inversion H; subst. apply IH in E' as [? ?]. split; [lia|]. nia.
Qed.

End Counters.

Lemma tree_nodes_pos c d : 0 <= c -> 1 <= tree_nodes c d.
Proof. intros Hc. induction d as [|d IH]; simpl; [lia|]. nia. Qed.

Lemma candidates_of_length ai b player :
  0 <= candidateCount ai -> Z.of_nat (length (candidates_of ai b player)) <= candidateCount ai.
Proof. intros Hc. unfold candidates_of. rewrite js_slice0_length by done. lia. Qed.

Lemma psearch_counts ai prune fuel : 0 <= candidateCount ai ->
  forall depth alpha beta player b v n k,
    0 <= depth ->
    psearch ai prune fuel depth alpha beta player b = Some (v, n, k) ->
    1 <= n /\ 0 <= k <= n - 1 /\ n <= tree_nodes (candidateCount ai) (Z.to_nat depth).
Proof.
  intros Hc. induction fuel as [|fuel IH]; intros depth alpha beta player b v n k Hd H;
    [done|].
  pose proof (tree_nodes_pos (candidateCount ai) (Z.to_nat depth) Hc) as Hpos.
  cbn [psearch] in H.
  destruct (depth =? 0) eqn:Ed; [inversion H; subst; lia|].
  destruct (checkWinner ai b =? player); [inversion H; subst; lia|].
  destruct (checkWinner ai b =? 3 - player); [inversion H; subst; lia|].
  pose proof (candidates_of_length ai b player Hc) as Hlen.
  destruct (candidates_of ai b player) as [|c0 cs] eqn:Hcs; [inversion H; subst; lia|].
  cbn beta iota in H.
  match type of H with
  | match ?X with _ => _ end = _ => destruct X as [[[v' n'] k']|] eqn:E; [|done]
  end.
  inversion H; subst.
  assert (Hd' : 0 <= depth - 1) by lia.
  pose proof (tree_nodes_pos (candidateCount ai) (Z.to_nat (depth - 1)) Hc) as Hpos'.
  apply (psearch_loop_counts prune (tree_nodes (candidateCount ai) (Z.to_nat (depth - 1))))
    in E as [Hk Hn]; [|lia|].
  - replace (Z.to_nat depth) with (S (Z.to_nat (depth - 1))) by lia.
    cbn [tree_nodes]. split; [lia|]. split; [lia|]. nia.
  - intros b0 a0 b0' v0 n0 k0 E0. by apply IH in E0.
Qed.

(** X10. The counters after [findBestMove], for [searchDepth >= 1] and
    [candidateCount >= 0]: with [k] root candidates ([k <= candidateCount]),
    [searchNodes] is between [k] and [k] times the size of the full tree of
    [searchDepth - 1] levels with [candidateCount] children per node, and
    [pruningCount] is at most [searchNodes - k] (a cut needs a node with a
    searched child; the root never cuts).  The result reports the same two
    numbers. *)
Theorem counters_bounds (ai : Settings) (w : World) (player : Z) :
  is_player player -> 1 <= searchDepth ai -> 0 <= candidateCount ai ->
  exists r w' cs,
    findBestMove ai player w = Some (r, w')
    /\ generateCandidateMoves ai player w = Some (cs, w)
    /\ Z.of_nat (length cs) <= candidateCount ai
    /\ Z.of_nat (length cs) <= searchNodes w'
       <= Z.of_nat (length cs)
          * tree_nodes (candidateCount ai) (Z.to_nat (searchDepth ai - 1))
    /\ 0 <= pruningCount w' <= searchNodes w' - Z.of_nat (length cs)
    /\ forall res, r = Some res ->
         res_searchNodes res = searchNodes w' /\ res_pruningCount res = pruningCount w'.
Proof.
  intros Hp Hd Hc. unfold findBestMove. rewrite findBestMove_run, generateCandidateMoves_run.
  destruct (pfindBestMove_total ai true (the_board w) player Hp) as (r & Hr & Hnull).
  rewrite Hr. exists r, (world_after (the_board w) r), (candidates_of ai (the_board w) player).
  split; [done|]. split; [done|].
  pose proof (candidates_of_length ai (the_board w) player Hc) as Hlen.
  split; [done|].
  destruct r as [res|].
  - unfold pfindBestMove in Hr.
    destruct (candidates_of ai (the_board w) player) as [|c0 cs] eqn:Hcs; [done|].
    cbn beta iota in Hr.
    match type of Hr with
    | match ?X with _ => _ end = _ => destruct X as [[[[[bm bs] n] k] l]|] eqn:E; [|done]
    end.
    inversion Hr; subst res; clear Hr.
    cbn [world_after searchNodes pruningCount res_searchNodes res_pruningCount].
    pose proof (tree_nodes_pos (candidateCount ai) (Z.to_nat (searchDepth ai - 1)) Hc).
    apply (proot_loop_counts (tree_nodes (candidateCount ai) (Z.to_nat (searchDepth ai - 1))))
      in E as [Hk Hn].
    + split; [lia|]. split; [lia|]. intros res Hres. by inversion Hres.
    + intros b0 a0 b0' v0 n0 k0 E0. apply psearch_counts in E0; [done|done|lia].
  - destruct Hnull as [Hnull _]. rewrite (Hnull eq_refl). simpl. split; [lia|].
    split; [lia|]. intros res Hres. done.
Qed.

Lemma counters_bounds_witness :
  is_player 2 /\ 1 <= searchDepth depth1_settings /\ 0 <= candidateCount depth1_settings
  /\ exists r w' cs,
       findBestMove depth1_settings 2 (world_of one_stone_board) = Some (r, w')
       /\ generateCandidateMoves depth1_settings 2 (world_of one_stone_board)
          = Some (cs, world_of one_stone_board)
       /\ searchNodes w' = Z.of_nat (length cs) /\ pruningCount w' = 0.
Proof.
  assert (Hp : is_player 2) by (right; reflexivity).
  assert (Hd : 1 <= searchDepth depth1_settings) by (vm_compute; discriminate).
  assert (Hc : 0 <= candidateCount depth1_settings) by (vm_compute; discriminate).
  split; [exact Hp|]. split; [exact Hd|]. split; [exact Hc|].
  destruct (counters_bounds depth1_settings (world_of one_stone_board) 2 Hp Hd Hc)
    as (r & w' & cs & H1 & H2 & _ & H3 & H4 & _).
  exists r, w', cs. split; [exact H1|]. split; [exact H2|].
  change (Z.to_nat (searchDepth depth1_settings - 1)) with 0%nat in H3.
  cbn [tree_nodes] in H3. split; lia.
Defined.

(** ** The log *)

Lemma proot_loop_log rec b player beta : forall cs bm bs a bm' bs' n k l,
  returns_on rec b player cs ->
  proot_loop rec b player beta cs bm bs a = Some (bm', bs', n, k, l) ->
  exists scores,
    l = score_entries cs scores /\ length scores = length cs
    /\ Forall finite scores
    /\ num_le bs bs' = true
    /\ Forall (fun s => num_le s bs' = true) scores
    /\ ((bm' = bm /\ bs' = bs)
        \/ exists i m,
             cs !! i = Some m /\ scores !! i = Some bs' /\ bm' = Some m
             /\ num_le bs' bs = false
             /\ forall j s, (j < i)%nat -> scores !! j = Some s -> num_le bs' s = false).
Proof.
  induction cs as [|[row col] rest IH]; intros bm bs a bm' bs' n k l Hret H.
  - simpl in H. inversion H; subst. exists []. repeat split; try done.
    + num_order.
    + by left.
  - simpl in H.
    destruct (Hret row col (num_neg beta) (num_neg a)) as (q & n0 & k0 & E & _); [left|].
    rewrite E in H.
    assert (Hret' : returns_on rec b player rest).
    { intros r c a0 b0 Hin. apply Hret. by right. }
    remember (num_neg (Fin q)) as s0 eqn:Hs0.
    assert (Hfin : finite s0) by (subst s0; by eexists).
    clear Hs0 E.
    unfold num_gt in H. destruct (num_le s0 bs) eqn:Ecmp; simpl in H.
    + destruct (proot_loop rec b player beta rest bm bs a)
        as [[[[[bm1 bs1] n1] k1] l1]|] eqn:E'; [|done].
      inversion H; subst; clear H.
      destruct (IH _ _ _ _ _ _ _ _ Hret' E')
        as (scores & -> & Hlen & Hfins & Hle & Hall & Hcase).
      exists (s0 :: scores). split; [done|]. split; [simpl; lia|].
      split; [by constructor|]. split; [done|].
      split; [constructor; [num_order|done]|].
      destruct Hcase as [[-> ->]|(i & m & Hi & Hsi & -> & Hgt & Hbefore)]; [by left|].
      right. exists (S i), m. repeat split; try done.
      intros [|j] s Hj Hs; simpl in Hs.
      * inversion Hs; subst. num_order.
      * apply (Hbefore j); [lia|done].
    + destruct (proot_loop rec b player beta rest (Some (row, col)) s0 s0)
        as [[[[[bm1 bs1] n1] k1] l1]|] eqn:E'; [|done].
      inversion H; subst; clear H.
      destruct (IH _ _ _ _ _ _ _ _ Hret' E')
        as (scores & -> & Hlen & Hfins & Hle & Hall & Hcase).
      exists (s0 :: scores). split; [done|]. split; [simpl; lia|].
      split; [by constructor|]. split; [num_order|].
      split; [constructor; [done|done]|].
      right.
      destruct Hcase as [[-> ->]|(i & m & Hi & Hsi & -> & Hgt & Hbefore)].
      * exists 0%nat, (row, col). repeat split; try done. intros j s Hj. lia.
      * exists (S i), m. repeat split; try done; [num_order|].
        intros [|j] s Hj Hs; simpl in Hs.
        -- inversion Hs; subst. done.
        -- apply (Hbefore j); [lia|done].
Qed.

(** X11. The log of a [findBestMove] call.  Whatever was logged before is
    dropped; with no candidate the log is the single candidates message.
    Otherwise it is the candidates message, one score message per candidate
    in candidate order, and the summary with the returned move and score and
    the two counters; the result carries this same log.  The returned score
    is the largest score logged, and the returned move is the first candidate
    whose logged score reaches it. *)
Theorem findBestMove_log (ai : Settings) (w : World) (player : Z) :
  is_player player ->
  exists r w' cs,
    findBestMove ai player w = Some (r, w')
    /\ generateCandidateMoves ai player w = Some (cs, w)
    /\ match r with
       | None => logs w' = [LogCandidates 0]
       | Some res =>
           exists scores,
             length scores = length cs
             /\ logs w' = LogCandidates (length cs) :: score_entries cs scores
                          ++ [LogSummary (move res) (score res)
                                (searchNodes w') (pruningCount w')]
             /\ res_logs res = logs w'
             /\ Forall (fun s => num_le s (score res) = true) scores
             /\ exists i m,
                  cs !! i = Some m /\ move res = Some m
                  /\ scores !! i = Some (score res)
                  /\ forall j s, (j < i)%nat -> scores !! j = Some s ->
                       num_le (score res) s = false
       end.
Proof.
  intros Hp. unfold findBestMove. rewrite findBestMove_run, generateCandidateMoves_run.
  destruct (pfindBestMove_total ai true (the_board w) player Hp) as (r & Hr & Hnull).
  rewrite Hr. exists r, (world_after (the_board w) r), (candidates_of ai (the_board w) player).
  split; [done|]. split; [done|].
  destruct r as [res|]; [|done].
  unfold pfindBestMove in Hr.
  pose proof (root_candidates_return ai true (the_board w) player Hp) as Hret.
  destruct (candidates_of ai (the_board w) player) as [|c0 cs] eqn:Hcs; [done|].
  cbn beta iota in Hr.
  match type of Hr with
  | match ?X with _ => _ end = _ => destruct X as [[[[[bm bs] n] k] l]|] eqn:E; [|done]
  end.
  inversion Hr; subst res; clear Hr.
  cbn [world_after searchNodes pruningCount res_searchNodes res_pruningCount
       logs res_logs move score].
  destruct (proot_loop_log _ _ _ _ _ _ _ _ _ _ _ _ _ Hret E)
    as (scores & -> & Hlen & Hfins & _ & Hall & Hcase).
  exists scores. do 4 (split; [done|]).
  destruct Hcase as [[-> ->]|(i & m & Hi & Hsi & -> & _ & Hbefore)].
  - exfalso. destruct scores as [|s0 scores]; [done|].
    apply Forall_cons in Hfins as [[q ->] _]. by apply Forall_cons in Hall as [Hall _].
  - by exists i, m.
Qed.

Lemma findBestMove_log_witness :
  is_player 2
  /\ exists r w' cs,
       findBestMove depth1_settings 2 (world_of one_stone_board) = Some (r, w')
       /\ generateCandidateMoves depth1_settings 2 (world_of one_stone_board)
          = Some (cs, world_of one_stone_board)
       /\ match r with
          | None => logs w' = [LogCandidates 0]
          | Some res => res_logs res = logs w'
          end.
Proof.
  assert (Hp : is_player 2) by (right; reflexivity).
  split; [exact Hp|].
  destruct (findBestMove_log depth1_settings (world_of one_stone_board) 2 Hp)
    as (r & w' & cs & H1 & H2 & H3).
  exists r, w', cs. split; [exact H1|]. split; [exact H2|].
  destruct r as [res|]; [|exact H3].
  destruct H3 as (scores & _ & _ & H & _). exact H.
Defined.

(** ** The constructor, again *)

Lemma constructor_defaults_dom settings k :
  is_Some ((list_to_map
       [ ("searchDepth", js_or (prop settings "searchDepth") (VNumber 6));
         ("candidateCount", js_or (prop settings "candidateCount") (VNumber 10));
         ("searchRange", js_or (prop settings "searchRange") (VNumber 2));
         ("boardSize", VNumber 15);
         ("patternWeights", VObject default_weight_table) ] : gmap string jsval) !! k)
  <-> k ∈ ["searchDepth"; "candidateCount"; "searchRange"; "boardSize"; "patternWeights"].
Proof.
  split.
  - intros H. destruct (decide (k ∈ ["searchDepth"; "candidateCount"; "searchRange";
                                      "boardSize"; "patternWeights"])) as [|Hn]; [done|].
    exfalso. rewrite not_elem_of_list_to_map_1 in H by done. by destruct H.
  - intros H. cbn [list_to_map foldr uncurry fst snd].
    rewrite !elem_of_cons in H.
    destruct H as [->|[->|[->|[->|[->|H]]]]]; [..|by apply elem_of_nil in H];
      repeat (rewrite lookup_insert_ne by done); rewrite lookup_insert_eq; eauto.
Qed.

(** X12. The settings object the constructor builds has the caller's own
    properties and the five named ones, nothing else; every own property of
    the caller is kept as given, and [boardSize] and [patternWeights] are the
    fixed defaults exactly when the caller has none.  Building a second
    engine from the settings of the first changes nothing. *)
Theorem constructor_spread (settings : gmap string jsval) :
  (forall k, is_Some (GomokuAI_constructor settings !! k)
             <-> is_Some (settings !! k)
                 \/ k ∈ ["searchDepth"; "candidateCount"; "searchRange"; "boardSize";
                         "patternWeights"])
  /\ (forall k v, settings !! k = Some v -> GomokuAI_constructor settings !! k = Some v)
  /\ (settings !! "boardSize" = None ->
        GomokuAI_constructor settings !! "boardSize" = Some (VNumber 15))
  /\ GomokuAI_constructor (GomokuAI_constructor settings) = GomokuAI_constructor settings.
Proof.
  assert (Hdom : forall s k, is_Some (GomokuAI_constructor s !! k)
             <-> is_Some (s !! k)
                 \/ k ∈ ["searchDepth"; "candidateCount"; "searchRange"; "boardSize";
                         "patternWeights"]).
  { intros s k. unfold GomokuAI_constructor at 1.
    rewrite <- (constructor_defaults_dom s k).
    unfold is_Some. setoid_rewrite lookup_union_Some_raw. split.
    - intros (v & [H|[_ H]]); eauto.
    - intros [[v H]|[v H]].
      + eauto.
      + destruct (s !! k) as [v'|] eqn:E; eauto. }
  split; [apply Hdom|]. split; [apply constructor_present|].
  split; [intros H; by rewrite constructor_absent|].
  apply map_eq. intros k.
  destruct (GomokuAI_constructor settings !! k) as [v|] eqn:E.
  - by apply constructor_present.
  - rewrite constructor_absent by done.
    apply eq_None_not_Some. intros H. apply constructor_defaults_dom in H.
    assert (Hs : is_Some (GomokuAI_constructor settings !! k)) by (apply Hdom; by right).
    rewrite E in Hs. by destruct Hs.
Qed.

Lemma constructor_spread_witness :
  GomokuAI_constructor {[ "searchDepth" := VNumber 0 ]} !! "searchDepth" = Some (VNumber 0)
  /\ GomokuAI_constructor {[ "searchDepth" := VNumber 0 ]} !! "boardSize"
     = Some (VNumber 15)
  /\ GomokuAI_constructor (GomokuAI_constructor {[ "searchDepth" := VNumber 0 ]})
     = GomokuAI_constructor {[ "searchDepth" := VNumber 0 ]}.
Proof.
  destruct (constructor_spread {[ "searchDepth" := VNumber 0 ]}) as (_ & H2 & H3 & H4).
  split; [|split].
  - apply H2. vm_compute. reflexivity.
  - apply H3. vm_compute. reflexivity.
  - exact H4.
Defined.

(** ** Weights the evaluation does not read *)

Lemma calculateLineScore_ext w w' s :
  (forall t, t <> deadTwo -> weight w t = weight w' t) ->
  calculateLineScore w s = calculateLineScore w' s.
Proof.
  intros H. unfold calculateLineScore, patterns. cbn [fold_left].
  rewrite !(H liveFive), !(H liveFour), !(H deadFour), !(H liveThree), !(H deadThree),
    !(H liveTwo) by done.
  reflexivity.
Qed.

Lemma fold_left_ext_eq {A B} (f g : A -> B -> A) l a a' :
  (forall a x, f a x = g a x) -> a = a' -> fold_left f l a = fold_left g l a'.
Proof.
  intros H ->. revert a'. induction l as [|x l IH]; intros a; simpl; [done|].
  by rewrite H, IH.
Qed.

Lemma psearch_loop_ext prune rec rec' b player beta :
  (forall b0 a0 b0', rec b0 a0 b0' = rec' b0 a0 b0') ->
  forall cs m a,
    psearch_loop prune rec b player beta cs m a
    = psearch_loop prune rec' b player beta cs m a.
Proof.
  intros H. induction cs as [|[row col] rest IH]; intros m a; simpl; [done|].
  rewrite H. destruct (rec' _ _ _) as [[[v n] k]|]; [|done].
  by rewrite IH.
Qed.

Lemma proot_loop_ext rec rec' b player beta :
  (forall b0 a0 b0', rec b0 a0 b0' = rec' b0 a0 b0') ->
  forall cs bm bs a,
    proot_loop rec b player beta cs bm bs a = proot_loop rec' b player beta cs bm bs a.
Proof.
  intros H. induction cs as [|[row col] rest IH]; intros bm bs a; simpl; [done|].
  rewrite H. destruct (rec' _ _ _) as [[[v n] k]|]; [|done].
  by rewrite !IH.
Qed.

Section DeadTwo.

Variable ai : Settings.
Variable q : Q.

Lemma line_score_deadTwo s :
  calculateLineScore (patternWeights (with_deadTwo ai q)) s
  = calculateLineScore (patternWeights ai) s.
Proof. apply calculateLineScore_ext. by intros []. Qed.

Lemma evaluatePatterns_deadTwo b player :
  evaluatePatternsForPlayer (with_deadTwo ai q) b player
  = evaluatePatternsForPlayer ai b player.
Proof.
  unfold evaluatePatternsForPlayer.
  change (boardSize (with_deadTwo ai q)) with (boardSize ai).
  do 3 (apply fold_left_ext_eq; [intros a x; by rewrite line_score_deadTwo|]).
  reflexivity.
Qed.

Lemma evaluateBoard_deadTwo b player :
  evaluateBoard (with_deadTwo ai q) b player = evaluateBoard ai b player.
Proof. unfold evaluateBoard. by rewrite !evaluatePatterns_deadTwo. Qed.

Lemma quick_score_deadTwo b row col player :
  quick_score (with_deadTwo ai q) b row col player = quick_score ai b row col player.
Proof.
  unfold quick_score, lines_score.
  change (boardSize (with_deadTwo ai q)) with (boardSize ai).
  do 2 (apply fold_left_ext_eq; [intros a [dx dy]; by rewrite line_score_deadTwo|]).
  reflexivity.
Qed.

Lemma candidates_of_deadTwo b player :
  candidates_of (with_deadTwo ai q) b player = candidates_of ai b player.
Proof.
  unfold candidates_of, ranked_moves.
  change (candidateCount (with_deadTwo ai q)) with (candidateCount ai).
  f_equal.
Qed.

Lemma psearch_deadTwo prune fuel : forall depth alpha beta player b,
  psearch (with_deadTwo ai q) prune fuel depth alpha beta player b
  = psearch ai prune fuel depth alpha beta player b.
Proof.
  induction fuel as [|fuel IH]; intros depth alpha beta player b; [done|].
  cbn [psearch]. rewrite evaluateBoard_deadTwo, candidates_of_deadTwo.
  change (checkWinner (with_deadTwo ai q) b) with (checkWinner ai b).
  destruct (depth =? 0); [done|].
  destruct (checkWinner ai b =? player); [done|].
  destruct (checkWinner ai b =? 3 - player); [done|].
  destruct (candidates_of ai b player) as [|c0 cs]; [done|].
  rewrite (psearch_loop_ext prune _
             (fun b0 a' b' => psearch ai prune fuel (depth - 1) a' b' (3 - player) b0));
    [done|].
  intros. apply IH.
Qed.

Lemma pfindBestMove_deadTwo prune b player :
  pfindBestMove (with_deadTwo ai q) prune b player = pfindBestMove ai prune b player.
Proof.
  unfold pfindBestMove. rewrite candidates_of_deadTwo.
  destruct (candidates_of ai b player) as [|c0 cs]; [done|].
  change (search_fuel (with_deadTwo ai q)) with (search_fuel ai).
  change (searchDepth (with_deadTwo ai q)) with (searchDepth ai).
  rewrite (proot_loop_ext _
             (fun b0 a' b' => psearch ai prune (search_fuel ai) (searchDepth ai - 1) a' b'
                                (3 - player) b0)); [done|].
  intros. apply psearch_deadTwo.
Qed.

End DeadTwo.

(** X13. The weight [deadTwo] of the settings is read by
    [calculatePatternScore] and by nothing else: no rule of the pattern
    table has that type.  Whatever it is set to, [calculateLineScore],
    [evaluatePatternsForPlayer], [evaluateBoard], [quickEvaluatePosition],
    [generateCandidateMoves], [alphaBetaSearch] and [findBestMove] return the
    same values and leave the same state, and [detectAllPatterns] counts the
    same; [calculatePatternScore] changes by the [deadTwo] counter times the
    change of the weight. *)
Theorem deadTwo_read_by_tally_only (ai : Settings) (q : Q) :
  (forall s, calculateLineScore (patternWeights (with_deadTwo ai q)) s
             = calculateLineScore (patternWeights ai) s)
  /\ (forall b player, evaluateBoard (with_deadTwo ai q) b player = evaluateBoard ai b player)
  /\ (forall player w, generateCandidateMoves (with_deadTwo ai q) player w
                       = generateCandidateMoves ai player w)
  /\ (forall fuel depth alpha beta player w,
        alphaBetaSearch (with_deadTwo ai q) fuel depth alpha beta player w
        = alphaBetaSearch ai fuel depth alpha beta player w)
  /\ (forall player w, findBestMove (with_deadTwo ai q) player w = findBestMove ai player w)
  /\ (forall b player, evaluatePatternsForPlayer (with_deadTwo ai q) b player
                       = evaluatePatternsForPlayer ai b player)
  /\ (forall row col player w, quickEvaluatePosition (with_deadTwo ai q) row col player w
                               = quickEvaluatePosition ai row col player w)
  /\ (forall b player, detectAllPatterns (with_deadTwo ai q) b player
                       = detectAllPatterns ai b player)
  /\ (forall patterns,
        (calculatePatternScore (with_deadTwo ai q) patterns
         == calculatePatternScore ai patterns
            + inject_Z (patterns deadTwo) * (q - w_deadTwo (patternWeights ai)))%Q).
Proof.
  split; [apply line_score_deadTwo|]. split; [apply evaluateBoard_deadTwo|].
  split; [|split; [|split; [|split; [|split; [|split]]]]].
  - intros. by rewrite !generateCandidateMoves_run, candidates_of_deadTwo.
  - intros. unfold alphaBetaSearch. by rewrite !search_run, psearch_deadTwo.
  - intros. unfold findBestMove. by rewrite !findBestMove_run, pfindBestMove_deadTwo.
  - apply evaluatePatterns_deadTwo.
  - reflexivity.
  - reflexivity.
  - intros patterns. unfold calculatePatternScore.
    cbn [with_deadTwo patternWeights w_liveFive w_liveFour w_deadFour w_liveThree
         w_deadThree w_liveTwo w_deadTwo].
    ring.
Qed.

(** ** The run detector *)

Section Walk.

Variable ai : Settings.
Variable b : Board.
Variables player dx dy : Z.

Lemma detect_walk_count fuel : forall r c count blocked,
  fst (detect_walk ai fuel b player r c dx dy count blocked)
  = run_count ai fuel b player r c dx dy count.
Proof.
  induction fuel as [|fuel IH]; intros r c count blocked; [done|].
  cbn [detect_walk run_count].
  destruct ((r >=? 0) && (r <? boardSize ai) && (c >=? 0) && (c <? boardSize ai)); [|done].
  cbn [andb]. destruct (is_val (cell b r c) player); [apply IH|done].
Qed.

(** The walk stops after [n] stones of [player]: on the cell that ends the
    run when it has fuel left. *)
Lemma detect_walk_spec fuel : forall r c count blocked,
  exists n : nat,
    (n <= fuel)%nat
    /\ (forall i : nat, (i < n)%nat ->
          run_on ai b player (r + Z.of_nat i * dx) (c + Z.of_nat i * dy))
    /\ ((n < fuel)%nat ->
          ~ run_on ai b player (r + Z.of_nat n * dx) (c + Z.of_nat n * dy))
    /\ detect_walk ai fuel b player r c dx dy count blocked
       = (count + Z.of_nat n,
          if (n <? fuel)%nat
          then blocked + blocked_by ai b player (r + Z.of_nat n * dx) (c + Z.of_nat n * dy)
          else blocked).
Proof.
  induction fuel as [|fuel IH]; intros r c count blocked.
  - exists 0%nat. split; [lia|]. split; [intros; lia|]. split; [lia|].
    simpl. f_equal. lia.
  - cbn [detect_walk].
    destruct ((r >=? 0) && (r <? boardSize ai) && (c >=? 0) && (c <? boardSize ai)) eqn:Eg.
    + destruct (is_val (cell b r c) player) eqn:Ev.
      * destruct (IH (r + dx) (c + dy) (count + 1) blocked) as (n & Hn & Hrun & Hend & ->).
        exists (S n). split; [lia|]. split; [|split].
        -- intros [|i] Hi.
           ++ replace (r + Z.of_nat 0 * dx) with r by lia.
              replace (c + Z.of_nat 0 * dy) with c by lia.
              apply run_test. by rewrite Eg, Ev.
           ++ replace (r + Z.of_nat (S i) * dx) with (r + dx + Z.of_nat i * dx) by lia.
              replace (c + Z.of_nat (S i) * dy) with (c + dy + Z.of_nat i * dy) by lia.
              apply Hrun. lia.
        -- intros Hlt.
           replace (r + Z.of_nat (S n) * dx) with (r + dx + Z.of_nat n * dx) by lia.
           replace (c + Z.of_nat (S n) * dy) with (c + dy + Z.of_nat n * dy) by lia.
           apply Hend. lia.
        -- replace (r + Z.of_nat (S n) * dx) with (r + dx + Z.of_nat n * dx) by lia.
           replace (c + Z.of_nat (S n) * dy) with (c + dy + Z.of_nat n * dy) by lia.
           change (S n <? S fuel)%nat with (n <? fuel)%nat.
           f_equal. lia.
      * exists 0%nat. split; [lia|].
        replace (r + Z.of_nat 0 * dx) with r by lia.
        replace (c + Z.of_nat 0 * dy) with c by lia.
        split; [intros; lia|]. split.
        -- intros _ H. apply run_test in H. rewrite Eg, Ev in H. done.
        -- cbn [Nat.ltb Nat.leb]. unfold blocked_by. rewrite Eg. cbn [andb].
           f_equal; [lia|]. destruct (is_val (cell b r c) (3 - player)); lia.
    + exists 0%nat. split; [lia|].
      replace (r + Z.of_nat 0 * dx) with r by lia.
      replace (c + Z.of_nat 0 * dy) with c by lia.
      split; [intros; lia|]. split.
      * intros _ H. apply run_test in H. rewrite Eg in H. done.
      * cbn [Nat.ltb Nat.leb]. unfold blocked_by. rewrite Eg. cbn [andb].
        f_equal; lia.
Qed.

End Walk.

Lemma walk_short ai b player r c dx dy (n : nat) :
  dx <> 0 \/ dy <> 0 ->
  0 <= r - dx < boardSize ai -> 0 <= c - dy < boardSize ai ->
  (forall i : nat, (i < n)%nat ->
     run_on ai b player (r + Z.of_nat i * dx) (c + Z.of_nat i * dy)) ->
  (n < Z.to_nat (boardSize ai))%nat.
Proof.
  intros Hd Hr Hc Hrun.
  destruct (decide (n < Z.to_nat (boardSize ai))%nat) as [|Hge]; [done|]. exfalso.
  destruct (Hrun (Z.to_nat (boardSize ai) - 1)%nat ltac:(lia)) as (Hr' & Hc' & _).
  rewrite Nat2Z.inj_sub, Z2Nat.id in Hr', Hc' by lia.
  change (Z.of_nat 1) with 1 in *.
  destruct Hd as [Hd|Hd]; nia.
Qed.

(** The result of [detectPatternInDirection] by the lengths of the two runs. *)
Lemma detect_runs (ai : Settings) (b : Board)
    (row col dx dy player : Z) :
  0 <= row < boardSize ai -> 0 <= col < boardSize ai -> dx <> 0 \/ dy <> 0 ->
  exists f k : nat,
    (forall i : nat, (1 <= i <= f)%nat ->
       run_on ai b player (row + Z.of_nat i * dx) (col + Z.of_nat i * dy))
    /\ ~ run_on ai b player (row + (Z.of_nat f + 1) * dx) (col + (Z.of_nat f + 1) * dy)
    /\ (forall i : nat, (1 <= i <= k)%nat ->
          run_on ai b player (row - Z.of_nat i * dx) (col - Z.of_nat i * dy))
    /\ ~ run_on ai b player (row - (Z.of_nat k + 1) * dx) (col - (Z.of_nat k + 1) * dy)
    /\ detectPatternInDirection ai b row col dx dy player
       = classify_run (1 + Z.of_nat f + Z.of_nat k)
           (blocked_by ai b player (row + (Z.of_nat f + 1) * dx)
                       (col + (Z.of_nat f + 1) * dy)
            + blocked_by ai b player (row - (Z.of_nat k + 1) * dx)
                         (col - (Z.of_nat k + 1) * dy)).
Proof.
  intros Hrow Hcol Hd. unfold detectPatternInDirection.
  destruct (detect_walk_spec ai b player dx dy (Z.to_nat (boardSize ai))
              (row + dx) (col + dy) 1 0) as (f & _ & Hrunf & Hendf & ->).
  assert (Hf : (f < Z.to_nat (boardSize ai))%nat).
  { apply (walk_short ai b player (row + dx) (col + dy) dx dy); [done|lia|lia|done]. }
  apply Nat.ltb_lt in Hf as Hf'. rewrite Hf'.
  match goal with
  | |- context [detect_walk ai ?fuel b player ?r ?c ?ddx ?ddy ?cnt ?bl] =>
      destruct (detect_walk_spec ai b player ddx ddy fuel r c cnt bl)
        as (k & _ & Hrunk & Hendk & ->)
  end.
  assert (Hk : (k < Z.to_nat (boardSize ai))%nat).
  { apply (walk_short ai b player (row - dx) (col - dy) (- dx) (- dy)); [lia|lia|lia|done]. }
  apply Nat.ltb_lt in Hk as Hk'. rewrite Hk'.
  exists f, k.
  replace (row + dx + Z.of_nat f * dx) with (row + (Z.of_nat f + 1) * dx) in * by lia.
  replace (col + dy + Z.of_nat f * dy) with (col + (Z.of_nat f + 1) * dy) in * by lia.
  replace (row - dx + Z.of_nat k * - dx) with (row - (Z.of_nat k + 1) * dx) in * by lia.
  replace (col - dy + Z.of_nat k * - dy) with (col - (Z.of_nat k + 1) * dy) in * by lia.
  split; [|split; [|split; [|split]]].
  - intros [|i] Hi; [lia|]. specialize (Hrunf i ltac:(lia)).
    replace (row + Z.of_nat (S i) * dx) with (row + dx + Z.of_nat i * dx) by lia.
    replace (col + Z.of_nat (S i) * dy) with (col + dy + Z.of_nat i * dy) by lia.
    done.
  - by apply Hendf.
  - intros [|i] Hi; [lia|]. specialize (Hrunk i ltac:(lia)).
    replace (row - Z.of_nat (S i) * dx) with (row - dx + Z.of_nat i * - dx) by lia.
    replace (col - Z.of_nat (S i) * dy) with (col - dy + Z.of_nat i * - dy) by lia.
    done.
  - by apply Hendk.
  - f_equal.
Qed.

(** X14. [detectPatternInDirection] on a cell of the grid, in a direction
    other than (0, 0): with [f] the number of stones of [player] that follow
    the cell and [k] the number that precede it (each maximal), the result is
    the classification of the count [1 + f + k] with [blocked] the number of
    the two cells beyond the run that are on the grid and hold a stone of the
    opponent.  An end at the edge of the grid does not count as blocked, and
    the cell itself is counted whatever it holds. *)
Theorem detectPatternInDirection_spec (ai : Settings) (b : Board)
    (row col dx dy player : Z) :
  0 <= row < boardSize ai -> 0 <= col < boardSize ai -> dx <> 0 \/ dy <> 0 ->
  exists f k : nat,
    (forall i : nat, (1 <= i <= f)%nat ->
       run_on ai b player (row + Z.of_nat i * dx) (col + Z.of_nat i * dy))
    /\ ~ run_on ai b player (row + (Z.of_nat f + 1) * dx) (col + (Z.of_nat f + 1) * dy)
    /\ (forall i : nat, (1 <= i <= k)%nat ->
          run_on ai b player (row - Z.of_nat i * dx) (col - Z.of_nat i * dy))
    /\ ~ run_on ai b player (row - (Z.of_nat k + 1) * dx) (col - (Z.of_nat k + 1) * dy)
    /\ detectPatternInDirection ai b row col dx dy player
       = classify_run (1 + Z.of_nat f + Z.of_nat k)
           (blocked_by ai b player (row + (Z.of_nat f + 1) * dx)
                       (col + (Z.of_nat f + 1) * dy)
            + blocked_by ai b player (row - (Z.of_nat k + 1) * dx)
                         (col - (Z.of_nat k + 1) * dy)).
Proof. apply detect_runs. Qed.

Lemma detectPatternInDirection_spec_witness :
  0 <= 7 < boardSize default_settings /\ 0 <= 7 < boardSize default_settings
  /\ (0 <> 0 \/ 1 <> 0)
  /\ exists f k : nat,
       detectPatternInDirection default_settings white_pair_board 7 7 0 1 2
       = classify_run (1 + Z.of_nat f + Z.of_nat k)
           (blocked_by default_settings white_pair_board 2 (7 + (Z.of_nat f + 1) * 0)
                       (7 + (Z.of_nat f + 1) * 1)
            + blocked_by default_settings white_pair_board 2 (7 - (Z.of_nat k + 1) * 0)
                         (7 - (Z.of_nat k + 1) * 1)).
Proof.
  assert (H1 : 0 <= 7 < boardSize default_settings) by (change (0 <= 7 < 15); lia).
  assert (H2 : 0 <> 0 \/ 1 <> 0) by (right; discriminate).
  split; [exact H1|]. split; [exact H1|]. split; [exact H2|].
  destruct (detectPatternInDirection_spec default_settings white_pair_board 7 7 0 1 2
              H1 H1 H2) as (f & k & _ & _ & _ & _ & H).
  exists f, k. exact H.
Defined.

(** ** The tally of [detectAllPatterns] *)

Lemma detect_directions_count ai b row col player t : forall ds p,
  fold_left (fun patterns '(dx, dy) =>
               match detectPatternInDirection ai b row col dx dy player with
               | Some pattern => count_pattern pattern patterns
               | None => patterns
               end) ds p t
  = p t + Z.of_nat (length (filter (fun d : Z * Z =>
                                      detectPatternInDirection ai b row col (fst d) (snd d)
                                        player = Some t) ds)).
Proof.
  induction ds as [|[dx dy] ds IH]; intros p; [simpl; lia|].
  cbn [fold_left]. rewrite IH, filter_cons. cbn [fst snd].
  destruct (detectPatternInDirection ai b row col dx dy player) as [t'|] eqn:E.
  - unfold count_pattern. destruct (decide (t = t')) as [->|Hne].
    + rewrite decide_True by done. simpl length. lia.
    + rewrite decide_False by congruence. lia.
  - rewrite decide_False by done. lia.
Qed.

Lemma counts_as_directions ai b player t m : forall ds,
  length (filter (fun md => counts_as ai b player t md = true) (map (fun d => (m, d)) ds))
  = if is_val (cell b (fst m) (snd m)) player
    then length (filter (fun d : Z * Z =>
                           detectPatternInDirection ai b (fst m) (snd m) (fst d) (snd d)
                             player = Some t) ds)
    else 0%nat.
Proof.
  induction ds as [|d ds IH]; [by destruct (is_val _ _)|].
  cbn [map]. rewrite !filter_cons.
  assert (Hc : counts_as ai b player t (m, d)
               = is_val (cell b (fst m) (snd m)) player
                 && bool_decide (detectPatternInDirection ai b (fst m) (snd m) (fst d) (snd d)
                                   player = Some t)) by done.
  destruct (is_val (cell b (fst m) (snd m)) player) eqn:Ev; cbn [andb] in Hc.
  - destruct (decide (detectPatternInDirection ai b (fst m) (snd m) (fst d) (snd d) player
                      = Some t)) as [Hd|Hd].
    + rewrite decide_True by (rewrite Hc; by apply bool_decide_eq_true).
      simpl. by rewrite IH.
    + rewrite decide_False by (rewrite Hc, bool_decide_eq_true; done). done.
  - rewrite decide_False by (by rewrite Hc). done.
Qed.

Lemma detectAllPatterns_count ai b player t :
  detectAllPatterns ai b player t
  = Z.of_nat (length (filter (fun md => counts_as ai b player t md = true)
                             (cell_directions ai))).
Proof.
  unfold detectAllPatterns, cell_directions.
  assert (H : forall cells p,
    fold_left (fun patterns '(row, col) =>
                 if negb (is_val (cell b row col) player) then patterns
                 else detect_directions ai b row col player patterns) cells p t
    = p t + Z.of_nat (length (filter (fun md => counts_as ai b player t md = true)
                                (flat_map (fun m => map (fun d => (m, d)) directions) cells)))).
  { induction cells as [|[row col] cells IH]; intros p; [simpl; lia|].
    cbn [fold_left flat_map]. rewrite IH, filter_app, length_app, counts_as_directions.
    cbn [fst snd].
    destruct (is_val (cell b row col) player); cbn [negb]; [|lia].
    unfold detect_directions. rewrite detect_directions_count. lia. }
  rewrite H. unfold no_patterns. lia.
Qed.

Lemma directions_nonzero dx dy : (dx, dy) ∈ directions -> dx <> 0 \/ dy <> 0.
Proof.
  unfold directions. rewrite !elem_of_cons, elem_of_nil.
  intros [H|[H|[H|[H|[]]]]]; inversion H; subst; lia.
Qed.

Lemma classify_run_five count blocked :
  classify_run count blocked = Some liveFive <-> 5 <= count.
Proof.
  unfold classify_run. destruct (count >=? 5) eqn:E5.
  - apply Z.geb_le in E5. done.
  - assert (count < 5).
    { destruct (decide (count < 5)) as [|Hge]; [done|].
      assert ((count >=? 5) = true) by (apply Z.geb_le; lia). congruence. }
    split; [|lia].
    destruct (count =? 4); [by destruct (blocked =? 0)|].
    destruct (count =? 3); [by destruct (blocked =? 0)|].
    destruct (count =? 2); [by destruct (blocked =? 0)|]. done.
Qed.

(** A stone of a five reports the five. *)
Lemma five_detected ai b player r c dx dy j :
  (dx, dy) ∈ directions -> five_from (boardSize ai) b player r c dx dy -> 0 <= j < 5 ->
  detectPatternInDirection ai b (r + j * dx) (c + j * dy) dx dy player = Some liveFive.
Proof.
  intros Hd Hfive Hj.
  destruct (Hfive j Hj) as (Hr & Hc & _).
  destruct (detect_runs ai b (r + j * dx) (c + j * dy) dx dy player Hr Hc
              (directions_nonzero _ _ Hd)) as (f & k & _ & Hendf & _ & Hendk & ->).
  apply classify_run_five.
  assert (4 - j <= Z.of_nat f).
  { destruct (decide (4 - j <= Z.of_nat f)) as [|Hlt]; [done|]. exfalso. apply Hendf.
    destruct (Hfive (j + (Z.of_nat f + 1)) ltac:(lia)) as (H1 & H2 & H3).
    unfold run_on.
    replace (r + j * dx + (Z.of_nat f + 1) * dx) with (r + (j + (Z.of_nat f + 1)) * dx)
      by lia.
    replace (c + j * dy + (Z.of_nat f + 1) * dy) with (c + (j + (Z.of_nat f + 1)) * dy)
      by lia.
    done. }
  assert (j <= Z.of_nat k).
  { destruct (decide (j <= Z.of_nat k)) as [|Hlt]; [done|]. exfalso. apply Hendk.
    destruct (Hfive (j - (Z.of_nat k + 1)) ltac:(lia)) as (H1 & H2 & H3).
    unfold run_on.
    replace (r + j * dx - (Z.of_nat k + 1) * dx) with (r + (j - (Z.of_nat k + 1)) * dx)
      by lia.
    replace (c + j * dy - (Z.of_nat k + 1) * dy) with (c + (j - (Z.of_nat k + 1)) * dy)
      by lia.
    done. }
  lia.
Qed.

(** A reported five is a five on the board. *)
Lemma detected_five ai b player row col dx dy :
  0 <= row < boardSize ai -> 0 <= col < boardSize ai -> (dx, dy) ∈ directions ->
  cell b row col = Some player ->
  detectPatternInDirection ai b row col dx dy player = Some liveFive ->
  has_five (boardSize ai) b player.
Proof.
  intros Hr Hc Hd Hcell H.
  destruct (detect_runs ai b row col dx dy player Hr Hc (directions_nonzero _ _ Hd))
    as (f & k & Hrunf & _ & Hrunk & _ & E).
  rewrite E in H. apply classify_run_five in H.
  assert (Hall : forall i, - Z.of_nat k <= i <= Z.of_nat f ->
            run_on ai b player (row + i * dx) (col + i * dy)).
  { intros i Hi. destruct (Z.compare_spec i 0) as [->|Hneg|Hpos].
    - replace (row + 0 * dx) with row by lia. replace (col + 0 * dy) with col by lia.
      done.
    - specialize (Hrunk (Z.to_nat (- i)) ltac:(lia)).
      rewrite Z2Nat.id in Hrunk by lia.
      replace (row - - i * dx) with (row + i * dx) in Hrunk by lia.
      replace (col - - i * dy) with (col + i * dy) in Hrunk by lia. done.
    - specialize (Hrunf (Z.to_nat i) ltac:(lia)).
      rewrite Z2Nat.id in Hrunf by lia. done. }
  exists (row - Z.of_nat k * dx), (col - Z.of_nat k * dy), dx, dy. split; [done|].
  intros j Hj. specialize (Hall (j - Z.of_nat k) ltac:(lia)).
  replace (row - Z.of_nat k * dx + j * dx) with (row + (j - Z.of_nat k) * dx) by lia.
  replace (col - Z.of_nat k * dy + j * dy) with (col + (j - Z.of_nat k) * dy) by lia.
  done.
Qed.

Lemma elem_of_cell_directions ai m d :
  (m, d) ∈ cell_directions ai <-> m ∈ scan_order ai /\ d ∈ directions.
Proof.
  unfold cell_directions. rewrite list_elem_of_In, in_flat_map. split.
  - intros (m' & Hm' & Hin). apply in_map_iff in Hin as (d' & [= <- <-] & Hd).
    by rewrite !list_elem_of_In.
  - intros [Hm Hd]. exists m. split; [by apply list_elem_of_In|].
    apply in_map_iff. exists d. split; [done|]. by apply list_elem_of_In.
Qed.

Lemma five_counted ai b player :
  has_five (boardSize ai) b player -> 5 <= detectAllPatterns ai b player liveFive.
Proof.
  rewrite detectAllPatterns_count.
  intros (r & c & dx & dy & Hd & Hfive).
  pose (L := map (fun j => ((r + j * dx, c + j * dy), (dx, dy))) (seqZ 0 5)).
  assert (Hnd : NoDup L).
  { apply NoDup_fmap_2_strong; [|apply NoDup_seqZ].
    intros x y _ _ H. inversion H as [[H1 H2]].
    apply directions_nonzero in Hd. destruct Hd; nia. }
  assert (Hsub : forall x, x ∈ L ->
            x ∈ filter (fun md => counts_as ai b player liveFive md = true)
                       (cell_directions ai)).
  { intros x Hx. apply list_elem_of_fmap in Hx as (j & -> & Hj).
    apply elem_of_seqZ in Hj.
    destruct (Hfive j ltac:(lia)) as (H1 & H2 & H3).
    apply list_elem_of_filter. split.
    - unfold counts_as. cbn [fst snd]. rewrite H3. cbn [is_val]. rewrite Z.eqb_refl.
      cbn [andb]. apply bool_decide_eq_true. apply five_detected; [done|done|lia].
    - apply elem_of_cell_directions. split; [|done]. by apply elem_of_scan_order. }
  pose proof (submseteq_length _ _ (NoDup_submseteq _ _ Hnd Hsub)) as Hlen.
  unfold L in Hlen. rewrite length_map, length_seqZ in Hlen. lia.
Qed.

(** X15. [detectAllPatterns] against [hasFiveInARow], on a grid of side at
    least 5: the counter [liveFive] is positive exactly when the player has
    five in a row, and then it is at least 5, since each stone of the five
    counts the five once. *)
Theorem five_is_counted_per_stone (ai : Settings) (b : Board) (player : Z) :
  5 <= boardSize ai ->
  (hasFiveInARow ai b player = true <-> 0 < detectAllPatterns ai b player liveFive)
  /\ (hasFiveInARow ai b player = true -> 5 <= detectAllPatterns ai b player liveFive).
Proof.
  intros Hsize. rewrite detectAllPatterns_count, hasFiveInARow_spec by done.
  pose proof (five_counted ai b player) as Hfive.
  rewrite detectAllPatterns_count in Hfive.
  split; [split|exact Hfive].
  - intros H. apply Hfive in H. lia.
  - intros Hpos.
    destruct (filter (fun md => counts_as ai b player liveFive md = true)
                (cell_directions ai)) as [|[[row col] [dx dy]] rest] eqn:E;
      [simpl in Hpos; lia|].
    assert (Hin : ((row, col), (dx, dy))
                  ∈ filter (fun md => counts_as ai b player liveFive md = true)
                      (cell_directions ai)) by (rewrite E; left).
    apply list_elem_of_filter in Hin as [Hc Hin].
    apply elem_of_cell_directions in Hin as [Hm Hd].
    apply elem_of_scan_order in Hm as [Hr Hcol].
    unfold counts_as in Hc. cbn [fst snd] in Hc. apply andb_true_iff in Hc as [Hv Hdet].
    apply is_val_true in Hv. apply bool_decide_eq_true in Hdet.
    exact (detected_five ai b player row col dx dy Hr Hcol Hd Hv Hdet).
Qed.

Lemma five_is_counted_per_stone_witness :
  5 <= boardSize default_settings
  /\ (hasFiveInARow default_settings both_five_board 2 = true
      -> 5 <= detectAllPatterns default_settings both_five_board 2 liveFive).
Proof.
  assert (H : 5 <= boardSize default_settings) by (change (5 <= 15); lia).
  split; [exact H|].
  exact (proj2 (five_is_counted_per_stone default_settings both_five_board 2 H)).
Defined.

(** X16. The tally scores a five at least five times: with no negative
    weight, on a grid of side at least 5, [calculatePatternScore] of
    [detectAllPatterns] is at least [5 * liveFive] for a player with five in
    a row. *)
Theorem five_scores_five_times (ai : Settings) (b : Board) (player : Z) :
  nonneg_weights (patternWeights ai) -> 5 <= boardSize ai ->
  hasFiveInARow ai b player = true ->
  (5 * w_liveFive (patternWeights ai)
   <= calculatePatternScore ai (detectAllPatterns ai b player))%Q.
Proof.
  intros Hw Hsize Hfive.
  assert (H5 : 5 <= detectAllPatterns ai b player liveFive)
    by (apply five_counted; by apply hasFiveInARow_spec).
  assert (Hpos : forall t, (0 <= inject_Z (detectAllPatterns ai b player t)
                                * weight (patternWeights ai) t)%Q).
  { intros t. apply Qmult_le_0_compat; [|apply Hw].
    rewrite detectAllPatterns_count. change 0%Q with (inject_Z 0).
    rewrite <- Zle_Qle. lia. }
  assert (H5' : (5 * w_liveFive (patternWeights ai)
                 <= inject_Z (detectAllPatterns ai b player liveFive)
                    * w_liveFive (patternWeights ai))%Q).
  { apply Qmult_le_compat_r; [|apply (Hw liveFive)].
    change 5%Q with (inject_Z 5). by rewrite <- Zle_Qle. }
  pose proof (Hpos liveFour). pose proof (Hpos deadFour). pose proof (Hpos liveThree).
  pose proof (Hpos deadThree). pose proof (Hpos liveTwo). pose proof (Hpos deadTwo).
  unfold calculatePatternScore. cbn [weight] in *. lra.
Qed.

Lemma five_scores_five_times_witness :
  nonneg_weights (patternWeights default_settings) /\ 5 <= boardSize default_settings
  /\ hasFiveInARow default_settings both_five_board 2 = true
  /\ (5 * w_liveFive (patternWeights default_settings)
      <= calculatePatternScore default_settings
           (detectAllPatterns default_settings both_five_board 2))%Q.
Proof.
  assert (H1 : nonneg_weights (patternWeights default_settings))
    by (intros t; destruct t; vm_compute; discriminate).
  assert (H2 : 5 <= boardSize default_settings) by (vm_compute; discriminate).
  assert (H3 : hasFiveInARow default_settings both_five_board 2 = true)
    by (vm_compute; reflexivity).
  split; [exact H1|]. split; [exact H2|]. split; [exact H3|].
  exact (five_scores_five_times default_settings both_five_board 2 H1 H2 H3).
Defined.

(** ** The game controller *)

Lemma replay_snoc h r c p : replay (h ++ [(r, c, p)]) = set_cell (replay h) r c p.
Proof. unfold replay. by rewrite fold_left_app. Qed.

Lemma wf_replay h : wf_board 15 (replay h).
Proof.
  induction h as [|[[r c] p] h IH] using rev_ind.
  - apply (wf_empty_board 15).
  - rewrite replay_snoc. by apply wf_board_set_cell.
Qed.

Lemma cell_in_grid n (b : Board) r c v :
  wf_board n b -> cell b r c = Some v -> 0 <= r < n /\ 0 <= c < n.
Proof.
  intros [Hlen Hrows] H. pose proof (cell_Some_range _ _ _ _ H) as [Hr Hc].
  unfold cell in H. destruct ((r <? 0) || (c <? 0)); [done|].
  destruct (b !! Z.to_nat r) as [row|] eqn:Hrow; [|done].
  apply lookup_lt_Some in H as Hlt.
  rewrite Forall_forall in Hrows. specialize (Hrows row (list_elem_of_lookup_2 _ _ _ Hrow)).
  apply lookup_lt_Some in Hrow. lia.
Qed.

Lemma cell_replay_fresh h r c :
  0 <= r < 15 -> 0 <= c < 15 -> (r, c) ∉ map position h -> cell (replay h) r c = Some 0.
Proof.
  intros Hr Hc. induction h as [|[[r' c'] p] h IH] using rev_ind; intros Hfresh.
  - by apply (cell_empty_board 15).
  - rewrite map_app in Hfresh. rewrite replay_snoc.
    rewrite cell_set_cell_ne.
    + apply IH. intros Hin. apply Hfresh, elem_of_app. by left.
    + intros Heq. apply Hfresh, elem_of_app. right. simpl. rewrite <- Heq. left.
Qed.

Lemma cell_replay_played h r c p :
  (forall m, m ∈ h -> 0 <= fst (position m) < 15 /\ 0 <= snd (position m) < 15) ->
  NoDup (map position h) -> (r, c, p) ∈ h -> cell (replay h) r c = Some p.
Proof.
  induction h as [|[[r' c'] p'] h IH] using rev_ind; intros Hgrid Hnd Hin.
  - by apply elem_of_nil in Hin.
  - rewrite map_app in Hnd. apply NoDup_app in Hnd as (Hnd & Hdisj & _).
    rewrite replay_snoc. apply elem_of_app in Hin as [Hin|Hin].
    + rewrite cell_set_cell_ne.
      * apply IH; [|done|done]. intros m Hm. apply Hgrid, elem_of_app. by left.
      * intros Heq. apply (Hdisj (r, c)).
        -- apply (list_elem_of_fmap_2 position _ (r, c, p)) in Hin. done.
        -- rewrite <- Heq. left.
    + apply list_elem_of_singleton in Hin. inversion Hin; subst.
      assert (Hg : 0 <= r' < 15 /\ 0 <= c' < 15).
      { apply (Hgrid (r', c', p')), elem_of_app. right. left. }
      apply (cell_set_cell_eq _ _ _ _ 0). apply cell_replay_fresh; [tauto|tauto|].
      intros Hin'. apply (Hdisj (r', c')); [done|left].
Qed.

Lemma checkWinner_empty ai : boardSize ai = 15 -> checkWinner ai (empty_board 15) = -1.
Proof.
  intros Hsize. unfold checkWinner, hasFiveInARow, isBoardFull, scan_order.
  rewrite Hsize. vm_compute. reflexivity.
Qed.

Lemma consistent_set_aiThinking ai g v : consistent ai g -> consistent ai (set_aiThinking g v).
Proof. done. Qed.

Lemma consistent_initBoard ai g : boardSize ai = 15 -> consistent ai (initBoard g).
Proof.
  intros Hsize. unfold consistent, initBoard. cbn [game_board moveHistory gameOver winner
                                                    currentPlayer].
  rewrite checkWinner_empty by done.
  split; [done|]. split; [intros m Hm; by apply elem_of_nil in Hm|].
  split; [constructor|]. split; [|split; [done|split; [done|by left]]].
  intros h1 m h2 H. by destruct h1.
Qed.

Lemma consistent_makeMove ai g row col g' :
  consistent ai g -> makeMove ai g row col = Some g' -> consistent ai g'.
Proof.
  intros Hg H. pose proof Hg as (Hb & Hgrid & Hnd & Hpre & Hover & Hwin & Hp).
  unfold makeMove in H.
  destruct (gameOver g) eqn:Eover; [by inversion H; subst|].
  destruct (negb ((0 <=? row) && (row <? Z.of_nat (length (game_board g))))); [done|].
  destruct (negb (is_val (cell (game_board g) row col) 0)) eqn:Ecell;
    [by inversion H; subst|].
  apply negb_false_iff, is_val_true in Ecell.
  assert (Hin : 0 <= row < 15 /\ 0 <= col < 15).
  { apply (cell_in_grid 15 (game_board g) row col 0); [|done]. rewrite Hb. apply wf_replay. }
  assert (Hfresh : (row, col) ∉ map position (moveHistory g)).
  { intros Hin'. apply list_elem_of_fmap in Hin' as ([[r c] p] & Heq & Hm).
    inversion Heq; subst r c.
    assert (Hc : cell (replay (moveHistory g)) row col = Some p).
    { apply cell_replay_played; [|done|done]. intros m' Hm'. apply Hgrid in Hm'. tauto. }
    rewrite <- Hb, Ecell in Hc. inversion Hc; subst p.
    destruct (Hgrid _ Hm) as (_ & _ & [Hp'|Hp']); simpl in Hp'; lia. }
  assert (Hcons :
    game_board g' = set_cell (game_board g) row col (currentPlayer g)
    /\ moveHistory g' = moveHistory g ++ [(row, col, currentPlayer g)]
    /\ gameOver g' = negb (checkWinner ai (game_board g') =? -1)
    /\ winner g' = (if gameOver g' then Some (checkWinner ai (game_board g')) else None)
    /\ is_player (currentPlayer g')).
  { destruct (negb (checkWinner ai (set_cell (game_board g) row col (currentPlayer g)) =? -1))
      eqn:Ew; inversion H; subst g'; cbn [game_board moveHistory gameOver winner currentPlayer].
    - rewrite Ew. done.
    - rewrite Ew. try rewrite Eover in *. repeat split; try done.
      destruct Hp as [-> | ->]; [by right|by left]. }
  destruct Hcons as (Hb' & Hh' & Hover' & Hwin' & Hp').
  unfold consistent. rewrite Hh'.
  split; [by rewrite Hb', Hb, replay_snoc|].
  split; [|split; [|split; [|done]]].
  - intros m Hm. apply elem_of_app in Hm as [Hm|Hm]; [by apply Hgrid|].
    apply list_elem_of_singleton in Hm. subst m. simpl. tauto.
  - rewrite map_app. apply NoDup_app. split; [done|]. split.
    + intros x Hx Hx'. apply list_elem_of_singleton in Hx'. subst x. done.
    + apply NoDup_singleton.
  - intros h1 m h2 Heq.
    destruct (decide (h2 = [])) as [->|Hne].
    + apply app_inj_tail in Heq as [<- _].
      symmetry in Hover. apply negb_false_iff, Z.eqb_eq in Hover.
      by rewrite <- Hb.
    + destruct (exists_last Hne) as (h2' & m' & ->).
      rewrite app_comm_cons, app_assoc in Heq. apply app_inj_tail in Heq as [Heq _].
      by apply (Hpre h1 m h2').
Qed.

Lemma consistent_undoMove ai g : consistent ai g -> consistent ai (undoMove g).
Proof.
  intros Hg. pose proof Hg as (Hb & Hgrid & Hnd & Hpre & Hover & Hwin & Hp).
  unfold undoMove.
  destruct (moveHistory g) as [|m0 h0] eqn:Eh using rev_ind; [done|]. clear IHh0.
  rename h0 into h. destruct m0 as [[row col] p].
  rewrite last_snoc, removelast_last.
  assert (Hfresh : (row, col) ∉ map position h).
  { rewrite map_app in Hnd. apply NoDup_app in Hnd as (_ & Hdisj & _).
    intros Hin. apply (Hdisj _ Hin). left. }
  assert (Hin : 0 <= row < 15 /\ 0 <= col < 15).
  { destruct (Hgrid (row, col, p)) as (? & ? & _); [|done]. apply elem_of_app. right. left. }
  assert (Hboard : set_cell (game_board g) row col 0 = replay h).
  { rewrite Hb, replay_snoc. apply set_cell_restore.
    apply cell_replay_fresh; tauto. }
  assert (Hnot : checkWinner ai (replay h) = -1) by (by apply (Hpre h (row, col, p) [])).
  unfold consistent. cbn [game_board moveHistory gameOver winner currentPlayer].
  rewrite Hboard, Hnot.
  split; [done|]. split; [|split; [|split; [|split; [done|split; [done|]]]]].
  - intros m Hm. apply Hgrid, elem_of_app. by left.
  - rewrite map_app in Hnd. by apply NoDup_app in Hnd as (? & _ & _).
  - intros h1 m h2 Heq. apply (Hpre h1 m (h2 ++ [(row, col, p)])).
    by rewrite Heq, <- app_assoc.
  - destruct Hp as [-> | ->]; [by right|by left].
Qed.

Lemma findBestMove_board ai player w r w' :
  findBestMove ai player w = Some (r, w') -> the_board w' = the_board w.
Proof.
  unfold findBestMove. rewrite findBestMove_run.
  destruct (pfindBestMove ai true (the_board w) player) as [r0|]; [|done].
  intros H. inversion H; subst. by destruct r.
Qed.

Lemma hasFiveInARow_size ai ai' (b : Board) p :
  boardSize ai = boardSize ai' -> hasFiveInARow ai b p = hasFiveInARow ai' b p.
Proof.
  intros H. unfold hasFiveInARow, scan_order, run_count. by rewrite H.
Qed.

Lemma checkWinner_size ai ai' (b : Board) :
  boardSize ai = boardSize ai' -> checkWinner ai b = checkWinner ai' b.
Proof.
  intros H. unfold checkWinner, isBoardFull, scan_order.
  by rewrite !(hasFiveInARow_size ai ai' b _ H), H.
Qed.

Lemma consistent_size ai ai' g :
  boardSize ai = boardSize ai' -> consistent ai g -> consistent ai' g.
Proof.
  intros H (Hb & Hgrid & Hnd & Hpre & Hover & Hwin & Hp).
  unfold consistent. rewrite <- !(checkWinner_size ai ai' _ H).
  do 3 (split; [done|]). split; [|done].
  intros h1 m h2 Heq. rewrite <- (checkWinner_size ai ai' _ H). by apply (Hpre h1 m h2).
Qed.

Lemma aiMove_resume_cases ai g engine g' engine' :
  aiMove_resume ai g engine = Some (g', engine') ->
  g' = set_aiThinking g false
  \/ exists row col g2, makeMove ai g row col = Some g2 /\ g' = set_aiThinking g2 false.
Proof.
  unfold aiMove_resume.
  destruct (findBestMove ai (currentPlayer g) (with_board engine (game_board g)))
    as [[r w1]|] eqn:E; [|done].
  apply findBestMove_board in E. cbn [with_board the_board] in E. rewrite E.
  assert (Hg : set_board g (game_board g) = g) by (by destruct g). rewrite Hg.
  destruct r as [res|]; [|intros H; inversion H; by left].
  destruct (move res) as [[row col]|]; [|intros H; inversion H; by left].
  destruct (makeMove ai g row col) as [g2|] eqn:Em; intros H; inversion H; subst.
  - right. by exists row, col, g2.
  - by left.
Qed.

(** X17. In every state the game reaches from [initBoard] by [makeMove],
    [undoMove], [newGame] and the two parts of [aiMove], in any order and
    with any arguments, also with calls that fall into the pause of an
    [aiMove] (the engine of each step has [boardSize] 15, as the controller
    builds it): the board is the empty board with the moves of [moveHistory]
    played in order, every move of the history is on the grid and no cell
    was played twice, no position before a move of the history was final,
    the game is over exactly when [checkWinner] of the board is not -1 and
    [winner] is then that value, and the player to move is 1 or 2. *)
Theorem game_invariant (ai : Settings) (g : Game) :
  boardSize ai = 15 -> reachable g -> consistent ai g.
Proof.
  intros Hsize Hreach. induction Hreach as
    [g|ai0 g row col g' H0 _ IH H|g _ IH|g _ IH|g _ IH|ai0 g engine g' engine' H0 _ IH H].
  - by apply consistent_initBoard.
  - apply (consistent_size ai0); [congruence|].
    apply (consistent_makeMove ai0 g row col); [|done].
    apply (consistent_size ai); [congruence|done].
  - by apply consistent_undoMove.
  - by apply consistent_initBoard.
  - unfold aiMove_start. destruct (gameOver g || aiThinking g); [done|].
    by apply consistent_set_aiThinking.
  - apply (consistent_size ai0); [congruence|].
    assert (IH0 : consistent ai0 g) by (apply (consistent_size ai); [congruence|done]).
    apply aiMove_resume_cases in H as [->|(row & col & g2 & Hm & ->)].
    + by apply consistent_set_aiThinking.
    + apply consistent_set_aiThinking. by apply (consistent_makeMove ai0 g row col).
Qed.

Lemma game_invariant_witness :
  boardSize depth1_settings = 15
  /\ exists g2 engine2,
       makeMove depth1_settings new_GomokuGame 7 7 = Some one_move_game
       /\ aiMove_start one_move_game = (set_aiThinking one_move_game true, true)
       /\ aiMove_resume depth1_settings (set_aiThinking one_move_game true) (world_of [])
          = Some (g2, engine2)
       /\ length (moveHistory g2) = 2%nat
       /\ length (moveHistory (undoMove g2)) = 1%nat
       /\ reachable (undoMove g2)
       /\ consistent depth1_settings g2
       /\ consistent depth1_settings (undoMove g2).
Proof.
  assert (H0 : boardSize depth1_settings = 15) by reflexivity.
  assert (H1 : makeMove depth1_settings new_GomokuGame 7 7 = Some one_move_game)
    by (vm_compute; reflexivity).
  assert (H2 : aiMove_start one_move_game = (set_aiThinking one_move_game true, true))
    by reflexivity.
  assert (H3 : exists g2 engine2,
            aiMove_resume depth1_settings (set_aiThinking one_move_game true) (world_of [])
            = Some (g2, engine2)
            /\ length (moveHistory g2) = 2%nat
            /\ length (moveHistory (undoMove g2)) = 1%nat).
  { eexists _, _. split; [vm_compute; reflexivity|]. split; reflexivity. }
  destruct H3 as (g2 & engine2 & H3 & L2 & L1).
  assert (R1 : reachable one_move_game).
  { exact (reach_makeMove depth1_settings new_GomokuGame 7 7 one_move_game H0
             (reach_init _) H1). }
  assert (R2 : reachable (set_aiThinking one_move_game true)).
  { exact (eq_ind _ (fun x => reachable (fst x)) (reach_aiMove_start _ R1) _ H2). }
  assert (R3 : reachable g2).
  { exact (reach_aiMove_resume depth1_settings _ (world_of []) g2 engine2 H0 R2 H3). }
  assert (R4 : reachable (undoMove g2)) by exact (reach_undoMove _ R3).
  split; [exact H0|].
  exists g2, engine2. split; [exact H1|]. split; [exact H2|]. split; [exact H3|].
  split; [exact L2|]. split; [exact L1|]. split; [exact R4|].
  split; [exact (game_invariant depth1_settings g2 H0 R3)|].
  exact (game_invariant depth1_settings (undoMove g2) H0 R4).
Defined.

Lemma cell_has_row (b : Board) r c v :
  cell b r c = Some v -> (0 <=? r) && (r <? Z.of_nat (length b)) = true.
Proof.
  intros H. pose proof (cell_Some_range _ _ _ _ H) as [Hr Hc].
  unfold cell in H. destruct ((r <? 0) || (c <? 0)); [done|].
  destruct (b !! Z.to_nat r) as [row|] eqn:Hrow; [|done].
  apply lookup_lt_Some in Hrow. apply andb_true_iff. split; [lia|].
  apply Z.ltb_lt. lia.
Qed.

Lemma makeMove_empty ai g row col :
  gameOver g = false -> cell (game_board g) row col = Some 0 ->
  exists g',
    makeMove ai g row col = Some g'
    /\ game_board g' = set_cell (game_board g) row col (currentPlayer g)
    /\ moveHistory g' = moveHistory g ++ [(row, col, currentPlayer g)]
    /\ aiThinking g' = aiThinking g
    /\ gameOver g' = negb (checkWinner ai (game_board g') =? -1)
    /\ currentPlayer g' = (if gameOver g' then currentPlayer g else 3 - currentPlayer g)
    /\ winner g' = (if gameOver g' then Some (checkWinner ai (game_board g')) else winner g).
Proof.
  intros Hover Hcell. unfold makeMove. rewrite Hover, (cell_has_row _ _ _ _ Hcell), Hcell.
  cbn [negb is_val Z.eqb].
  destruct (negb (checkWinner ai (set_cell (game_board g) row col (currentPlayer g)) =? -1))
    eqn:Ew; eexists; (split; [done|]);
    cbn [game_board moveHistory gameOver winner currentPlayer aiThinking];
    rewrite ?Ew; done.
Qed.

(** X18. [makeMove] on an empty cell of a game that is not over, then
    [undoMove]: the move is played and recorded, and undoing it gives back
    the board and the history and a game that is not over.  The turn goes
    back to the player who moved unless the move ended the game: then
    [undoMove] hands the turn to the other player.  If the move did not end
    the game and no winner was recorded, the state is the one before the
    move. *)
Theorem makeMove_undoMove (ai : Settings) (g : Game) (row col : Z) :
  gameOver g = false -> cell (game_board g) row col = Some 0 ->
  exists g',
    makeMove ai g row col = Some g'
    /\ game_board g' = set_cell (game_board g) row col (currentPlayer g)
    /\ moveHistory g' = moveHistory g ++ [(row, col, currentPlayer g)]
    /\ game_board (undoMove g') = game_board g
    /\ moveHistory (undoMove g') = moveHistory g
    /\ gameOver (undoMove g') = false
    /\ currentPlayer (undoMove g')
       = (if gameOver g' then 3 - currentPlayer g else currentPlayer g)
    /\ (gameOver g' = false -> winner g = None -> undoMove g' = g).
Proof.
  intros Hover Hcell.
  destruct (makeMove_empty ai g row col Hover Hcell)
    as (g' & Hm & Hb & Hh & Ht & Hov & Hp & Hw).
  exists g'. do 3 (split; [done|]).
  unfold undoMove. rewrite Hh, last_snoc, removelast_last.
  cbn [game_board moveHistory gameOver winner currentPlayer].
  rewrite Hb, set_cell_restore by done. rewrite Hp.
  do 3 (split; [done|]). split.
  - destruct (gameOver g'); [done|lia].
  - intros Hov' Hwin. rewrite Hov'. rewrite Ht.
    destruct g as [b p o wn h t]. cbn in *. subst. f_equal. lia.
Qed.

Lemma makeMove_undoMove_witness :
  gameOver new_GomokuGame = false /\ cell (game_board new_GomokuGame) 7 7 = Some 0
  /\ exists g',
       makeMove default_settings new_GomokuGame 7 7 = Some g'
       /\ undoMove g' = new_GomokuGame.
Proof.
  assert (H1 : gameOver new_GomokuGame = false) by reflexivity.
  assert (H2 : cell (game_board new_GomokuGame) 7 7 = Some 0) by (vm_compute; reflexivity).
  split; [exact H1|]. split; [exact H2|].
  destruct (makeMove_undoMove default_settings new_GomokuGame 7 7 H1 H2)
    as (g' & Hm & _ & _ & _ & _ & _ & _ & Hrt).
  exists g'. split; [exact Hm|]. apply Hrt; [|reflexivity].
  unfold makeMove in Hm. rewrite H1 in Hm. vm_compute in Hm.
  inversion Hm. reflexivity.
Defined.

Lemma makeMove_set_aiThinking ai g v row col :
  makeMove ai (set_aiThinking g v) row col
  = option_map (fun g' => set_aiThinking g' v) (makeMove ai g row col).
Proof.
  unfold makeMove. cbn [set_aiThinking gameOver game_board currentPlayer moveHistory winner
                        aiThinking].
  destruct (gameOver g); [done|].
  destruct (negb ((0 <=? row) && (row <? Z.of_nat (length (game_board g))))); [done|].
  destruct (negb (is_val (cell (game_board g) row col) 0)); [done|].
  by destruct (negb (checkWinner ai (set_cell (game_board g) row col (currentPlayer g)) =? -1)).
Qed.

Lemma set_aiThinking_id g : set_aiThinking g (aiThinking g) = g.
Proof. by destruct g. Qed.


Lemma aiMove_resume_set_aiThinking ai g v engine :
  aiMove_resume ai (set_aiThinking g v) engine = aiMove_resume ai g engine.
Proof.
  unfold aiMove_resume. cbn [set_aiThinking currentPlayer game_board].
  destruct (findBestMove ai (currentPlayer g) (with_board engine (game_board g)))
    as [[r w1]|]; [|done].
  change (set_board (set_aiThinking g v) (the_board w1))
    with (set_aiThinking (set_board g (the_board w1)) v).
  destruct r as [res|]; [|done].
  destruct (move res) as [[row col]|]; [|done].
  rewrite makeMove_set_aiThinking.
  by destruct (makeMove ai (set_board g (the_board w1)) row col).
Qed.

(** X19. [aiMove] after its pause, on the game as it is then (not over; the
    page may have undone moves or started a new game in between): the search
    returns and leaves the board as it was.  If it finds no move (there is
    no candidate cell) only [aiThinking] changes.  Otherwise the move it
    returns is an empty cell, and the game is the one [makeMove] gives for
    that cell: one stone of the player to move is added and recorded.
    [aiThinking] is false at the end.  A call of [aiMove] with the engine
    idle and nothing handled during its pause gives the same game. *)
Theorem aiMove_makes_the_move (ai : Settings) (g : Game) (engine : World) :
  is_player (currentPlayer g) -> gameOver g = false ->
  exists r engine' g',
    findBestMove ai (currentPlayer g) (with_board engine (game_board g)) = Some (r, engine')
    /\ aiMove_resume ai g engine = Some (g', engine')
    /\ the_board engine' = game_board g
    /\ aiThinking g' = false
    /\ match r with
       | None => g' = set_aiThinking g false
       | Some res =>
           exists row col g1,
             move res = Some (row, col)
             /\ cell (game_board g) row col = Some 0
             /\ makeMove ai g row col = Some g1
             /\ g' = set_aiThinking g1 false
             /\ game_board g' = set_cell (game_board g) row col (currentPlayer g)
             /\ moveHistory g' = moveHistory g ++ [(row, col, currentPlayer g)]
       end
    /\ (aiThinking g = false -> aiMove ai g engine = Some (g', engine')).
Proof.
  intros Hp Hover.
  assert (Hatomic : forall x, aiMove_resume ai g engine = x ->
            aiThinking g = false -> aiMove ai g engine = x).
  { intros x Hx Hthink. unfold aiMove, aiMove_start. rewrite Hover, Hthink. cbn [orb].
    by rewrite aiMove_resume_set_aiThinking. }
  unfold aiMove_resume in *.
  destruct (findBestMove ai (currentPlayer g) (with_board engine (game_board g)))
    as [[r w1]|] eqn:E.
  2:{ unfold findBestMove in E. rewrite findBestMove_run in E.
      destruct (pfindBestMove_total ai true (game_board g) (currentPlayer g) Hp)
        as (r & Hr & _).
      cbn [with_board the_board] in E. by rewrite Hr in E. }
  pose proof (findBestMove_board _ _ _ _ _ E) as Hb. cbn [with_board the_board] in Hb.
  rewrite Hb in *.
  assert (Hg : set_board g (game_board g) = g) by (by destruct g). rewrite Hg in *.
  exists r, w1.
  destruct r as [res|].
  - unfold findBestMove in E. rewrite findBestMove_run in E.
    cbn [with_board the_board] in E.
    destruct (pfindBestMove ai true (game_board g) (currentPlayer g)) as [r0|] eqn:Hr;
      [|done].
    inversion E; subst r0 w1. clear E.
    destruct (pfindBestMove_best ai (game_board g) (currentPlayer g) res Hp Hr)
      as (i & [row col] & Hi & Hmove & _).
    apply list_elem_of_lookup_2 in Hi.
    pose proof (candidates_of_empty_cell _ _ _ _ Hi) as Hcell. cbn [fst snd] in Hcell.
    rewrite Hmove in *.
    destruct (makeMove_empty ai g row col Hover Hcell)
      as (g1 & Hm & Hb1 & Hh1 & Ht1 & _).
    rewrite Hm in *.
    exists (set_aiThinking g1 false). do 4 (split; [done|]).
    split; [|intros Ht; by apply Hatomic].
    by exists row, col, g1.
  - exists (set_aiThinking g false). do 5 (split; [done|]). by apply Hatomic.
Qed.

Lemma aiMove_makes_the_move_witness :
  is_player (currentPlayer one_move_game) /\ gameOver one_move_game = false
  /\ exists res engine' g' row col,
       findBestMove depth1_settings 2 (with_board (world_of []) one_stone_board)
       = Some (Some res, engine')
       /\ move res = Some (row, col)
       /\ aiMove_resume depth1_settings one_move_game (world_of []) = Some (g', engine')
       /\ moveHistory g' = [(7, 7, 1); (row, col, 2)]
       /\ aiMove depth1_settings one_move_game (world_of []) = Some (g', engine').
Proof.
  assert (H1 : is_player (currentPlayer one_move_game)) by (right; reflexivity).
  assert (H2 : gameOver one_move_game = false) by reflexivity.
  split; [exact H1|]. split; [exact H2|].
  destruct (aiMove_makes_the_move depth1_settings one_move_game (world_of []) H1 H2)
    as (r & engine' & g' & Hf & Ha & _ & _ & Hcase & Hatomic).
  destruct r as [res|].
  - destruct Hcase as (row & col & g1 & Hmove & _ & _ & _ & _ & Hh).
    exists res, engine', g', row, col.
    split; [exact Hf|]. split; [exact Hmove|]. split; [exact Ha|]. split; [exact Hh|].
    apply Hatomic. reflexivity.
  - exfalso.
    assert (E : option_map (fun x => match fst x with Some _ => true | None => false end)
                  (findBestMove depth1_settings (currentPlayer one_move_game)
                     (with_board (world_of []) (game_board one_move_game)))
                = Some true) by (vm_compute; reflexivity).
    rewrite Hf in E. discriminate E.
Defined.

(** ** The loop of [calculateLineScore] *)

Lemma consume_le re t wt : In (re, t) patterns -> (0 <= wt)%Q ->
  forall fuel s score,
    (consume fuel re wt s score <= score + inject_Z (Z.of_nat (ones s)) * wt)%Q.
Proof.
  intros Hre Hw. induction fuel as [|fuel IH]; intros s score; simpl.
  - assert (0 <= inject_Z (Z.of_nat (ones s)) * wt)%Q; [|lra].
    apply Qmult_le_0_compat; [|done]. change 0%Q with (inject_Z 0).
    rewrite <- Zle_Qle. lia.
  - destruct (regex_match re s) as [m|] eqn:E.
    + apply regex_match_occurs in E as [Hm Hocc].
      pose proof (patterns_have_ones re t m Hre Hm) as H1.
      pose proof (str_replace_ones m (neutralize m) s Hocc) as H2.
      rewrite ones_neutralize in H2.
      specialize (IH (str_replace m (neutralize m) s) (score + wt)%Q).
      eapply Qle_trans; [apply IH|].
      replace (Z.of_nat (ones s))
        with (Z.of_nat (ones (str_replace m (neutralize m) s)) + Z.of_nat (ones m)) by lia.
      rewrite inject_Z_plus.
      assert (1 <= inject_Z (Z.of_nat (ones m)))%Q.
      { change 1%Q with (inject_Z 1). rewrite <- Zle_Qle. lia. }
      assert (0 <= (inject_Z (Z.of_nat (ones m)) - 1) * wt)%Q
        by (apply Qmult_le_0_compat; [lra|done]).
      lra.
    + assert (0 <= inject_Z (Z.of_nat (ones s)) * wt)%Q; [|lra].
      apply Qmult_le_0_compat; [|done]. change 0%Q with (inject_Z 0).
      rewrite <- Zle_Qle. lia.
Qed.

(** X20. The [while (true)] loop of [calculateLineScore] ends by its
    [break]: each round turns at least one 1 of the working copy into x, so
    for a rule of the table every bound above the number of 1s of the line
    gives the same score.  With no negative weight a rule is therefore
    credited at most once per stone of the line, and the line score is at
    most the number of 1s times the sum of the six weights in use. *)
Theorem line_score_upper (w : PatternWeights) (s : string) :
  nonneg_weights w ->
  (forall re t fuel fuel' score, In (re, t) patterns ->
     (ones s < fuel)%nat -> (ones s < fuel')%nat ->
     consume fuel re (weight w t) s score = consume fuel' re (weight w t) s score)
  /\ (calculateLineScore w s
      <= inject_Z (Z.of_nat (ones s))
         * (w_liveFive w + w_liveFour w + w_deadFour w + w_liveThree w + w_deadThree w
            + w_liveTwo w))%Q.
Proof.
  intros Hw. split.
  - intros re t fuel fuel' score Hre Hf Hf'. by apply (consume_enough re t).
  - assert (Hstep : forall re t acc, In (re, t) patterns ->
              (match regex_match re s with
               | Some _ => consume (S (String.length s)) re (weight w t) s acc
               | None => acc
               end <= acc + inject_Z (Z.of_nat (ones s)) * weight w t)%Q).
    { intros re t acc Hre. destruct (regex_match re s).
      - by apply (consume_le re t).
      - assert (0 <= inject_Z (Z.of_nat (ones s)) * weight w t)%Q; [|lra].
        apply Qmult_le_0_compat; [|apply Hw]. change 0%Q with (inject_Z 0).
        rewrite <- Zle_Qle. lia. }
    assert (Hfold : forall rules acc,
              (forall re t, In (re, t) rules -> In (re, t) patterns) ->
              (fold_left (fun score '(re, t) =>
                            match regex_match re s with
                            | Some _ => consume (S (String.length s)) re (weight w t) s score
                            | None => score
                            end) rules acc
               <= acc + inject_Z (Z.of_nat (ones s))
                        * fold_right (fun '(re, t) a => weight w t + a) 0 rules)%Q).
    { induction rules as [|[re t] rules IH]; intros acc Hin; cbn [fold_left fold_right].
      - lra.
      - eapply Qle_trans; [apply IH; intros; apply Hin; by right|].
        specialize (Hstep re t acc (Hin re t ltac:(by left))). lra. }
    unfold calculateLineScore.
    eapply Qle_trans; [apply Hfold; tauto|].
    cbn [patterns fold_right weight]. lra.
Qed.

Lemma line_score_upper_witness :
  nonneg_weights default_weights
  /\ (calculateLineScore default_weights "21011101000000002"
      <= inject_Z (Z.of_nat (ones "21011101000000002"))
         * (w_liveFive default_weights + w_liveFour default_weights
            + w_deadFour default_weights + w_liveThree default_weights
            + w_deadThree default_weights + w_liveTwo default_weights))%Q.
Proof.
  assert (H : nonneg_weights default_weights)
    by (intros t; destruct t; vm_compute; discriminate).
  split; [exact H|].
  exact (proj2 (line_score_upper default_weights "21011101000000002" H)).
Defined.

(** ** The window of [getLineString] *)

Lemma length_append (s t : string) :
  String.length (s +:+ t) = (String.length s + String.length t)%nat.
Proof.
  induction s as [|ch s IH]; [done|].
  change (String.length (String ch (s +:+ t)) = S (String.length s + String.length t)).
  cbn [String.length]. by rewrite IH.
Qed.

Lemma length_str_of l : String.length (str_of l) = length l.
Proof.
  unfold str_of. induction l as [|ch l IH]; [done|].
  cbn [string_of_list_ascii String.length length]. by rewrite IH.
Qed.

Lemma off_board_false size r c :
  off_board size r c = false <-> 0 <= r < size /\ 0 <= c < size.
Proof.
  unfold off_board. rewrite !orb_false_iff, !Z.ltb_ge.
  assert (H : forall x, (x >=? size) = false <-> x < size).
  { intros x. destruct (x >=? size) eqn:E.
    - apply Z.geb_le in E. split; [done|lia].
    - split; [|done]. intros _. destruct (decide (x < size)) as [|Hge]; [done|].
      assert ((x >=? size) = true) by (apply Z.geb_le; lia). congruence. }
  rewrite !H. tauto.
Qed.

(** X21. [getLineString] on a cell of the grid reads exactly the cells of
    the line through it that are at most 4 steps away and on the grid, in
    order, whatever the step: no cell off the grid is read, and the string,
    with its two border marks, has at most 11 characters. *)
Theorem getLineString_window (size : Z) (b : Board) (r c dr dc player : Z) (force : bool) :
  0 <= r < size -> 0 <= c < size ->
  exists minK maxK,
    -4 <= minK <= 0 /\ 0 <= maxK <= 4
    /\ (forall k, -4 <= k <= 4 ->
          (minK <= k <= maxK <-> 0 <= r + k * dr < size /\ 0 <= c + k * dc < size))
    /\ getLineString size b r c dr dc player force
       = "2" +:+ str_of (map (fun k => if (k =? 0) && force then "1"%char
                                       else encode player (cell b (r + k * dr) (c + k * dc)))
                             (seqZ minK (maxK - minK + 1))) +:+ "2"
    /\ String.length (getLineString size b r c dr dc player force)
       = Z.to_nat (maxK - minK + 3).
Proof.
  intros Hr Hc.
  pose (off := fun k => off_board size (r + k * dr) (c + k * dc)).
  assert (H0 : off 0 = false).
  { unfold off. apply off_board_false. lia. }
  destruct (raise_minK_first off H0) as (Hmin & Hminr & Hbelow).
  destruct (lower_maxK_first off H0) as (Hmax & Hmaxr & Habove).
  exists (raise_minK 5 off (-4)), (lower_maxK 5 off 4).
  remember (raise_minK 5 off (-4)) as minK eqn:EminK.
  remember (lower_maxK 5 off 4) as maxK eqn:EmaxK.
  split; [done|]. split; [done|]. split; [|split].
  - intros k Hk. split.
    + intros Hin. unfold off in Hmin, Hmax. apply off_board_false in Hmin, Hmax.
      assert (0 <= (k - minK) * (maxK - k)) by nia.
      destruct Hmin as [[? ?] [? ?]], Hmax as [[? ?] [? ?]].
      assert (Hconv : forall x d, 0 <= x + minK * d < size -> 0 <= x + maxK * d < size ->
                0 <= x + k * d < size).
      { intros x d [? ?] [? ?].
        destruct (Z.le_gt_cases 0 d).
        - assert (minK * d <= k * d) by nia. assert (k * d <= maxK * d) by nia. lia.
        - assert (maxK * d <= k * d) by nia. assert (k * d <= minK * d) by nia. lia. }
      split; apply Hconv; lia.
    + intros Hin. apply off_board_false in Hin. fold (off k) in Hin.
      destruct (decide (minK <= k)) as [|Hlt].
      * destruct (decide (k <= maxK)) as [|Hgt]; [lia|].
        rewrite Habove in Hin by lia. done.
      * rewrite Hbelow in Hin by lia. done.
  - unfold getLineString. fold off. by rewrite <- EminK, <- EmaxK.
  - unfold getLineString. fold off. rewrite <- EminK, <- EmaxK.
    rewrite !length_append, length_str_of, length_map, length_seqZ.
    cbn [String.length]. lia.
Qed.

Lemma getLineString_window_witness :
  0 <= 7 < 15 /\ 0 <= 0 < 15
  /\ exists minK maxK,
       -4 <= minK <= 0 /\ 0 <= maxK <= 4
       /\ String.length (getLineString 15 split_four_board 7 0 0 1 1 false)
          = Z.to_nat (maxK - minK + 3).
Proof.
  assert (H1 : 0 <= 7 < 15) by lia.
  assert (H2 : 0 <= 0 < 15) by lia.
  split; [exact H1|]. split; [exact H2|].
  destruct (getLineString_window 15 split_four_board 7 0 0 1 1 false H1 H2)
    as (minK & maxK & Ha & Hb & _ & _ & Hlen).
  exists minK, maxK. split; [exact Ha|]. split; [exact Hb|exact Hlen].
Defined.

(** ** Evaluation, both sides *)

(** X22. The two evaluations of a board add up to [1 - opponentThreat] times
    the sum of the two pattern scores: [evaluateBoard] for the opponent is
    minus [evaluateBoard] for the player only where that product is 0. *)
Theorem evaluation_sum (ai : Settings) (b : Board) (player : Z) :
  (evaluateBoard ai b player + evaluateBoard ai b (3 - player)
   == (1 - opponentThreat (patternWeights ai))
      * (evaluatePatternsForPlayer ai b player
         + evaluatePatternsForPlayer ai b (3 - player)))%Q.
Proof.
  unfold evaluateBoard. replace (3 - (3 - player)) with player by lia. ring.
Qed.

(** ** The log of the game *)

(** X23. [addLog] keeps the newest entries only: the stored list is the
    old list with the entry appended, cut at the front to at most 1000
    entries; the new entry is always the last one. *)
Theorem addLog_cap {A} (logs : list A) (log : A) :
  length (addLog logs log) = Nat.min 1000 (length logs + 1)
  /\ addLog logs log `suffix_of` logs ++ [log]
  /\ last (addLog logs log) = Some log.
Proof.
  unfold addLog. cbv zeta. rewrite length_app. cbn [length].
  destruct (1000 <? length logs + 1)%nat eqn:E.
  - apply Nat.ltb_lt in E. split; [|split].
    + rewrite length_drop, length_app. cbn [length]. lia.
    + apply suffix_drop.
    + assert (Hle : (length logs + 1 - 1000 <= length logs)%nat) by lia.
      rewrite (drop_app_le logs [log] _ Hle). apply last_snoc.
  - apply Nat.ltb_ge in E. split; [rewrite length_app; cbn [length]; lia|].
    split; [done|apply last_snoc].
Qed.

(** X24. [detectAllPatterns] is the sum of [detectPositionPatterns] over the
    stones of the player: each counter is the sum, over the cells of the grid
    that hold a stone of [player], of the counter [detectPositionPatterns]
    gives for that cell, which is the number of the four directions reported
    with that pattern (so between 0 and 4). *)
Theorem detectAllPatterns_sum (ai : Settings) (b : Board) (player : Z) (t : PatternType) :
  detectAllPatterns ai b player t
  = foldr Z.add 0
      (map (fun m => detectPositionPatterns ai b (fst m) (snd m) player t)
           (filter (fun m => is_val (cell b (fst m) (snd m)) player = true) (scan_order ai)))
  /\ forall row col,
       detectPositionPatterns ai b row col player t
       = Z.of_nat (length (filter (fun d : Z * Z =>
                                     detectPatternInDirection ai b row col (fst d) (snd d)
                                       player = Some t) directions))
       /\ 0 <= detectPositionPatterns ai b row col player t <= 4.
Proof.
  assert (Hpos : forall row col,
    detectPositionPatterns ai b row col player t
    = Z.of_nat (length (filter (fun d : Z * Z =>
                                  detectPatternInDirection ai b row col (fst d) (snd d)
                                    player = Some t) directions))).
  { intros row col. unfold detectPositionPatterns, detect_directions.
    rewrite detect_directions_count. unfold no_patterns. lia. }
  split.
  - unfold detectAllPatterns.
    assert (H : forall cells p,
      fold_left (fun patterns '(row, col) =>
                   if negb (is_val (cell b row col) player) then patterns
                   else detect_directions ai b row col player patterns) cells p t
      = p t + foldr Z.add 0
                (map (fun m => detectPositionPatterns ai b (fst m) (snd m) player t)
                     (filter (fun m => is_val (cell b (fst m) (snd m)) player = true) cells))).
    { induction cells as [|[row col] cells IH]; intros p; [simpl; lia|].
      cbn [fold_left]. rewrite IH, filter_cons. cbn [fst snd].
      destruct (is_val (cell b row col) player) eqn:Ev; cbn [negb].
      - rewrite decide_True by done. cbn [map foldr fst snd].
        rewrite Hpos. unfold detect_directions. rewrite detect_directions_count. lia.
      - rewrite decide_False by done. done. }
    rewrite H. unfold no_patterns. lia.
  - intros row col. split; [apply Hpos|]. rewrite Hpos.
    pose proof (length_filter (fun d : Z * Z =>
                  detectPatternInDirection ai b row col (fst d) (snd d) player = Some t)
                  directions) as Hlen.
    change (length directions) with 4%nat in Hlen. lia.
Qed.
